(** * VOXNOT orchestration layer: a shallow embedding of [sources/VOXNOT.py]

    The Python class [VOXNOT] drives dataset preparation, training and
    conversion through the operating system ([os], [shutil]) and through
    collaborators of the repository (the preparation tool, the shard
    loader, the model and the feature helper).  The embedding keeps the
    filesystem as a tree, paths as strings handled the way [posixpath]
    handles them, exceptions as values, and every call that leaves the
    class as an event of a trace. *)

From Stdlib Require Import String Ascii List Bool Arith ZArith Lia.
Import ListNotations.
Open Scope string_scope.

Set Implicit Arguments.
Set Warnings "-register-all".

(* ================================================================== *)
(** ** Path strings, after [posixpath] *)
(* ================================================================== *)

Module PosixPath.

Definition sep : ascii := "/"%char.
Definition extsep : ascii := "."%char.

(** [s.startswith('/')] and [s.endswith('/')]. *)
Definition startswith_sep (s : string) : bool :=
  match s with
  | String c _ => Ascii.eqb c sep
  | EmptyString => false
  end.

Fixpoint endswith_sep (s : string) : bool :=
  match s with
  | EmptyString => false
  | String c EmptyString => Ascii.eqb c sep
  | String _ s' => endswith_sep s'
  end.

(** [os.path.join(a, b)] with two arguments. *)
Definition join (a b : string) : string :=
  if startswith_sep b then b
  else if (String.eqb a "" || endswith_sep a)%bool then a ++ b
  else a ++ String sep b.

(** [s.split('/')]: never empty, one more piece than separators. *)
Fixpoint split_sep (s : string) : list string :=
  match s with
  | EmptyString => [EmptyString]
  | String c s' =>
      if Ascii.eqb c sep then EmptyString :: split_sep s'
      else match split_sep s' with
           | h :: t => String c h :: t
           | [] => [String c EmptyString]
           end
  end.

(** [os.path.basename(p)]: what follows the last separator. *)
Definition basename (p : string) : string := last (split_sep p) "".

Fixpoint has_char (c : ascii) (s : string) : bool :=
  match s with
  | EmptyString => false
  | String d s' => (Ascii.eqb d c || has_char c s')%bool
  end.

Fixpoint all_char (c : ascii) (s : string) : bool :=
  match s with
  | EmptyString => true
  | String d s' => (Ascii.eqb d c && all_char c s')%bool
  end.

(** Cut [s] at its last [c]: the part before it and the part from it
    on ([s[:i]], [s[i:]] for [i = s.rfind(c)]). *)
Fixpoint rcut (c : ascii) (s : string) : option (string * string) :=
  match s with
  | EmptyString => None
  | String d s' =>
      match rcut c s' with
      | Some (pre, suf) => Some (String d pre, suf)
      | None => if Ascii.eqb d c then Some (EmptyString, s) else None
      end
  end.

(** The extension [os.path.splitext(p)[1]] ([genericpath._splitext]):
    the last dot must lie in the last component, and the leading dots
    of that component do not start an extension. *)
Definition ext_of (p : string) : string :=
  match rcut extsep (basename p) with
  | Some (pre, suf) => if all_char extsep pre then "" else suf
  | None => ""
  end.

Definition splitext (p : string) : string * string :=
  let e := ext_of p in
  (substring 0 (String.length p - String.length e) p, e).

(** A directory entry name: not empty, no separator, neither [.] nor
    [..]. *)
Definition valid_name (n : string) : bool :=
  (negb (String.eqb n "") && negb (has_char sep n)
   && negb (String.eqb n ".") && negb (String.eqb n ".."))%bool.

(** One step of path resolution on the list of names walked so far. *)
Definition step (acc : list string) (c : string) : list string :=
  if (String.eqb c "" || String.eqb c ".")%bool then acc
  else if String.eqb c ".." then removelast acc
  else acc ++ [c].

(** The names a path denotes once [.], [..] and empty pieces are
    resolved, starting from the root. *)
Definition lexical (p : string) : list string :=
  fold_left step (split_sep p) [].

End PosixPath.

Import PosixPath.

(* ================================================================== *)
(** ** Exceptions *)
(* ================================================================== *)

(** The Python exceptions the embedding can raise, all of them
    subclasses of [Exception].  [OSError] keeps the errno as text for
    the kinds without a class of their own. *)
Inductive exn : Type :=
| FileNotFoundError (p : string)
| NotADirectoryError (p : string)
| IsADirectoryError (p : string)
| PermissionError (p : string)
| FileExistsError (p : string)
| OSError (errno : string) (p : string)
| KeyError (key : string)
| TypeError (msg : string)
| AssertionError (msg : string)
| ValueError (msg : string)
| IndexError (msg : string)
| CollaboratorError (code : nat).

(* ================================================================== *)
(** ** The filesystem: a tree of named entries *)
(* ================================================================== *)

(** A regular file or a directory.  [busy] marks a file the operating
    system refuses to unlink (immutable, in use, on a read-only mount):
    [os.remove] raises on it.  Directory entries keep the order in which
    [os.listdir] reports them.  Symbolic links and special files are not
    part of the tree: what is proved about the entries a pass over a
    directory reaches is proved for trees of regular files and
    directories. *)
Inductive node : Type :=
| File (busy : bool)
| Dir (entries : list (string * node)).

Fixpoint assoc (k : string) (es : list (string * node)) : option node :=
  match es with
  | [] => None
  | (k', v) :: t => if String.eqb k k' then Some v else assoc k t
  end.

Fixpoint remove_assoc (k : string) (es : list (string * node))
  : list (string * node) :=
  match es with
  | [] => []
  | (k', v) :: t =>
      if String.eqb k k' then t else (k', v) :: remove_assoc k t
  end.

Fixpoint update_assoc (k : string) (f : node -> node)
  (es : list (string * node)) : list (string * node) :=
  match es with
  | [] => []
  | (k', v) :: t =>
      if String.eqb k k' then (k', f v) :: t
      else (k', v) :: update_assoc k f t
  end.

(** The node a list of names leads to. *)
Fixpoint get (n : node) (cp : list string) {struct cp} : option node :=
  match cp with
  | [] => Some n
  | c :: cs =>
      match n with
      | Dir es => match assoc c es with
                  | Some ch => get ch cs
                  | None => None
                  end
      | File _ => None
      end
  end.

(** Unlink the entry a list of names leads to. *)
Fixpoint delete_at (n : node) (cp : list string) {struct cp} : node :=
  match cp with
  | [] => n
  | c :: cs =>
      match n with
      | File b => File b
      | Dir es =>
          match cs with
          | [] => Dir (remove_assoc c es)
          | _ :: _ => Dir (update_assoc c (fun ch => delete_at ch cs) es)
          end
      end
  end.

(** Add entry [name] at the end of the directory [cp] leads to. *)
Fixpoint insert_at (n : node) (cp : list string) (name : string)
  (new : node) {struct cp} : node :=
  match cp with
  | [] => match n with
          | Dir es => Dir (es ++ [(name, new)])
          | File b => File b
          end
  | c :: cs =>
      match n with
      | Dir es =>
          Dir (update_assoc c (fun ch => insert_at ch cs name new) es)
      | File b => File b
      end
  end.

(** Height of a tree: a file has none, a directory one more than its
    highest entry. *)
Fixpoint hgt (n : node) : nat :=
  match n with
  | File _ => 0
  | Dir es => S (list_max (map (fun e => hgt (snd e)) es))
  end.

Fixpoint nodupb (l : list string) : bool :=
  match l with
  | [] => true
  | x :: t => (negb (existsb (String.eqb x) t) && nodupb t)%bool
  end.

(** Every entry name is a proper name. *)
Fixpoint names_ok (n : node) : bool :=
  match n with
  | File _ => true
  | Dir es =>
      forallb (fun e => (valid_name (fst e) && names_ok (snd e))%bool) es
  end.

(** Entry names are unique within each directory. *)
Fixpoint names_unique (n : node) : bool :=
  match n with
  | File _ => true
  | Dir es =>
      (nodupb (map fst es) && forallb (fun e => names_unique (snd e)) es)%bool
  end.

(** A well-formed filesystem: the root is a directory, names are proper
    and unique. *)
Definition wf_fs (root : node) : bool :=
  (match root with Dir _ => true | File _ => false end
   && names_ok root && names_unique root)%bool.

(** Path resolution from the root (which is also the working
    directory): every piece is taken in a directory; a missing or
    non-directory prefix fails with the errno of [stat]. *)
Inductive errno : Type := ENOENT | ENOTDIR.

Fixpoint walk (root : node) (acc : list string) (cs : list string)
  : errno + list string :=
  match cs with
  | [] => inr acc
  | c :: cs' =>
      match get root acc with
      | Some (Dir _) => walk root (step acc c) cs'
      | Some (File _) => inl ENOTDIR
      | None => inl ENOENT
      end
  end.

Definition resolve (root : node) (p : string) : errno + list string :=
  if String.eqb p "" then inl ENOENT else walk root [] (split_sep p).

Definition oserror (e : errno) (p : string) : exn :=
  match e with
  | ENOENT => FileNotFoundError p
  | ENOTDIR => NotADirectoryError p
  end.

(** [os.stat]: the node at a path, if it resolves. *)
Definition stat (root : node) (p : string) : option node :=
  match resolve root p with
  | inr cp => get root cp
  | inl _ => None
  end.

Definition fs_exists (root : node) (p : string) : bool :=
  match stat root p with Some _ => true | None => false end.

Definition fs_isfile (root : node) (p : string) : bool :=
  match stat root p with Some (File _) => true | _ => false end.

Definition fs_isdir (root : node) (p : string) : bool :=
  match stat root p with Some (Dir _) => true | _ => false end.

(** [os.listdir]. *)
Definition fs_listdir (root : node) (p : string) : exn + list string :=
  match resolve root p with
  | inl e => inl (oserror e p)
  | inr cp =>
      match get root cp with
      | Some (Dir es) => inr (map fst es)
      | Some (File _) => inl (NotADirectoryError p)
      | None => inl (FileNotFoundError p)
      end
  end.

(** [os.remove]: unlinks a regular file that is not busy. *)
Definition fs_remove (root : node) (p : string) : exn + node :=
  match resolve root p with
  | inl e => inl (oserror e p)
  | inr cp =>
      match get root cp with
      | Some (File false) => inr (delete_at root cp)
      | Some (File true) => inl (PermissionError p)
      | Some (Dir _) => inl (IsADirectoryError p)
      | None => inl (FileNotFoundError p)
      end
  end.

(** [os.rmdir]: removes an empty directory named by its last piece. *)
Definition fs_rmdir (root : node) (p : string) : exn + node :=
  match resolve root p with
  | inl e => inl (oserror e p)
  | inr cp =>
      match get root cp with
      | Some (Dir []) =>
          if (String.eqb (basename p) "." || String.eqb (basename p) "..")%bool
          then inl (OSError "EINVAL" p)
          else match cp with
               | [] => inl (OSError "EBUSY" p)
               | _ :: _ => inr (delete_at root cp)
               end
      | Some (Dir (_ :: _)) => inl (OSError "ENOTEMPTY" p)
      | Some (File _) => inl (NotADirectoryError p)
      | None => inl (FileNotFoundError p)
      end
  end.

Fixpoint strip_trailing_empty (cs : list string) : list string :=
  match cs with
  | [] => []
  | c :: t =>
      match strip_trailing_empty t with
      | [] => if String.eqb c "" then [] else [c]
      | t' => c :: t'
      end
  end.

(** Create a new entry at a path whose parent is an existing
    directory. *)
Definition fs_create (root : node) (p : string) (new : node) : exn + node :=
  match stat root p with
  | Some _ => inl (FileExistsError p)
  | None =>
      let cs := strip_trailing_empty (split_sep p) in
      let name := last cs "" in
      match walk root [] (removelast cs) with
      | inl e => inl (oserror e p)
      | inr cp =>
          match get root cp with
          | Some (Dir _) =>
              if (negb (String.eqb p "") && valid_name name)%bool
              then inr (insert_at root cp name new)
              else inl (FileNotFoundError p)
          | Some (File _) => inl (NotADirectoryError p)
          | None => inl (FileNotFoundError p)
          end
      end
  end.

(** [os.mkdir]: creates an empty directory in an existing parent. *)
Definition fs_mkdir (root : node) (p : string) : exn + node :=
  fs_create root p (Dir []).

(** Writing a file: a new regular file, or the old one written over. *)
Definition fs_write (p : string) (root : node) : node :=
  match fs_create root p (File false) with
  | inr root' => root'
  | inl _ => root
  end.

(* ================================================================== *)
(** ** [torch.utils.data.ConcatDataset] *)
(* ================================================================== *)

Section Concat.

(** A record of a shard; a loaded shard is the sequence of its records. *)
Variable Obj : Type.

Record ConcatDataset : Type := {
  datasets : list (list Obj);
  cumulative_sizes : list Z
}.

(** [ConcatDataset.cumsum]: running totals of the shard lengths. *)
Fixpoint cumsum_from (s : Z) (sequence : list (list Obj)) : list Z :=
  match sequence with
  | [] => []
  | e :: rest =>
      let l := Z.of_nat (length e) in
      (l + s)%Z :: cumsum_from (s + l)%Z rest
  end.

Definition cumsum (sequence : list (list Obj)) : list Z :=
  cumsum_from 0%Z sequence.

(** [ConcatDataset.__init__]: the list of datasets must not be empty. *)
Definition ConcatDataset_init (ds : list (list Obj)) : exn + ConcatDataset :=
  match ds with
  | [] => inl (AssertionError "datasets should not be an empty iterable")
  | _ :: _ => inr {| datasets := ds; cumulative_sizes := cumsum ds |}
  end.

(** [ConcatDataset.__len__]: [self.cumulative_sizes[-1]]. *)
Definition ConcatDataset_len (c : ConcatDataset) : Z :=
  last (cumulative_sizes c) 0%Z.

(** [bisect.bisect_right(a, x)] on a sorted list: the number of leading
    elements that are at most [x]. *)
Fixpoint bisect_right (a : list Z) (x : Z) : nat :=
  match a with
  | [] => 0
  | y :: t => if (y <=? x)%Z then S (bisect_right t x) else 0
  end.

(** [seq[i]] for [0 <= i]. *)
Definition index {A : Type} (l : list A) (i : nat) : exn + A :=
  match nth_error l i with
  | Some a => inr a
  | None => inl (IndexError "list index out of range")
  end.

(** [ConcatDataset.__getitem__]. *)
Definition ConcatDataset_getitem (c : ConcatDataset) (idx : Z) : exn + Obj :=
  if ((idx <? 0) && (ConcatDataset_len c <? - idx))%Z%bool
  then inl (ValueError
              "absolute value of index should not exceed dataset length")
  else
    let idx := if (idx <? 0)%Z then (ConcatDataset_len c + idx)%Z else idx in
    let dataset_idx := bisect_right (cumulative_sizes c) idx in
    let sample_idx :=
      match dataset_idx with
      | 0 => idx
      | S k => (idx - nth k (cumulative_sizes c) 0)%Z
      end in
    match index (datasets c) dataset_idx with
    | inl e => inl e
    | inr d => index d (Z.to_nat sample_idx)
    end.

End Concat.

(* ================================================================== *)
(** ** The world, its trace and the monad of the methods *)
(* ================================================================== *)

(** Every call that leaves the class, in the order it is made. *)
Inductive event : Type :=
| EvPrint (line : string)
| EvPrintExn (e : exn)
| EvRemove (p : string)
| EvRmdir (p : string)
| EvMkdir (p : string)
| EvToolInit (input_dir dataset_dir : string)
| EvToolPrepare
| EvGcCollect
| EvEmptyCache
| EvDatasetInit (p : string)
| EvModelInit (class_name : string)
| EvSetTrainParams (training_name : string)
| EvTrain
| EvBestModelPath
| EvCopy2 (src dst : string)
| EvHelperInit
| EvLoadWeights (p : string)
| EvGetFeatures (ps : list string)
| EvPredict
| EvVocode (p : string).

Inductive outcome (A : Type) : Type :=
| Ok (a : A)
| Raise (e : exn)
| OutOfFuel.

Arguments Ok {A} a.
Arguments Raise {A} e.
Arguments OutOfFuel {A}.

Section World.

(** [X] is the state of everything outside the filesystem (accelerator
    memory, the weights of the model); [Obj] the opaque Python values
    the class only passes around (device, parameters, features,
    records). *)
Variables X Obj : Type.

Record world : Type := {
  w_fs : node;
  w_ext : X;
  w_trace : list event
}.

Definition M (A : Type) : Type := world -> outcome A * world.

Definition ret {A : Type} (a : A) : M A := fun w => (Ok a, w).

Definition bind {A B : Type} (m : M A) (k : A -> M B) : M B :=
  fun w =>
    match m w with
    | (Ok a, w') => k a w'
    | (Raise e, w') => (Raise e, w')
    | (OutOfFuel, w') => (OutOfFuel, w')
    end.

(** [try: body except Exception as e: handler(e)]. *)
Definition try_except {A : Type} (body : M A) (handler : exn -> M A) : M A :=
  fun w =>
    match body w with
    | (Raise e, w') => handler e w'
    | r => r
    end.

Definition log (ev : event) (w : world) : world :=
  {| w_fs := w_fs w; w_ext := w_ext w; w_trace := w_trace w ++ [ev] |}.

(** A call into a collaborator: it may change the filesystem and its
    own state, and returns or raises. *)
Definition ext (A : Type) : Type := node -> X -> (exn + A) * node * X.

Definition call {A : Type} (ev : event) (f : ext A) : M A :=
  fun w =>
    let '(r, fs', x') := f (w_fs w) (w_ext w) in
    (match r with inl e => Raise e | inr a => Ok a end,
     {| w_fs := fs'; w_ext := x'; w_trace := w_trace w ++ [ev] |}).

(** A filesystem query: no event, no change. *)
Definition query {A : Type} (f : node -> A) : M A :=
  fun w => (Ok (f (w_fs w)), w).

(** A filesystem update: one event, and the new tree when it succeeds. *)
Definition update (ev : event) (f : node -> exn + node) : M unit :=
  fun w =>
    match f (w_fs w) with
    | inr fs' =>
        (Ok tt, {| w_fs := fs'; w_ext := w_ext w;
                   w_trace := w_trace w ++ [ev] |})
    | inl e => (Raise e, log ev w)
    end.

Definition print (line : string) : M unit := fun w => (Ok tt, log (EvPrint line) w).
Definition print_exn (e : exn) : M unit := fun w => (Ok tt, log (EvPrintExn e) w).

Definition os_path_exists (p : string) : M bool := query (fun fs => fs_exists fs p).
Definition os_path_isfile (p : string) : M bool := query (fun fs => fs_isfile fs p).
Definition os_path_isdir (p : string) : M bool := query (fun fs => fs_isdir fs p).

Definition os_listdir (p : string) : M (list string) :=
  fun w =>
    match fs_listdir (w_fs w) p with
    | inr names => (Ok names, w)
    | inl e => (Raise e, w)
    end.

Definition os_remove (p : string) : M unit := update (EvRemove p) (fun fs => fs_remove fs p).
Definition os_rmdir (p : string) : M unit := update (EvRmdir p) (fun fs => fs_rmdir fs p).
Definition os_mkdir (p : string) : M unit := update (EvMkdir p) (fun fs => fs_mkdir fs p).

(** [for x in xs: body(x)]. *)
Fixpoint for_each {A : Type} (xs : list A) (body : A -> M unit) : M unit :=
  match xs with
  | [] => ret tt
  | x :: rest => bind (body x) (fun _ => for_each rest body)
  end.

End World.

Arguments ret {X A} a.
Arguments print {X} line.
Arguments print_exn {X} e.
Arguments os_path_exists {X} p.
Arguments os_path_isfile {X} p.
Arguments os_path_isdir {X} p.
Arguments os_listdir {X} p.
Arguments os_remove {X} p.
Arguments os_rmdir {X} p.
Arguments os_mkdir {X} p.
Arguments query {X A} f.
Arguments update {X} ev f.
Arguments log {X} ev w.

Declare Scope py_scope.
Delimit Scope py_scope with py.
Notation "x <- m ;; k" := (bind m (fun x => k))
  (at level 61, m at next level, right associativity) : py_scope.
Notation "m ;;; k" := (bind m (fun _ => k))
  (at level 61, right associativity) : py_scope.

(* ================================================================== *)
(** ** Collaborators of the class *)
(* ================================================================== *)

(** What a name of the module's global table is bound to: something
    that can be called with [(device, hyper_params, prod_mode)], or a
    value that cannot be called, of the type named. *)
Inductive pyglobal (X Obj : Type) : Type :=
| Callable (new : Obj -> Obj -> bool -> ext X Obj)
| NotCallable (type_name : string).

Arguments NotCallable {X Obj} type_name.

(** The code the class calls and does not define: the modules it
    imports from the repository ([sources.data_preparation],
    [sources.voxnot_dataset], [sources.base_model],
    [sources.audio_helper]) and the libraries ([gc], [torch], [shutil]).
    Loading a shard reads the filesystem and does not change it.  The
    tool is built with the constants of the source ([augmentation =
    None], [keep_converted_audio = True], [vad_trigger_level = 0]).
    [class_new n] is the call of the class that the module binds to the
    name [n]; [other_globals] is what the global table holds beside the
    modules and classes the file itself binds: [con] of line 32, which
    comes from a package outside the sources, the attributes every
    module has, and names bound at run time. *)
Record collaborators (X Obj : Type) : Type := {
  class_new : string -> Obj -> Obj -> bool -> ext X Obj;
  other_globals : string -> option (pyglobal X Obj);
  tool_init : string -> string -> Obj -> ext X Obj;
  tool_prepare : Obj -> ext X unit;
  dataset_init : string -> Obj -> node -> X -> (exn + list Obj) * X;
  gc_collect : ext X unit;
  cuda_empty_cache : ext X unit;
  model_set_train_params :
    Obj -> Obj -> Obj -> ConcatDataset Obj -> ConcatDataset Obj -> string ->
    ext X unit;
  model_train : Obj -> ext X unit;
  model_get_last_best_model_path : Obj -> ext X string;
  model_load_weights : Obj -> string -> ext X unit;
  model_predict : Obj -> Obj -> ext X Obj;
  helper_init : Obj -> ext X Obj;
  helper_get_features : Obj -> list string -> ext X Obj;
  helper_vocode : Obj -> Obj -> string -> ext X unit;
  shutil_copy2 : string -> string -> ext X unit
}.

(** The names the [import] statements of the module bind to modules
    (lines 22 to 25). *)
Definition imported_modules : list string := ["gc"; "os"; "shutil"; "torch"].

(** The names bound to classes at module level: the classes imported on
    lines 27 to 31 and 33, and the class [VOXNOT] itself (line 35). *)
Definition module_classes : list string :=
  ["VOXNOTModelHyperParams"; "VOXNOTModelTrainingEnvironment";
   "VOXNOTModelTrainingHyperParams"; "VOXNOTBaseModel";
   "VOXNOTDatasetPreparationTools"; "VOXNOTDataset"; "VOXNOTFeaturesHelper";
   "ConcatDataset"; "VOXNOT"].

(** [globals()] of the module, as the statements of the file make it:
    the classes are bound and can be called, the imported modules are
    bound and cannot. *)
Definition module_globals {X Obj : Type} (C : collaborators X Obj)
  (name : string) : option (pyglobal X Obj) :=
  if existsb (String.eqb name) module_classes
  then Some (Callable (class_new C name))
  else if existsb (String.eqb name) imported_modules
  then Some (NotCallable "module")
  else other_globals C name.

(* ================================================================== *)
(** ** The class [VOXNOT] *)
(* ================================================================== *)

Section VOXNOT.

Variables X Obj : Type.
Variable C : collaborators X Obj.

Local Open Scope py_scope.

(** The attributes of an instance. *)
Record VOXNOT : Type := {
  device : Obj;
  model_instance : Obj
}.

(** The body of the loop of [_clear_folder], for one entry of the
    listing; [recur] is the call of [VOXNOT._clear_folder] on a
    sub-directory. *)
Definition clear_entry (recur : string -> M X unit) (dir the_file : string)
  : M X unit :=
  let file_path := join dir the_file in
  try_except
    (isf <- os_path_isfile file_path ;;
     (if isf : bool then os_remove file_path
      else recur file_path ;;; os_rmdir file_path) ;;;
     print ("Clear file " ++ file_path ++ " from dataset directory"))
    (fun e => print_exn e).

(** [VOXNOT._clear_folder], with the depth of the recursion bounded by
    [fuel]. *)
Fixpoint clear_folder_fuel (fuel : nat) (dir : string) : M X unit :=
  b <- os_path_exists dir ;;
  if b : bool then
    match fuel with
    | 0 => fun w => (OutOfFuel, w)
    | S fuel' =>
        names <- os_listdir dir ;;
        for_each names (clear_entry (clear_folder_fuel fuel') dir)
    end
  else ret tt.

(** [VOXNOT._clear_folder]: the recursion never goes deeper than the
    tree is high. *)
Definition _clear_folder (dir : string) : M X unit :=
  fun w => clear_folder_fuel (S (hgt (w_fs w))) dir w.

(** [VOXNOT.__init__]. *)
Definition __init__ (device : Obj) (model_class_name : string)
  (hyper_params : Obj) (prod_mode : bool) : M X VOXNOT :=
  class_object <-
    (fun w => match module_globals C model_class_name with
              | Some g => (Ok g, w)
              | None => (Raise (KeyError model_class_name), w)
              end) ;;
  inst <-
    match class_object with
    | Callable new =>
        call (EvModelInit model_class_name) (new device hyper_params prod_mode)
    | NotCallable type_name =>
        fun w =>
          (Raise (TypeError ("'" ++ type_name ++ "' object is not callable")),
           w)
    end ;;
  ret {| device := device; model_instance := inst |}.

(** [VOXNOT.clear_mem]; the [torch.no_grad()] block only scopes the
    second [empty_cache]. *)
Definition clear_mem : M X unit :=
  call EvGcCollect (gc_collect C) ;;;
  call EvEmptyCache (cuda_empty_cache C) ;;;
  call EvEmptyCache (cuda_empty_cache C).

(** A shard file of [dataset_dir]: a regular file whose extension is
    [.pt]. *)
Definition is_shard (dataset_dir file_ds : string) : M X bool :=
  let path_file_ds := join dataset_dir file_ds in
  isf <- os_path_isfile path_file_ds ;;
  ret (isf && String.eqb (snd (splitext path_file_ds)) ".pt")%bool.

(** The first loop of [_prepare_dataset]: stop at the first shard. *)
Fixpoint scan_prepared (dataset_dir : string) (names : list string)
  : M X bool :=
  match names with
  | [] => ret false
  | file_ds :: rest =>
      found <- is_shard dataset_dir file_ds ;;
      if found : bool then ret true else scan_prepared dataset_dir rest
  end.

(** [VOXNOTDataset(path_file_ds, self.device)]. *)
Definition VOXNOTDataset (path_file_ds : string) (dev : Obj)
  : M X (list Obj) :=
  fun w =>
    let '(r, x') := dataset_init C path_file_ds dev (w_fs w) (w_ext w) in
    (match r with inl e => Raise e | inr d => Ok d end,
     {| w_fs := w_fs w; w_ext := x';
        w_trace := w_trace w ++ [EvDatasetInit path_file_ds] |}).

(** The last loop of [_prepare_dataset]: [datasets += [VOXNOTDataset(..)]]
    for every shard. *)
Fixpoint load_shards (self : VOXNOT) (dataset_dir : string)
  (names : list string) (datasets : list (list Obj)) : M X (list (list Obj)) :=
  match names with
  | [] => ret datasets
  | file_ds :: rest =>
      found <- is_shard dataset_dir file_ds ;;
      if found : bool then
        d <- VOXNOTDataset (join dataset_dir file_ds) (device self) ;;
        load_shards self dataset_dir rest (datasets ++ [d])
      else load_shards self dataset_dir rest datasets
  end.

(** The branch of [_prepare_dataset] that clears and rebuilds the cache. *)
Definition rebuild_cache (self : VOXNOT) (input_dir dataset_dir : string)
  : M X unit :=
  print ("Preparing datasets " ++ input_dir ++ "..") ;;;
  isd <- os_path_isdir dataset_dir ;;
  (if isd : bool then _clear_folder dataset_dir
   else os_mkdir dataset_dir) ;;;
  tool <- call (EvToolInit input_dir dataset_dir)
            (tool_init C input_dir dataset_dir (device self)) ;;
  call EvToolPrepare (tool_prepare C tool).

(** The end of [_prepare_dataset]: list the directory again, load every
    shard and concatenate them. *)
Definition compose_shards (self : VOXNOT) (dataset_dir : string)
  : M X (ConcatDataset Obj) :=
  names <- os_listdir dataset_dir ;;
  datasets <- load_shards self dataset_dir names [] ;;
  (fun w => match ConcatDataset_init datasets with
            | inr c => (Ok c, w)
            | inl e => (Raise e, w)
            end).

(** [VOXNOT._prepare_dataset]. *)
Definition _prepare_dataset (self : VOXNOT) (delete_last_prepared_data : bool)
  (input_dir dataset_dir : string) : M X (ConcatDataset Obj) :=
  names <- os_listdir dataset_dir ;;
  exists_prepared_datasets <- scan_prepared dataset_dir names ;;
  (if (delete_last_prepared_data || negb exists_prepared_datasets)%bool
   then rebuild_cache self input_dir dataset_dir
   else ret tt) ;;;
  clear_mem ;;;
  compose_shards self dataset_dir.

(** [VOXNOT.train]. *)
Definition train (self : VOXNOT) (delete_last_prepared_data : bool)
  (input_query_dir input_reffer_dir temp_dir output_dir : string)
  (training_hyper_params training_env : Obj) (training_name : string)
  : M X unit :=
  dataset_X <- _prepare_dataset self delete_last_prepared_data
                 input_query_dir (join temp_dir "input_ds_X") ;;
  dataset_Y <- _prepare_dataset self delete_last_prepared_data
                 input_reffer_dir (join temp_dir "input_ds_Y") ;;
  call (EvSetTrainParams training_name)
    (model_set_train_params C (model_instance self) training_hyper_params
       training_env dataset_X dataset_Y training_name) ;;;
  call EvTrain (model_train C (model_instance self)) ;;;
  model_path <- call EvBestModelPath
                  (model_get_last_best_model_path C (model_instance self)) ;;
  let model_dest_path := join output_dir (training_name ++ ".pt") in
  print ("Copy model " ++ model_path ++ " to " ++ model_dest_path) ;;;
  call (EvCopy2 model_path model_dest_path)
    (shutil_copy2 C model_path model_dest_path).

(** The loop of [_get_files] over a directory listing. *)
Fixpoint collect_files (path : string) (names : list string)
  (file_list : list string) : M X (list string) :=
  match names with
  | [] => ret file_list
  | file_path :: rest =>
      isf <- os_path_isfile (join path file_path) ;;
      if isf : bool
      then collect_files path rest (file_list ++ [join path file_path])
      else collect_files path rest file_list
  end.

(** [VOXNOT._get_files]. *)
Definition _get_files (self : VOXNOT) (path : string) : M X (list string) :=
  isd <- os_path_isdir path ;;
  if isd : bool then
    names <- os_listdir path ;;
    collect_files path names []
  else ret [path].

(** The path one converted pair is written to. *)
Definition out_file_path_of (isd : bool) (out_path query_path model_name : string)
  : string :=
  if negb isd then out_path
  else join out_path (basename query_path ++ "_" ++ model_name ++ ".wav").

(** The two nested loops of [make_conversation]. *)
Definition convert_pairs (self : VOXNOT) (helper : Obj)
  (query_file_list model_file_list : list string) (out_path : string)
  : M X unit :=
  for_each model_file_list (fun model =>
    call (EvLoadWeights model)
      (model_load_weights C (model_instance self) model) ;;;
    let model_name := basename model in
    for_each query_file_list (fun query_path =>
      feats <- call (EvGetFeatures [query_path])
                 (helper_get_features C helper [query_path]) ;;
      Y <- call EvPredict (model_predict C (model_instance self) feats) ;;
      isd <- os_path_isdir out_path ;;
      let out_file_path := out_file_path_of isd out_path query_path model_name in
      call (EvVocode out_file_path) (helper_vocode C helper Y out_file_path))).

(** [VOXNOT.make_conversation]. *)
Definition make_conversation (self : VOXNOT)
  (query_path trained_model_path out_path : string) : M X unit :=
  query_file_list <- _get_files self query_path ;;
  model_file_list <- _get_files self trained_model_path ;;
  helper <- call EvHelperInit (helper_init C (device self)) ;;
  convert_pairs self helper query_file_list model_file_list out_path.

End VOXNOT.

Arguments VOXNOT Obj : clear implicits.

(* ================================================================== *)
(** ** A concrete world for examples *)
(* ================================================================== *)

(** Collaborators over a world with no outer state and numbers for
    Python values: the preparation tool applies [prepare] to the tree,
    a shard at path [p] holds the records [records p], rendering audio
    applies [render] to the tree, everything else succeeds and does
    nothing.  Calling [VOXNOTBaseModel] gives the instance [7], calling
    another class of the module the instance [8]; the global table
    binds nothing beside the modules and classes of the file. *)
Definition toy (prepare : node -> exn + node)
  (records : string -> exn + list nat)
  (render : string -> node -> node) : collaborators unit nat := {|
  class_new := fun name _ _ _ fs x =>
    (inr (if String.eqb name "VOXNOTBaseModel" then 7 else 8), fs, x);
  other_globals := fun _ => None;
  tool_init := fun _ _ _ fs x => (inr 1, fs, x);
  tool_prepare := fun _ fs x =>
    match prepare fs with
    | inr fs' => (inr tt, fs', x)
    | inl e => (inl e, fs, x)
    end;
  dataset_init := fun p _ _ x => (records p, x);
  gc_collect := fun fs x => (inr tt, fs, x);
  cuda_empty_cache := fun fs x => (inr tt, fs, x);
  model_set_train_params := fun _ _ _ _ _ _ fs x => (inr tt, fs, x);
  model_train := fun _ fs x => (inr tt, fs, x);
  model_get_last_best_model_path := fun _ fs x => (inr "runs/best.pt", fs, x);
  model_load_weights := fun _ _ fs x => (inr tt, fs, x);
  model_predict := fun _ f fs x => (inr f, fs, x);
  helper_init := fun _ fs x => (inr 2, fs, x);
  helper_get_features := fun _ _ fs x => (inr 3, fs, x);
  helper_vocode := fun _ _ p fs x => (inr tt, render p fs, x);
  shutil_copy2 := fun _ _ fs x => (inr tt, fs, x)
|}.

Definition toy_self : VOXNOT nat := {| device := 0; model_instance := 7 |}.

Definition start (fs : node) : world unit :=
  {| w_fs := fs; w_ext := tt; w_trace := [] |}.

(** Collaborators that succeed and change nothing; a shard holds one
    record, the length of its path. *)
Definition quiet : collaborators unit nat :=
  toy (fun fs => inr fs) (fun p => inr [String.length p]) (fun _ fs => fs).

(** The tool fails on the sample cache. *)
Definition failing_tool : collaborators unit nat :=
  toy (fun _ => inl (CollaboratorError 1)) (fun p => inr [String.length p])
    (fun _ fs => fs).

(** A renderer that writes its file. *)
Definition writing : collaborators unit nat :=
  toy (fun fs => inr fs) (fun p => inr [String.length p]) fs_write.

(** The two shards of the sample cache, of two and three records. *)
Definition sample_records (n : string) : list nat :=
  if String.eqb n "a.pt" then [10; 11] else [20; 21; 22].

Definition sample_loader : collaborators unit nat :=
  toy (fun fs => inr fs)
    (fun p => inr (if String.eqb p "tmp/input_ds_X/a.pt"
                   then [10; 11] else [20; 21; 22]))
    (fun _ fs => fs).

(** A small tree: a prepared cache with two shards, a note and a
    sub-directory; query and model directories; an output directory. *)
Definition sample_fs : node :=
  Dir [("tmp", Dir [("input_ds_X",
                     Dir [("a.pt", File false); ("notes.txt", File false);
                          ("b.pt", File false);
                          ("sub", Dir [("c.pt", File false)])])]);
       ("q", Dir [("a", File false); ("a_b", File false)]);
       ("m", Dir [("b_c", File false); ("c", File false)]);
       ("out", Dir []);
       ("c.wav", File false)].
(** A tree ready for training: both caches hold a shard. *)
Definition train_fs : node :=
  Dir [("tmp", Dir [("input_ds_X", Dir [("x0.pt", File false)]);
                    ("input_ds_Y", Dir [("y0.pt", File false);
                                        ("y1.pt", File false)])]);
       ("models", Dir [])].

(* ================================================================== *)
(** ** Vocabulary of the statements *)
(* ================================================================== *)

Definition is_file (n : node) : bool :=
  match n with File _ => true | Dir _ => false end.

(** The names of the regular files directly inside a directory, in
    listing order. *)
Definition regular_names (es : list (string * node)) : list string :=
  map fst (filter (fun e => is_file (snd e)) es).

(** The cache directory holds a shard: a regular file whose extension
    is [.pt]. *)
Definition shard_entry (e : string * node) : bool :=
  (is_file (snd e) && String.eqb (ext_of (fst e)) ".pt")%bool.

Definition has_shard (es : list (string * node)) : bool :=
  existsb shard_entry es.

(** The names of the shards of a directory, in listing order. *)
Definition shard_names (es : list (string * node)) : list string :=
  map fst (filter shard_entry es).

(** The events a method adds to the trace. *)
Definition new_events {X : Type} (w w' : world X) : list event :=
  skipn (length (w_trace w)) (w_trace w').

(** Events of clearing the cache, and of the preparation tool. *)
Definition clearing_event (ev : event) : bool :=
  match ev with
  | EvRemove _ | EvRmdir _ | EvMkdir _ => true
  | _ => false
  end.

Definition extraction_event (ev : event) : bool :=
  match ev with
  | EvToolInit _ _ | EvToolPrepare => true
  | _ => false
  end.

Definition reclaim_event (ev : event) : bool :=
  match ev with
  | EvGcCollect | EvEmptyCache => true
  | _ => false
  end.

(** [emits P m]: whatever [m] does, it only adds events, and every
    event it adds satisfies [P]. *)
Definition emits {X A : Type} (P : event -> Prop) (m : M X A) : Prop :=
  forall w r w',
    m w = (r, w') ->
    exists evs, w_trace w' = (w_trace w ++ evs)%list /\ Forall P evs.

(** [approx m1 m2]: [m2] does what [m1] does, wherever [m1] does not
    run out of fuel. *)
Definition approx {X A : Type} (m1 m2 : M X A) : Prop :=
  forall w r w', m1 w = (r, w') -> r <> OutOfFuel -> m2 w = (r, w').

(** Events of [_clear_folder]. *)
Definition clear_folder_event (ev : event) : bool :=
  match ev with
  | EvRemove _ | EvRmdir _ | EvPrint _ | EvPrintExn _ => true
  | _ => false
  end.

Definition load_event (ev : event) : bool :=
  match ev with
  | EvDatasetInit _ => true
  | _ => false
  end.

(** Events of the preparation stage: the rebuild branch and nothing
    else. *)
Definition stage_event (ev : event) : bool :=
  (clear_folder_event ev || clearing_event ev || extraction_event ev)%bool.

Section Stage.

Variables X Obj : Type.
Variable C : collaborators X Obj.

(** The preparation stage of [_prepare_dataset]: everything before the
    call of [clear_mem]. *)
Definition preparation_stage (self : VOXNOT Obj)
  (delete_last_prepared_data : bool) (input_dir dataset_dir : string)
  : M X unit :=
  bind (os_listdir dataset_dir) (fun names =>
  bind (scan_prepared dataset_dir names) (fun exists_prepared_datasets =>
    if (delete_last_prepared_data || negb exists_prepared_datasets)%bool
    then rebuild_cache C self input_dir dataset_dir
    else ret tt)).

(** The extraction pipeline: build the tool, run it. *)
Definition run_tool (self : VOXNOT Obj) (input_dir dataset_dir : string)
  : M X unit :=
  bind (call (EvToolInit input_dir dataset_dir)
          (tool_init C input_dir dataset_dir (device self)))
    (fun tool => call EvToolPrepare (tool_prepare C tool)).

End Stage.

Definition copy_event (ev : event) : bool :=
  match ev with
  | EvCopy2 _ _ => true
  | _ => false
  end.

(** The paths handed to the audio renderer, in order. *)
Fixpoint vocode_paths (evs : list event) : list string :=
  match evs with
  | [] => []
  | EvVocode p :: rest => p :: vocode_paths rest
  | _ :: rest => vocode_paths rest
  end.

(** The events of converting every query with one model, and with every
    model. *)
Definition pair_events (isd : bool) (out_path model : string)
  (query_file_list : list string) : list event :=
  flat_map (fun q => [EvGetFeatures [q]; EvPredict;
                      EvVocode (out_file_path_of isd out_path q
                                  (basename model))])
    query_file_list.

Definition conversion_events (isd : bool) (out_path : string)
  (query_file_list model_file_list : list string) : list event :=
  flat_map (fun m => EvLoadWeights m
                     :: pair_events isd out_path m query_file_list)
    model_file_list.

(** The output paths of all pairs, model by model. *)
Definition pair_paths (isd : bool) (out_path : string)
  (query_file_list model_file_list : list string) : list string :=
  flat_map (fun m => map (fun q => out_file_path_of isd out_path q (basename m))
                       query_file_list)
    model_file_list.

Definition underscore : ascii := "_"%char.

(** A collaborator call that leaves [out_path] a directory if it was
    one, and not a directory if it was not. *)
Definition keeps_isdir {X A : Type} (out_path : string) (f : ext X A) : Prop :=
  forall fs x, fs_isdir (snd (fst (f fs x))) out_path = fs_isdir fs out_path.

Definition conversion_keeps_isdir {X Obj : Type} (C : collaborators X Obj)
  (self : VOXNOT Obj) (out_path : string) : Prop :=
  keeps_isdir out_path (helper_init C (device self))
  /\ (forall m, keeps_isdir out_path
                  (model_load_weights C (model_instance self) m))
  /\ (forall h ps, keeps_isdir out_path (helper_get_features C h ps))
  /\ (forall f, keeps_isdir out_path (model_predict C (model_instance self) f))
  /\ (forall h Y p, keeps_isdir out_path (helper_vocode C h Y p)).

(** Replace the node a list of names leads to. *)
Fixpoint set_at (n : node) (cp : list string) (new : node) {struct cp}
  : node :=
  match cp with
  | [] => new
  | c :: cs =>
      match n with
      | Dir es => Dir (update_assoc c (fun ch => set_at ch cs new) es)
      | File b => File b
      end
  end.

(** What a pass of [_clear_folder] leaves of an entry: a busy file stays,
    a directory stays when something in it stays, the rest is gone. *)
Fixpoint residue_node (v : node) : option node :=
  match v with
  | File busy => if busy then Some v else None
  | Dir es =>
      match (fix go (l : list (string * node)) : list (string * node) :=
               match l with
               | [] => []
               | (n, c) :: t =>
                   match residue_node c with
                   | Some c' => (n, c') :: go t
                   | None => go t
                   end
               end) es with
      | [] => None
      | l => Some (Dir l)
      end
  end.

Fixpoint residue (es : list (string * node)) : list (string * node) :=
  match es with
  | [] => []
  | (n, c) :: t =>
      match residue_node c with
      | Some c' => (n, c') :: residue t
      | None => residue t
      end
  end.

Definition cleared_line (file_path : string) : event :=
  EvPrint ("Clear file " ++ file_path ++ " from dataset directory").

(** What a pass of [_clear_folder] does to the entry at [p]: a file is
    removed, or the refusal printed; a directory is cleared, then
    removed, or the refusal printed when it is not empty. *)
Fixpoint entry_trace (p : string) (v : node) {struct v} : list event :=
  match v with
  | File busy =>
      [EvRemove p;
       if busy then EvPrintExn (PermissionError p) else cleared_line p]
  | Dir es =>
      ((fix go (l : list (string * node)) : list event :=
          match l with
          | [] => []
          | (n, c) :: t => (entry_trace (join p n) c ++ go t)%list
          end) es
       ++ [EvRmdir p;
           match residue_node v with
           | None => cleared_line p
           | Some _ => EvPrintExn (OSError "ENOTEMPTY" p)
           end])%list
  end.

Fixpoint clear_trace (dir : string) (es : list (string * node))
  : list event :=
  match es with
  | [] => []
  | (n, c) :: t => (entry_trace (join dir n) c ++ clear_trace dir t)%list
  end.


(** A path without [..]. *)
Definition plain_path (p : string) : bool :=
  forallb (fun c => negb (String.eqb c "..")) (split_sep p).


(** The number of records of a list of shards. *)
Definition total {Obj : Type} (ds : list (list Obj)) : Z :=
  Z.of_nat (length (concat ds)).

(** The file name of a converted pair. *)
Definition pair_name (query_base model_base : string) : string :=
  query_base ++ "_" ++ model_base ++ ".wav".

(** What a deletion leaves: proper names, and a tree no higher. *)
Definition shrunk {X : Type} (w w' : world X) : Prop :=
  names_ok (w_fs w') = true /\ hgt (w_fs w') <= hgt (w_fs w).

(** The line the rebuild branch prints first. *)
Definition preparing_line (input_dir : string) : event :=
  EvPrint ("Preparing datasets " ++ input_dir ++ "..").

(* ================================================================== *)
(** ** Facts about path strings *)
(* ================================================================== *)

Unset Implicit Arguments.

Example join_examples :
  join "tmp" "input_ds_X" = "tmp/input_ds_X"
  /\ join "tmp/" "a.pt" = "tmp/a.pt"
  /\ join "" "a.pt" = "a.pt"
  /\ join "out" "/abs" = "/abs".
Proof. repeat split. Qed.

Example splitext_examples :
  splitext "ds/a.pt" = ("ds/a", ".pt")
  /\ splitext "ds/.pt" = ("ds/.pt", "")
  /\ splitext "ds.pt/a" = ("ds.pt/a", "")
  /\ splitext "a.tar.pt" = ("a.tar", ".pt")
  /\ splitext "..pt" = ("..pt", "")
  /\ basename "q/x.wav" = "x.wav"
  /\ basename "q/" = "".
Proof. repeat split. Qed.

Example resolve_examples :
  stat sample_fs "tmp/input_ds_X/a.pt" = Some (File false)
  /\ stat sample_fs "/tmp//input_ds_X/./sub/../a.pt" = Some (File false)
  /\ stat sample_fs "c.wav/" = None
  /\ stat sample_fs "c.wav/.." = None
  /\ stat sample_fs "" = None
  /\ fs_listdir sample_fs "q" = inr ["a"; "a_b"]
  /\ fs_listdir sample_fs "c.wav" = inl (NotADirectoryError "c.wav")
  /\ fs_rmdir sample_fs "q" = inl (OSError "ENOTEMPTY" "q")
  /\ fs_remove sample_fs "q" = inl (IsADirectoryError "q").
Proof. repeat split. Qed.

Lemma split_sep_nonempty (s : string) : split_sep s <> [].
Proof.
  destruct s as [|c s]; simpl; [discriminate|].
  destruct (Ascii.eqb c sep); [discriminate|].
  destruct (split_sep s); discriminate.
Qed.

Lemma split_sep_app (a b : string) :
  split_sep (a ++ String sep b) = (split_sep a ++ split_sep b)%list.
Proof.
  induction a as [|c a IH]; simpl.
  - reflexivity.
  - rewrite IH. destruct (Ascii.eqb c sep); [reflexivity|].
    destruct (split_sep a) eqn:E; [now apply split_sep_nonempty in E|].
    reflexivity.
Qed.

Lemma split_sep_plain (n : string) :
  has_char sep n = false -> split_sep n = [n].
Proof.
  induction n as [|c n IH]; simpl; intros H; [reflexivity|].
  apply orb_false_elim in H as [Hc Hn].
  rewrite Hc, (IH Hn). reflexivity.
Qed.

Lemma endswith_sep_inv (a : string) :
  endswith_sep a = true -> exists a', a = a' ++ String sep "".
Proof.
  induction a as [|c a IH]; simpl; [discriminate|].
  destruct a as [|d a].
  - intros H. apply Ascii.eqb_eq in H. subst c. now exists "".
  - intros H. destruct (IH H) as [a' Ha']. exists (String c a').
    simpl. now rewrite <- Ha'.
Qed.

Lemma append_assoc (a b c : string) : (a ++ b) ++ c = a ++ (b ++ c).
Proof. induction a; simpl; congruence. Qed.

Lemma valid_name_inv (n : string) :
  valid_name n = true ->
  n <> "" /\ has_char sep n = false /\ n <> "." /\ n <> "..".
Proof.
  unfold valid_name. intros H.
  repeat (apply andb_prop in H as [H ?]).
  repeat match goal with
         | H : negb _ = true |- _ => apply negb_true_iff in H
         end.
  repeat split; try assumption; intros ->; discriminate.
Qed.

Lemma valid_name_not_abs (n : string) :
  valid_name n = true -> startswith_sep n = false.
Proof.
  intros H. apply valid_name_inv in H as (_ & H & _).
  destruct n; simpl in *; [reflexivity|].
  now apply orb_false_elim in H.
Qed.

Lemma step_valid (acc : list string) (n : string) :
  valid_name n = true -> step acc n = (acc ++ [n])%list.
Proof.
  intros H. apply valid_name_inv in H as (H1 & _ & H3 & H4).
  unfold step.
  apply String.eqb_neq in H1, H3, H4. now rewrite H1, H3, H4.
Qed.

(** The pieces of [join d n] are those of [d], without the empty piece a
    trailing separator leaves, followed by [n]. *)
Lemma split_sep_join (d n : string) :
  valid_name n = true ->
  exists pre,
    split_sep (join d n) = (pre ++ [n])%list
    /\ (split_sep d = pre \/ split_sep d = (pre ++ [""])%list
        \/ (d = "" /\ pre = [])).
Proof.
  intros Hn. pose proof (valid_name_not_abs n Hn) as Hs.
  pose proof (valid_name_inv n Hn) as (_ & Hp & _).
  unfold join. rewrite Hs.
  destruct (String.eqb d "") eqn:Ed; simpl.
  - apply String.eqb_eq in Ed. subst d. exists []. simpl.
    rewrite (split_sep_plain n Hp). auto.
  - destruct (endswith_sep d) eqn:Ee.
    + destruct (endswith_sep_inv d Ee) as [d' ->].
      exists (split_sep d'). rewrite append_assoc. simpl.
      rewrite !split_sep_app, (split_sep_plain n Hp). simpl. auto.
    + exists (split_sep d).
      rewrite split_sep_app, (split_sep_plain n Hp). auto.
Qed.

Lemma basename_join (d n : string) :
  valid_name n = true -> basename (join d n) = n.
Proof.
  intros Hn. unfold basename.
  destruct (split_sep_join d n Hn) as (pre & -> & _). apply last_last.
Qed.

Lemma ext_of_join (d n : string) :
  valid_name n = true -> ext_of (join d n) = ext_of n.
Proof.
  intros Hn. unfold ext_of. rewrite (basename_join d n Hn).
  pose proof (valid_name_inv n Hn) as (_ & Hp & _).
  unfold basename. now rewrite (split_sep_plain n Hp).
Qed.

Lemma lexical_join (d n : string) :
  valid_name n = true -> lexical (join d n) = (lexical d ++ [n])%list.
Proof.
  intros Hn. destruct (split_sep_join d n Hn) as (pre & E & H).
  unfold lexical. rewrite E, fold_left_app. simpl.
  rewrite (step_valid _ n Hn). f_equal.
  destruct H as [->|[->|[-> ->]]]; try reflexivity.
  now rewrite fold_left_app.
Qed.

(* ================================================================== *)
(** ** Facts about the filesystem tree *)
(* ================================================================== *)

Lemma get_app (root : node) (a b : list string) :
  get root (a ++ b) =
  match get root a with Some x => get x b | None => None end.
Proof.
  revert root. induction a as [|c a IH]; intros root; simpl; [reflexivity|].
  destruct root as [busy|es]; [reflexivity|].
  destruct (assoc c es); [apply IH|reflexivity].
Qed.

Lemma walk_app (root : node) (cs : list string) (c : string) :
  forall acc,
    walk root acc (cs ++ [c]) =
    match walk root acc cs with
    | inr acc' =>
        match get root acc' with
        | Some (Dir _) => inr (step acc' c)
        | Some (File _) => inl ENOTDIR
        | None => inl ENOENT
        end
    | inl e => inl e
    end.
Proof.
  induction cs as [|x cs IH]; intros acc; simpl.
  - destruct (get root acc) as [[|]|]; reflexivity.
  - destruct (get root acc) as [[|]|]; try reflexivity. apply IH.
Qed.

Lemma join_not_empty (d n : string) :
  valid_name n = true -> String.eqb (join d n) "" = false.
Proof.
  intros Hn. pose proof (valid_name_not_abs n Hn) as Hs.
  pose proof (valid_name_inv n Hn) as (Hne & _).
  unfold join. rewrite Hs.
  destruct d as [|c d]; simpl.
  - now apply String.eqb_neq.
  - destruct (match d with
              | EmptyString => Ascii.eqb c sep
              | String _ _ => endswith_sep d
              end); reflexivity.
Qed.

(** An entry of a directory is reached by joining its name to the path
    of the directory. *)
Lemma resolve_join (root : node) (d n : string) (cp : list string)
  (es : list (string * node)) :
  valid_name n = true ->
  resolve root d = inr cp ->
  get root cp = Some (Dir es) ->
  resolve root (join d n) = inr (cp ++ [n])%list.
Proof.
  intros Hn Hr Hg. unfold resolve in *.
  rewrite (join_not_empty d n Hn).
  destruct (String.eqb d "") eqn:Ed; [discriminate|].
  destruct (split_sep_join d n Hn) as (pre & -> & [E|[E|[E _]]]).
  - rewrite E in Hr. rewrite walk_app, Hr, Hg. now rewrite step_valid.
  - rewrite E, walk_app in Hr.
    destruct (walk root [] pre) as [e|acc'] eqn:Ew; [discriminate|].
    destruct (get root acc') as [[|es']|] eqn:Eg; try discriminate.
    simpl in Hr. injection Hr as <-.
    rewrite walk_app, Ew, Eg. now rewrite step_valid.
  - subst d. discriminate.
Qed.

Lemma stat_join (root : node) (d n : string) (cp : list string)
  (es : list (string * node)) :
  valid_name n = true ->
  resolve root d = inr cp ->
  get root cp = Some (Dir es) ->
  stat root (join d n) = assoc n es.
Proof.
  intros Hn Hr Hg. unfold stat.
  rewrite (resolve_join root d n cp es Hn Hr Hg), get_app, Hg. simpl.
  destruct (assoc n es); reflexivity.
Qed.

(** What resolves, resolves to the names the path spells. *)
Lemma walk_lexical (root : node) (cs : list string) :
  forall acc cp, walk root acc cs = inr cp -> cp = fold_left step cs acc.
Proof.
  induction cs as [|c cs IH]; intros acc cp; simpl.
  - now intros [= <-].
  - destruct (get root acc) as [[|]|]; try discriminate. apply IH.
Qed.

Lemma resolve_lexical (root : node) (p : string) (cp : list string) :
  resolve root p = inr cp -> cp = lexical p.
Proof.
  unfold resolve, lexical. destruct (String.eqb p ""); [discriminate|].
  apply walk_lexical.
Qed.

Lemma assoc_In (n : string) (es : list (string * node)) (v : node) :
  assoc n es = Some v -> In (n, v) es.
Proof.
  induction es as [|[k x] es IH]; simpl; [discriminate|].
  destruct (String.eqb n k) eqn:E.
  - apply String.eqb_eq in E. subst k. intros [= ->]. now left.
  - intros H. right. now apply IH.
Qed.

Lemma existsb_eqb_In (n : string) (l : list string) :
  existsb (String.eqb n) l = true <-> In n l.
Proof.
  rewrite existsb_exists. split.
  - intros (x & Hx & E). apply String.eqb_eq in E. now subst.
  - intros H. exists n. split; [assumption|apply String.eqb_refl].
Qed.

Lemma In_assoc_unique (n : string) (v : node) (es : list (string * node)) :
  nodupb (map fst es) = true -> In (n, v) es -> assoc n es = Some v.
Proof.
  induction es as [|[k x] es IH]; simpl; [contradiction|].
  intros H [E|Hin].
  - injection E as -> ->. now rewrite String.eqb_refl.
  - apply andb_prop in H as [Hk Hnd].
    destruct (String.eqb n k) eqn:E.
    + apply String.eqb_eq in E. subst k. exfalso.
      apply negb_true_iff in Hk.
      assert (Hx : existsb (String.eqb n) (map fst es) = true).
      { apply existsb_eqb_In. apply (in_map fst) in Hin. exact Hin. }
      congruence.
    + now apply IH.
Qed.

Lemma names_ok_entry (es : list (string * node)) (n : string) (v : node) :
  names_ok (Dir es) = true -> In (n, v) es ->
  valid_name n = true /\ names_ok v = true.
Proof.
  simpl. rewrite forallb_forall. intros H Hin.
  apply H in Hin. simpl in Hin. now apply andb_prop in Hin.
Qed.

Lemma names_unique_entry (es : list (string * node)) (n : string) (v : node) :
  names_unique (Dir es) = true -> In (n, v) es -> names_unique v = true.
Proof.
  simpl. intros H Hin. apply andb_prop in H as [_ H].
  rewrite forallb_forall in H. now apply H in Hin.
Qed.

Lemma names_ok_get (cp : list string) :
  forall root nd,
    names_ok root = true -> get root cp = Some nd -> names_ok nd = true.
Proof.
  induction cp as [|c cp IH]; intros root nd Hok; simpl.
  - now intros [= <-].
  - destruct root as [b|es]; [discriminate|].
    destruct (assoc c es) as [ch|] eqn:E; [|discriminate].
    apply IH. apply assoc_In in E.
    now destruct (names_ok_entry es c ch Hok E).
Qed.

Lemma names_unique_get (cp : list string) :
  forall root nd,
    names_unique root = true -> get root cp = Some nd ->
    names_unique nd = true.
Proof.
  induction cp as [|c cp IH]; intros root nd Hok; simpl.
  - now intros [= <-].
  - destruct root as [b|es]; [discriminate|].
    destruct (assoc c es) as [ch|] eqn:E; [|discriminate].
    apply IH. apply assoc_In in E.
    now apply (names_unique_entry es c ch Hok).
Qed.

Lemma wf_fs_inv (root : node) :
  wf_fs root = true -> names_ok root = true /\ names_unique root = true.
Proof.
  unfold wf_fs. intros H. apply andb_prop in H as [H H2].
  apply andb_prop in H as [_ H1]. now split.
Qed.

(** In a well-formed tree, the directory at a path answers [stat] for
    each of its entries with that entry. *)
Lemma stat_entry (root : node) (d : string) (es : list (string * node))
  (n : string) (v : node) :
  wf_fs root = true ->
  stat root d = Some (Dir es) ->
  In (n, v) es ->
  valid_name n = true /\ stat root (join d n) = Some v.
Proof.
  intros Hwf Hs Hin. apply wf_fs_inv in Hwf as [Hok Hun].
  unfold stat in Hs. destruct (resolve root d) as [e|cp] eqn:Er; [discriminate|].
  pose proof (names_ok_get cp root _ Hok Hs) as Hok'.
  pose proof (names_unique_get cp root _ Hun Hs) as Hun'.
  destruct (names_ok_entry es n v Hok' Hin) as [Hn _].
  split; [assumption|].
  rewrite (stat_join root d n cp es Hn Er Hs).
  apply In_assoc_unique; [|assumption].
  simpl in Hun'. now apply andb_prop in Hun' as [? _].
Qed.

(* ================================================================== *)
(** ** Path resolution: [_get_files] *)
(* ================================================================== *)

Section GetFiles.

Variables X Obj : Type.
Variable self : VOXNOT Obj.

Lemma stat_resolve (root : node) (p : string) (nd : node) :
  stat root p = Some nd ->
  exists cp, resolve root p = inr cp /\ get root cp = Some nd.
Proof.
  unfold stat. destruct (resolve root p) as [e|cp]; [discriminate|].
  intros H. now exists cp.
Qed.

Lemma listdir_dir (root : node) (p : string) (es : list (string * node)) :
  stat root p = Some (Dir es) -> fs_listdir root p = inr (map fst es).
Proof.
  intros H. destruct (stat_resolve root p _ H) as (cp & Hr & Hg).
  unfold fs_listdir. now rewrite Hr, Hg.
Qed.

Lemma collect_files_spec (w : world X) (path : string)
  (l : list (string * node)) :
  (forall n v, In (n, v) l -> stat (w_fs w) (join path n) = Some v) ->
  forall file_list,
    collect_files (X:=X) path (map fst l) file_list w =
    (Ok (file_list ++ map (join path) (regular_names l))%list, w).
Proof.
  induction l as [|[n v] l IH]; intros Hl file_list; simpl.
  - unfold ret. unfold regular_names. simpl. now rewrite app_nil_r.
  - unfold bind, os_path_isfile, query, fs_isfile.
    rewrite (Hl n v (or_introl eq_refl)).
    unfold regular_names. simpl.
    destruct v as [busy|sub]; simpl.
    + rewrite IH by (intros; apply Hl; now right).
      unfold regular_names. now rewrite <- app_assoc.
    + apply IH. intros; apply Hl; now right.
Qed.

(** C6. [_get_files] on a directory returns the paths of exactly the
    regular files directly inside it, in listing order and without
    entering sub-directories; on a regular file it returns that one
    path.  The world is left as it was. *)
Theorem get_files_resolves (w : world X) (p : string) :
  wf_fs (w_fs w) = true ->
  (forall es, stat (w_fs w) p = Some (Dir es) ->
     _get_files self p w = (Ok (map (join p) (regular_names es)), w))
  /\ (forall busy, stat (w_fs w) p = Some (File busy) ->
        _get_files self p w = (Ok [p], w)).
Proof.
  intros Hwf. split.
  - intros es Hs. unfold _get_files, bind, os_path_isdir, query, fs_isdir.
    rewrite Hs. unfold os_listdir. rewrite (listdir_dir _ _ _ Hs).
    rewrite collect_files_spec; [reflexivity|].
    intros n v Hin. now destruct (stat_entry _ _ _ _ _ Hwf Hs Hin).
  - intros busy Hs. unfold _get_files, bind, os_path_isdir, query, fs_isdir.
    now rewrite Hs.
Qed.

(** A path that is not a directory is returned as it is. *)
Lemma get_files_not_dir (w : world X) (p : string) :
  fs_isdir (w_fs w) p = false -> _get_files self p w = (Ok [p], w).
Proof.
  intros H. unfold _get_files, bind, os_path_isdir, query. now rewrite H.
Qed.

End GetFiles.

(** The regular files of [q] in the sample tree, a single file, and a
    path that does not exist. *)
Lemma get_files_resolves_witness :
  wf_fs sample_fs = true
  /\ _get_files toy_self "q" (start sample_fs) =
    (Ok ["q/a"; "q/a_b"], start sample_fs)
  /\ _get_files toy_self "c.wav" (start sample_fs) =
    (Ok ["c.wav"], start sample_fs).
Proof.
  destruct (get_files_resolves unit nat toy_self (start sample_fs) "q")
    as [Hd _]; [reflexivity|].
  destruct (get_files_resolves unit nat toy_self (start sample_fs) "c.wav")
    as [_ Hf]; [reflexivity|].
  split; [reflexivity|split].
  - exact (Hd _ eq_refl).
  - exact (Hf false eq_refl).
Defined.

(* ================================================================== *)
(** ** Traces and fuel: rules for the monad *)
(* ================================================================== *)

Section Rules.

Variable X : Type.

Lemma new_events_app (w w' : world X) (evs : list event) :
  w_trace w' = (w_trace w ++ evs)%list -> new_events w w' = evs.
Proof.
  intros H. unfold new_events. rewrite H, skipn_app, skipn_all, Nat.sub_diag.
  reflexivity.
Qed.

Lemma emits_weaken {A : Type} (P Q : event -> Prop) (m : M X A) :
  (forall ev, P ev -> Q ev) -> emits P m -> emits Q m.
Proof.
  intros HPQ Hm w r w' E. destruct (Hm w r w' E) as (evs & Ht & Hf).
  exists evs. split; [assumption|]. eapply Forall_impl; eauto.
Qed.

Lemma emits_ret {A : Type} (P : event -> Prop) (a : A) : emits P (ret (X:=X) a).
Proof.
  intros w r w' [= <- <-]. exists []. now rewrite app_nil_r.
Qed.

Lemma emits_pure {A : Type} (P : event -> Prop) (f : world X -> outcome A) :
  emits P (fun w => (f w, w)).
Proof.
  intros w r w' [= <- <-]. exists []. now rewrite app_nil_r.
Qed.

Lemma emits_bind {A B : Type} (P : event -> Prop) (m : M X A) (k : A -> M X B) :
  emits P m -> (forall a, emits P (k a)) -> emits P (bind m k).
Proof.
  intros Hm Hk w r w' E. unfold bind in E.
  destruct (m w) as [[a|e|] w1] eqn:Em;
    destruct (Hm _ _ _ Em) as (evs1 & Ht1 & Hf1).
  - destruct (Hk a _ _ _ E) as (evs2 & Ht2 & Hf2).
    exists (evs1 ++ evs2)%list. split.
    + now rewrite Ht2, Ht1, app_assoc.
    + now apply Forall_app.
  - injection E as <- <-. now exists evs1.
  - injection E as <- <-. now exists evs1.
Qed.

Lemma emits_try {A : Type} (P : event -> Prop) (m : M X A)
  (h : exn -> M X A) :
  emits P m -> (forall e, emits P (h e)) -> emits P (try_except m h).
Proof.
  intros Hm Hh w r w' E. unfold try_except in E.
  destruct (m w) as [[a|e|] w1] eqn:Em;
    destruct (Hm _ _ _ Em) as (evs1 & Ht1 & Hf1).
  - injection E as <- <-. now exists evs1.
  - destruct (Hh e _ _ _ E) as (evs2 & Ht2 & Hf2).
    exists (evs1 ++ evs2)%list. split.
    + now rewrite Ht2, Ht1, app_assoc.
    + now apply Forall_app.
  - injection E as <- <-. now exists evs1.
Qed.

Lemma emits_log {A : Type} (P : event -> Prop) (ev : event)
  (f : world X -> outcome A) :
  P ev -> emits P (fun w => (f w, log ev w)).
Proof.
  intros HP w r w' [= <- <-]. exists [ev]. split; [reflexivity|].
  now constructor.
Qed.

Lemma emits_call {A : Type} (P : event -> Prop) (ev : event) (f : ext X A) :
  P ev -> emits P (call ev f).
Proof.
  intros HP w r w' E. unfold call in E.
  destruct (f (w_fs w) (w_ext w)) as [[r0 fs'] x'].
  injection E as <- <-. exists [ev]. split; [reflexivity|]. now constructor.
Qed.

Lemma emits_update (P : event -> Prop) (ev : event) (f : node -> exn + node) :
  P ev -> emits P (update (X:=X) ev f).
Proof.
  intros HP w r w' E. unfold update in E.
  destruct (f (w_fs w)); injection E as <- <-;
    (exists [ev]; split; [reflexivity|now constructor]).
Qed.

Lemma emits_query {A : Type} (P : event -> Prop) (f : node -> A) :
  emits P (query (X:=X) f).
Proof. apply (emits_pure P (fun w => Ok (f (w_fs w)))). Qed.

Lemma emits_listdir (P : event -> Prop) (p : string) :
  emits P (os_listdir (X:=X) p).
Proof.
  intros w r w' E. unfold os_listdir in E.
  destruct (fs_listdir (w_fs w) p); injection E as <- <-;
    (exists []; now rewrite app_nil_r).
Qed.

Lemma emits_for_each {A : Type} (P : event -> Prop) (xs : list A)
  (body : A -> M X unit) :
  (forall x, emits P (body x)) -> emits P (for_each xs body).
Proof.
  intros Hb. induction xs as [|x xs IH]; simpl.
  - apply emits_ret.
  - apply emits_bind; [apply Hb|intros _; apply IH].
Qed.

Lemma approx_refl {A : Type} (m : M X A) : approx m m.
Proof. now intros w r w' E _. Qed.

Lemma approx_bind {A B : Type} (m1 m2 : M X A) (k1 k2 : A -> M X B) :
  approx m1 m2 -> (forall a, approx (k1 a) (k2 a)) ->
  approx (bind m1 k1) (bind m2 k2).
Proof.
  intros Hm Hk w r w' E Hr. unfold bind in *.
  destruct (m1 w) as [[a|e|] w1] eqn:Em.
  - rewrite (Hm _ _ _ Em) by discriminate. now apply Hk.
  - rewrite (Hm _ _ _ Em) by discriminate. assumption.
  - injection E as <- <-. now contradiction Hr.
Qed.

Lemma approx_try {A : Type} (m1 m2 : M X A) (h : exn -> M X A) :
  approx m1 m2 -> approx (try_except m1 h) (try_except m2 h).
Proof.
  intros Hm w r w' E Hr. unfold try_except in *.
  destruct (m1 w) as [[a|e|] w1] eqn:Em.
  - rewrite (Hm _ _ _ Em) by discriminate. assumption.
  - rewrite (Hm _ _ _ Em) by discriminate. assumption.
  - injection E as <- <-. now contradiction Hr.
Qed.

Lemma approx_for_each {A : Type} (xs : list A) (b1 b2 : A -> M X unit) :
  (forall x, approx (b1 x) (b2 x)) ->
  approx (for_each xs b1) (for_each xs b2).
Proof.
  intros Hb. induction xs as [|x xs IH]; simpl.
  - apply approx_refl.
  - apply approx_bind; [apply Hb|intros _; apply IH].
Qed.

Lemma clear_folder_fuel_unfold (fuel : nat) (dir : string) :
  clear_folder_fuel (X:=X) (S fuel) dir =
  bind (os_path_exists dir) (fun b : bool =>
    if b then
      bind (os_listdir dir) (fun names =>
        for_each names (clear_entry (clear_folder_fuel fuel) dir))
    else ret tt).
Proof. reflexivity. Qed.

Lemma approx_clear_entry (r1 r2 : string -> M X unit) (dir n : string) :
  (forall p, approx (r1 p) (r2 p)) ->
  approx (clear_entry r1 dir n) (clear_entry r2 dir n).
Proof.
  intros Hr. unfold clear_entry. cbv zeta.
  apply approx_try. apply approx_bind; [apply approx_refl|].
  intros [|]; (apply approx_bind; [|intros; apply approx_refl]).
  - apply approx_refl.
  - apply approx_bind; [apply Hr|intros; apply approx_refl].
Qed.

(** More fuel does not change a pass of [_clear_folder] that had
    enough. *)
Lemma clear_folder_fuel_S (fuel : nat) :
  forall dir, approx (clear_folder_fuel (X:=X) fuel dir)
                     (clear_folder_fuel (S fuel) dir).
Proof.
  induction fuel as [|fuel IH]; intros dir.
  - intros w r w' E Hr. rewrite clear_folder_fuel_unfold.
    simpl in E. unfold bind, os_path_exists, query in *.
    destruct (fs_exists (w_fs w) dir).
    + injection E as <- <-. now contradiction Hr.
    + exact E.
  - rewrite (clear_folder_fuel_unfold (S fuel)), (clear_folder_fuel_unfold fuel).
    apply approx_bind; [apply approx_refl|]. intros [|]; [|apply approx_refl].
    apply approx_bind; [apply approx_refl|]. intros names.
    apply approx_for_each. intros n. now apply approx_clear_entry.
Qed.

Lemma clear_folder_fuel_le (fuel fuel' : nat) (dir : string) :
  fuel <= fuel' ->
  approx (clear_folder_fuel (X:=X) fuel dir) (clear_folder_fuel fuel' dir).
Proof.
  induction 1 as [|k Hle IH]; [apply approx_refl|].
  intros w r w' E Hr. apply clear_folder_fuel_S; [|assumption].
  now apply IH.
Qed.

Lemma emits_clear_entry (recur : string -> M X unit) (dir n : string) :
  (forall p, emits (fun ev => clear_folder_event ev = true) (recur p)) ->
  emits (fun ev => clear_folder_event ev = true) (clear_entry recur dir n).
Proof.
  intros Hr. unfold clear_entry. cbv zeta. apply emits_try.
  - apply emits_bind; [apply emits_query|]. intros [|].
    + apply emits_bind; [now apply emits_update|].
      intros _. now apply (emits_log _ _ (fun _ => Ok tt)).
    + apply emits_bind.
      * apply emits_bind; [apply Hr|]. intros _. now apply emits_update.
      * intros _. now apply (emits_log _ _ (fun _ => Ok tt)).
  - intros e. now apply (emits_log _ _ (fun _ => Ok tt)).
Qed.

Lemma emits_clear_folder_fuel (fuel : nat) :
  forall dir,
    emits (fun ev => clear_folder_event ev = true)
      (clear_folder_fuel (X:=X) fuel dir).
Proof.
  induction fuel as [|fuel IH]; intros dir.
  - simpl. apply emits_bind; [apply emits_query|]. intros [|].
    + apply (emits_pure _ (fun _ => OutOfFuel)).
    + apply emits_ret.
  - rewrite clear_folder_fuel_unfold.
    apply emits_bind; [apply emits_query|]. intros [|]; [|apply emits_ret].
    apply emits_bind; [apply emits_listdir|]. intros names.
    apply emits_for_each. intros n. now apply emits_clear_entry.
Qed.

End Rules.

(* ================================================================== *)
(** ** Clearing a folder: the pass returns *)
(* ================================================================== *)

Lemma list_max_In (x : nat) (l : list nat) : In x l -> x <= list_max l.
Proof.
  induction l as [|y l IH]; simpl; [contradiction|].
  intros [->|H]; [lia|]. specialize (IH H). lia.
Qed.

Lemma get_hgt (cp : list string) :
  forall root nd, get root cp = Some nd -> length cp + hgt nd <= hgt root.
Proof.
  induction cp as [|c cp IH]; intros root nd; simpl.
  - intros [= <-]. lia.
  - destruct root as [b|es]; [discriminate|].
    destruct (assoc c es) as [ch|] eqn:E; [|discriminate].
    intros H. apply IH in H. apply assoc_In in E.
    assert (hgt ch <= list_max (map (fun e => hgt (snd e)) es)).
    { apply list_max_In. now apply (in_map (fun e => hgt (snd e))) in E. }
    simpl. lia.
Qed.

Lemma hgt_remove_assoc (c : string) (es : list (string * node)) :
  list_max (map (fun e => hgt (snd e)) (remove_assoc c es))
  <= list_max (map (fun e => hgt (snd e)) es).
Proof.
  induction es as [|[k v] es IH]; simpl; [lia|].
  destruct (String.eqb c k); simpl; lia.
Qed.

Lemma hgt_update_assoc (c : string) (f : node -> node)
  (es : list (string * node)) :
  (forall v, hgt (f v) <= hgt v) ->
  list_max (map (fun e => hgt (snd e)) (update_assoc c f es))
  <= list_max (map (fun e => hgt (snd e)) es).
Proof.
  intros Hf. induction es as [|[k v] es IH]; simpl; [lia|].
  destruct (String.eqb c k); simpl; [specialize (Hf v)|]; lia.
Qed.

Lemma delete_at_deep (es : list (string * node)) (c c' : string)
  (cp : list string) :
  delete_at (Dir es) (c :: c' :: cp) =
  Dir (update_assoc c (fun ch => delete_at ch (c' :: cp)) es).
Proof. reflexivity. Qed.

Lemma hgt_delete_at (cp : list string) :
  forall root, hgt (delete_at root cp) <= hgt root.
Proof.
  induction cp as [|c cp IH]; intros root; [simpl; lia|].
  destruct root as [b|es]; [simpl; lia|].
  destruct cp as [|c' cp].
  - simpl. pose proof (hgt_remove_assoc c es). lia.
  - rewrite delete_at_deep. cbn [hgt].
    pose proof (hgt_update_assoc c (fun ch => delete_at ch (c' :: cp)) es IH).
    lia.
Qed.

Lemma names_ok_remove_assoc (c : string) (es : list (string * node)) :
  names_ok (Dir es) = true -> names_ok (Dir (remove_assoc c es)) = true.
Proof.
  simpl. induction es as [|[k v] es IH]; simpl; [reflexivity|].
  intros H. apply andb_prop in H as [H1 H2].
  destruct (String.eqb c k); simpl; [assumption|].
  now rewrite H1, IH.
Qed.

Lemma names_ok_update_assoc (c : string) (f : node -> node)
  (es : list (string * node)) :
  (forall v, names_ok v = true -> names_ok (f v) = true) ->
  names_ok (Dir es) = true -> names_ok (Dir (update_assoc c f es)) = true.
Proof.
  intros Hf. simpl. induction es as [|[k v] es IH]; simpl; [reflexivity|].
  intros H. apply andb_prop in H as [H1 H2].
  apply andb_prop in H1 as [Hk Hv].
  destruct (String.eqb c k); simpl.
  - now rewrite Hk, (Hf v Hv), H2.
  - now rewrite Hk, Hv, IH.
Qed.

Lemma names_ok_delete_at (cp : list string) :
  forall root, names_ok root = true -> names_ok (delete_at root cp) = true.
Proof.
  induction cp as [|c cp IH]; intros root H; [assumption|].
  destruct root as [b|es]; [reflexivity|].
  destruct cp as [|c' cp].
  - now apply names_ok_remove_assoc.
  - rewrite delete_at_deep. now apply names_ok_update_assoc.
Qed.

Section ClearReturns.

Variable X : Type.

Lemma os_remove_shrunk (p : string) (w : world X) :
  names_ok (w_fs w) = true ->
  exists r w', os_remove p w = (r, w') /\ r <> OutOfFuel /\ shrunk w w'.
Proof.
  intros Hok. unfold os_remove, update, fs_remove, shrunk.
  destruct (resolve (w_fs w) p) as [e|cp].
  { do 2 eexists. split; [reflexivity|]. unfold log; cbn [w_fs]. split; [discriminate|auto]. }
  destruct (get (w_fs w) cp) as [[[|]|es]|];
    (do 2 eexists; split; [reflexivity|]; unfold log; cbn [w_fs]; split; [discriminate|]);
    auto.
  split; [now apply names_ok_delete_at|apply hgt_delete_at].
Qed.

Lemma os_rmdir_shrunk (p : string) (w : world X) :
  names_ok (w_fs w) = true ->
  exists r w', os_rmdir p w = (r, w') /\ r <> OutOfFuel /\ shrunk w w'.
Proof.
  intros Hok. unfold os_rmdir, update, fs_rmdir, shrunk.
  destruct (resolve (w_fs w) p) as [e|cp].
  { do 2 eexists. split; [reflexivity|]. unfold log; cbn [w_fs]. split; [discriminate|auto]. }
  destruct (get (w_fs w) cp) as [[b|[|e0 es]]|];
    try (do 2 eexists; split; [reflexivity|]; unfold log; cbn [w_fs]; split; [discriminate|];
         now auto).
  destruct (String.eqb (basename p) "." || String.eqb (basename p) "..")%bool;
    [|destruct cp as [|c cp]];
    (do 2 eexists; split; [reflexivity|]; unfold log; cbn [w_fs]; split; [discriminate|]);
    auto.
  split; [now apply names_ok_delete_at|apply hgt_delete_at].
Qed.

Lemma listdir_names_valid (root : node) (p : string) (names : list string) :
  names_ok root = true -> fs_listdir root p = inr names ->
  Forall (fun n => valid_name n = true) names.
Proof.
  intros Hok. unfold fs_listdir.
  destruct (resolve root p) as [e|cp]; [discriminate|].
  destruct (get root cp) as [[b|es]|] eqn:Eg; try discriminate.
  intros [= <-]. pose proof (names_ok_get cp root _ Hok Eg) as H.
  simpl in H. rewrite forallb_forall in H.
  apply Forall_forall. intros n Hn. apply in_map_iff in Hn as (e & <- & He).
  apply H in He. now apply andb_prop in He.
Qed.

Lemma exists_depth (root : node) (p : string) :
  fs_exists root p = true -> length (lexical p) <= hgt root.
Proof.
  unfold fs_exists, stat.
  destruct (resolve root p) as [e|cp] eqn:Er; [discriminate|].
  destruct (get root cp) as [nd|] eqn:Eg; [|discriminate]. intros _.
  rewrite <- (resolve_lexical root p cp Er).
  pose proof (get_hgt cp root nd Eg). lia.
Qed.

Lemma listdir_not_file (root : node) (p : string) :
  fs_exists root p = true -> fs_isfile root p = false ->
  exists names, fs_listdir root p = inr names.
Proof.
  unfold fs_exists, fs_isfile, fs_listdir, stat.
  destruct (resolve root p) as [e|cp]; [discriminate|].
  destruct (get root cp) as [[b|es]|]; try discriminate.
  intros _ _. now eexists.
Qed.

(** One entry of the listing: whatever happens to it, the loop goes
    on. *)
Lemma clear_entry_returns (recur : string -> M X unit) (dir n : string)
  (w : world X) :
  names_ok (w_fs w) = true ->
  (forall w1, w1 = w -> fs_isfile (w_fs w1) (join dir n) = false ->
     exists w2, recur (join dir n) w1 = (Ok tt, w2) /\ shrunk w1 w2) ->
  exists w', clear_entry recur dir n w = (Ok tt, w') /\ shrunk w w'.
Proof.
  intros Hok Hrec. unfold clear_entry. cbv zeta.
  unfold try_except, bind at 1, os_path_isfile, query.
  destruct (fs_isfile (w_fs w) (join dir n)) eqn:Ef.
  - destruct (os_remove_shrunk (join dir n) w Hok) as (r & w1 & E & Hr & Hs).
    unfold bind. rewrite E. destruct r as [[]|e|]; [| |now contradiction Hr].
    + eexists. split; [reflexivity|]. exact Hs.
    + eexists. split; [reflexivity|]. exact Hs.
  - destruct (Hrec w eq_refl Ef) as (w2 & E2 & [Hok2 Hh2]).
    unfold bind. rewrite E2.
    destruct (os_rmdir_shrunk (join dir n) w2 Hok2)
      as (r & w3 & E3 & Hr & [Hok3 Hh3]).
    rewrite E3. destruct r as [[]|e|]; [| |now contradiction Hr];
      (eexists; split; [reflexivity|]; split; simpl; [assumption|lia]).
Qed.

(** With fuel for the height of the tree below [dir], a pass over a
    path that is not a regular file returns normally. *)
Lemma clear_folder_fuel_returns (fuel : nat) :
  forall dir (w : world X),
    names_ok (w_fs w) = true ->
    hgt (w_fs w) < fuel + length (lexical dir) ->
    fs_isfile (w_fs w) dir = false ->
    exists w', clear_folder_fuel fuel dir w = (Ok tt, w') /\ shrunk w w'.
Proof.
  induction fuel as [|fuel IH]; intros dir w Hok Hh Hf.
  - simpl. unfold bind, os_path_exists, query.
    destruct (fs_exists (w_fs w) dir) eqn:Ee.
    + apply exists_depth in Ee. lia.
    + eexists. split; [reflexivity|]. split; [assumption|lia].
  - rewrite clear_folder_fuel_unfold. unfold bind at 1, os_path_exists, query.
    destruct (fs_exists (w_fs w) dir) eqn:Ee;
      [|eexists; split; [reflexivity|]; split; [assumption|lia]].
    destruct (listdir_not_file _ _ Ee Hf) as (names & El).
    unfold bind, os_listdir. rewrite El.
    pose proof (listdir_names_valid _ _ _ Hok El) as Hv.
    clear El Ee Hf.
    assert (Hloop : forall (w0 : world X),
               names_ok (w_fs w0) = true -> hgt (w_fs w0) <= hgt (w_fs w) ->
               exists w',
                 for_each names (clear_entry (clear_folder_fuel fuel) dir) w0
                 = (Ok tt, w') /\ shrunk w0 w').
    { induction Hv as [|n names Hn Hv IHn]; intros w0 Hok0 Hh0; simpl.
      - eexists. split; [reflexivity|]. split; [assumption|lia].
      - destruct (clear_entry_returns (clear_folder_fuel fuel) dir n w0 Hok0)
          as (w1 & E1 & [Hok1 Hh1]).
        { intros w1 -> Hnf. apply IH; [assumption| |assumption].
          rewrite (lexical_join dir n Hn), length_app. simpl. lia. }
        unfold bind. rewrite E1.
        destruct (IHn w1 Hok1) as (w' & E' & [Hok' Hh']); [lia|].
        exists w'. split; [assumption|]. split; [assumption|lia]. }
    apply Hloop; [assumption|lia].
Qed.

(** [_clear_folder] on a path that is not a regular file returns
    normally, and any larger amount of fuel gives the same pass. *)
Lemma clear_folder_returns (dir : string) (w : world X) :
  names_ok (w_fs w) = true ->
  fs_isfile (w_fs w) dir = false ->
  exists w',
    _clear_folder dir w = (Ok tt, w')
    /\ shrunk w w'
    /\ forall fuel, hgt (w_fs w) < fuel ->
         clear_folder_fuel fuel dir w = (Ok tt, w').
Proof.
  intros Hok Hf. unfold _clear_folder.
  destruct (clear_folder_fuel_returns (S (hgt (w_fs w))) dir w Hok)
    as (w' & E & Hs); [lia|assumption|].
  exists w'. split; [assumption|]. split; [assumption|].
  intros fuel Hfuel.
  apply (clear_folder_fuel_le X (S (hgt (w_fs w))) fuel dir);
    [lia|assumption|discriminate].
Qed.

End ClearReturns.

(* ================================================================== *)
(** ** Dataset preparation: [_prepare_dataset] *)
(* ================================================================== *)

Section Prepare.

Variables X Obj : Type.
Variable C : collaborators X Obj.
Variable self : VOXNOT Obj.

Lemma bind_assoc {A B D : Type} (m : M X A) (f : A -> M X B)
  (g : B -> M X D) (w : world X) :
  bind (bind m f) g w = bind m (fun a => bind (f a) g) w.
Proof.
  unfold bind. destruct (m w) as [[a|e|] w1]; reflexivity.
Qed.

(** A call followed by anything: its event comes first. *)
Lemma call_first_event {A B : Type} (ev : event) (f : ext X A)
  (k : A -> M X B) (w1 : world X) (r : outcome B) (w' : world X) :
  (forall a, emits (fun _ => True) (k a)) ->
  bind (call ev f) k w1 = (r, w') ->
  exists evs, w_trace w' = (w_trace w1 ++ ev :: evs)%list.
Proof.
  intros Hk E. unfold bind, call in E.
  destruct (f (w_fs w1) (w_ext w1)) as [[[e|a] fs2] x2].
  - injection E as <- <-. now exists [].
  - destruct (Hk a _ _ _ E) as (evs & Ht & _). exists evs.
    rewrite Ht. cbn [w_trace]. now rewrite <- app_assoc.
Qed.

Lemma is_shard_entry (w : world X) (d n : string) (v : node) :
  valid_name n = true ->
  stat (w_fs w) (join d n) = Some v ->
  is_shard (X:=X) d n w = (Ok (shard_entry (n, v)), w).
Proof.
  intros Hn Hs. unfold is_shard, bind, os_path_isfile, query, fs_isfile, ret.
  rewrite Hs. unfold splitext. cbn [snd fst]. rewrite (ext_of_join d n Hn).
  unfold shard_entry. cbn [snd fst]. now destruct v.
Qed.

Lemma scan_prepared_spec (w : world X) (d : string)
  (l : list (string * node)) :
  (forall n v, In (n, v) l ->
     valid_name n = true /\ stat (w_fs w) (join d n) = Some v) ->
  scan_prepared (X:=X) d (map fst l) w = (Ok (has_shard l), w).
Proof.
  induction l as [|[n v] l IH]; intros Hl; simpl; [reflexivity|].
  destruct (Hl n v (or_introl eq_refl)) as [Hn Hs].
  unfold bind. rewrite (is_shard_entry w d n v Hn Hs).
  destruct (shard_entry (n, v)); [reflexivity|].
  apply IH. intros; apply Hl; now right.
Qed.

Lemma emits_clear_mem :
  emits (fun ev => reclaim_event ev = true) (clear_mem C).
Proof.
  unfold clear_mem. repeat (apply emits_bind; [|intros _]);
    now apply emits_call.
Qed.

Lemma emits_is_shard (P : event -> Prop) (d n : string) :
  emits P (is_shard (X:=X) d n).
Proof.
  unfold is_shard. apply emits_bind; [apply emits_query|].
  intros b. apply emits_ret.
Qed.

Lemma emits_VOXNOTDataset (p : string) (dev : Obj) :
  emits (fun ev => load_event ev = true) (VOXNOTDataset C p dev).
Proof.
  intros w r w' E. unfold VOXNOTDataset in E.
  destruct (dataset_init C p dev (w_fs w) (w_ext w)) as [r0 x'].
  injection E as <- <-. exists [EvDatasetInit p]. split; [reflexivity|].
  now constructor.
Qed.

Lemma emits_load_shards (d : string) (names : list string) :
  forall acc,
    emits (fun ev => load_event ev = true) (load_shards C self d names acc).
Proof.
  induction names as [|n names IH]; intros acc; simpl.
  - apply emits_ret.
  - apply emits_bind; [apply emits_is_shard|]. intros [|].
    + apply emits_bind; [apply emits_VOXNOTDataset|]. intros ds. apply IH.
    + apply IH.
Qed.

Lemma emits_compose_shards (d : string) :
  emits (fun ev => load_event ev = true) (compose_shards C self d).
Proof.
  unfold compose_shards. apply emits_bind; [apply emits_listdir|].
  intros names. apply emits_bind; [apply emits_load_shards|].
  intros ds. destruct (ConcatDataset_init ds);
    [apply (emits_pure X _ (fun _ => Raise e))
    |apply (emits_pure X _ (fun _ => Ok c))].
Qed.

Lemma emits_clear_folder (d : string) :
  emits (fun ev => clear_folder_event ev = true) (_clear_folder (X:=X) d).
Proof.
  intros w r w' E. unfold _clear_folder in E.
  exact (emits_clear_folder_fuel X _ d w r w' E).
Qed.

Lemma emits_run_tool (input_dir d : string) :
  emits (fun ev => extraction_event ev = true) (run_tool C self input_dir d).
Proof.
  unfold run_tool. apply emits_bind; [now apply emits_call|].
  intros tool. now apply emits_call.
Qed.

Lemma emits_rebuild_cache (input_dir d : string) :
  emits (fun ev => stage_event ev = true) (rebuild_cache C self input_dir d).
Proof.
  unfold rebuild_cache.
  apply emits_bind; [now apply (emits_log X _ _ (fun _ => Ok tt))|]. intros _.
  apply emits_bind; [apply emits_query|]. intros isd.
  apply emits_bind.
  - destruct isd.
    + apply (emits_weaken X (fun ev => clear_folder_event ev = true));
        [|apply emits_clear_folder].
      intros ev H. unfold stage_event. now rewrite H.
    + now apply emits_update.
  - intros _. apply emits_bind; [now apply emits_call|].
    intros tool. now apply emits_call.
Qed.

Lemma emits_preparation_stage (delete : bool) (input_dir d : string) :
  emits (fun ev => stage_event ev = true)
    (preparation_stage C self delete input_dir d).
Proof.
  unfold preparation_stage. apply emits_bind; [apply emits_listdir|].
  intros names. apply emits_bind.
  - induction names as [|n names IH]; simpl; [apply emits_ret|].
    apply emits_bind; [apply emits_is_shard|].
    intros [|]; [apply emits_ret|apply IH].
  - intros b. destruct (delete || negb b)%bool;
      [apply emits_rebuild_cache|apply emits_ret].
Qed.

(** [_prepare_dataset] is the preparation stage, then [clear_mem], then
    the composition of the shards found. *)
Lemma prepare_dataset_stages (delete : bool) (input_dir d : string)
  (w : world X) :
  _prepare_dataset C self delete input_dir d w =
  bind (preparation_stage C self delete input_dir d)
    (fun _ => bind (clear_mem C) (fun _ => compose_shards C self d)) w.
Proof.
  unfold _prepare_dataset, preparation_stage, bind at 1 5 6.
  destruct (os_listdir d w) as [[names|e|] w1]; try reflexivity.
  unfold bind at 1 4 5.
  destruct (scan_prepared d names w1) as [[b|e|] w2]; reflexivity.
Qed.

Lemma Forall_existsb_false (P : event -> Prop) (Q : event -> bool)
  (evs : list event) :
  (forall ev, P ev -> Q ev = false) -> Forall P evs -> existsb Q evs = false.
Proof.
  intros HPQ H. induction H as [|ev evs Hev _ IH]; simpl; [reflexivity|].
  now rewrite (HPQ ev Hev), IH.
Qed.


Lemma listing_of_dir (w : world X) (d : string) (es : list (string * node)) :
  wf_fs (w_fs w) = true ->
  stat (w_fs w) d = Some (Dir es) ->
  os_listdir d w = (Ok (map fst es), w)
  /\ scan_prepared d (map fst es) w = (Ok (has_shard es), w).
Proof.
  intros Hwf Hs. split.
  - unfold os_listdir. now rewrite (listdir_dir _ _ _ Hs).
  - apply scan_prepared_spec. intros n v Hin.
    exact (stat_entry _ _ _ _ _ Hwf Hs Hin).
Qed.

Lemma stage_of_dir (w : world X) (delete : bool) (input_dir d : string)
  (es : list (string * node)) :
  wf_fs (w_fs w) = true ->
  stat (w_fs w) d = Some (Dir es) ->
  preparation_stage C self delete input_dir d w =
  if (delete || negb (has_shard es))%bool
  then rebuild_cache C self input_dir d w
  else (Ok tt, w).
Proof.
  intros Hwf Hs. destruct (listing_of_dir w d es Hwf Hs) as [El Esc].
  unfold preparation_stage, bind. rewrite El, Esc.
  destruct (delete || negb (has_shard es))%bool; reflexivity.
Qed.

(** On an existing directory the rebuild branch prints its line, clears
    the directory, which returns, and goes on to the tool. *)
Lemma rebuild_cache_of_dir (w : world X) (input_dir d : string)
  (es : list (string * node)) :
  wf_fs (w_fs w) = true ->
  stat (w_fs w) d = Some (Dir es) ->
  exists w1 evs,
    _clear_folder d (log (preparing_line input_dir) w) = (Ok tt, w1)
    /\ w_trace w1 = (w_trace w ++ preparing_line input_dir :: evs)%list
    /\ Forall (fun ev => clear_folder_event ev = true) evs
    /\ rebuild_cache C self input_dir d w = run_tool C self input_dir d w1.
Proof.
  intros Hwf Hs. apply wf_fs_inv in Hwf as [Hok _].
  set (w0 := log (preparing_line input_dir) w).
  assert (Hf : fs_isfile (w_fs w0) d = false).
  { unfold fs_isfile. cbn [w0 log w_fs]. now rewrite Hs. }
  destruct (clear_folder_returns X d w0 Hok Hf) as (w1 & E1 & _ & _).
  destruct (emits_clear_folder d w0 _ _ E1) as (evs & Ht & Hev).
  exists w1, evs. split; [assumption|]. split.
  { rewrite Ht. cbn [w0 log w_trace]. now rewrite <- app_assoc. }
  split; [assumption|].
  unfold rebuild_cache, bind at 1, print. fold (preparing_line input_dir).
  fold w0. unfold bind at 1, os_path_isdir, query, fs_isdir.
  cbn [w0 log w_fs]. rewrite Hs. fold w0.
  unfold bind at 1. rewrite E1. reflexivity.
Qed.

Lemma run_tool_first_event {A : Type} (input_dir d : string) (k : M X A)
  (w1 : world X) (r : outcome A) (w' : world X) :
  emits (fun _ => True) k ->
  bind (run_tool C self input_dir d) (fun _ => k) w1 = (r, w') ->
  exists evs, w_trace w' = (w_trace w1 ++ EvToolInit input_dir d :: evs)%list.
Proof.
  intros Hk E. unfold run_tool in E. rewrite bind_assoc in E.
  apply call_first_event in E; [assumption|].
  intros tool. apply emits_bind; [now apply emits_call|]. now intros _.
Qed.

Lemma emits_after_stage (d : string) :
  emits (fun ev => reclaim_event ev = true \/ load_event ev = true)
    (bind (clear_mem C) (fun _ => compose_shards C self d)).
Proof.
  apply emits_bind.
  - apply (emits_weaken X (fun ev => reclaim_event ev = true));
      [auto|apply emits_clear_mem].
  - intros _. apply (emits_weaken X (fun ev => load_event ev = true));
      [auto|apply emits_compose_shards].
Qed.

(** On an existing cache directory, [_prepare_dataset] takes the
    clear-and-rebuild branch exactly when [delete_last_prepared_data]
    is true or the directory holds no regular file with the extension
    [.pt].  With a shard present and the flag false it clears nothing,
    runs no extraction and only reclaims memory and scans the
    directory again; in the other case it clears the directory, which
    returns, and then starts the extraction tool. *)
Theorem prepare_dataset_rebuild_iff (w : world X) (delete : bool)
  (input_dir d : string) (es : list (string * node))
  (r : outcome (ConcatDataset Obj)) (w' : world X) :
  wf_fs (w_fs w) = true ->
  stat (w_fs w) d = Some (Dir es) ->
  _prepare_dataset C self delete input_dir d w = (r, w') ->
  (In (preparing_line input_dir) (new_events w w') <->
   delete = true \/ has_shard es = false)
  /\ (delete = false -> has_shard es = true ->
      existsb clearing_event (new_events w w') = false
      /\ existsb extraction_event (new_events w w') = false
      /\ bind (clear_mem C) (fun _ => compose_shards C self d) w = (r, w'))
  /\ (delete = true \/ has_shard es = false ->
      exists w1,
        _clear_folder d (log (preparing_line input_dir) w) = (Ok tt, w1)
        /\ In (EvToolInit input_dir d) (new_events w w')
        /\ bind (run_tool C self input_dir d)
             (fun _ => bind (clear_mem C) (fun _ => compose_shards C self d))
             w1 = (r, w')).
Proof.
  intros Hwf Hs E. rewrite prepare_dataset_stages in E.
  unfold bind at 1 in E. rewrite (stage_of_dir w delete input_dir d es Hwf Hs) in E.
  destruct (delete || negb (has_shard es))%bool eqn:Eb.
  - (* the rebuild branch *)
    destruct (rebuild_cache_of_dir w input_dir d es Hwf Hs)
      as (w1 & evs1 & E1 & Ht1 & _ & Er).
    rewrite Er in E.
    assert (E' : bind (run_tool C self input_dir d)
                   (fun _ => bind (clear_mem C)
                               (fun _ => compose_shards C self d)) w1
                 = (r, w')) by exact E.
    destruct (run_tool_first_event input_dir d _ w1 r w'
                (emits_weaken X _ _ _ (fun _ _ => I) (emits_after_stage d)) E')
      as (evs2 & Ht2).
    assert (Hn : new_events w w' =
                 (preparing_line input_dir :: evs1
                  ++ EvToolInit input_dir d :: evs2)%list).
    { apply new_events_app. rewrite Ht2, Ht1, <- app_assoc. reflexivity. }
    assert (Hb : delete = true \/ has_shard es = false).
    { apply orb_prop in Eb as [->|Eb]; [now left|right].
      now apply negb_true_iff in Eb. }
    split; [|split].
    + split; [now intros _|]. intros _. rewrite Hn. now left.
    + intros -> Hsh. rewrite Hsh in Eb. discriminate.
    + intros _. exists w1. split; [assumption|]. split; [|assumption].
      rewrite Hn. right. apply in_or_app. right. now left.
  - (* the cache is reused *)
    apply orb_false_elim in Eb as [-> Eb]. apply negb_false_iff in Eb.
    assert (E' : bind (clear_mem C) (fun _ => compose_shards C self d) w
                 = (r, w')) by exact E.
    destruct (emits_after_stage d w r w' E') as (evs & Ht & Hev).
    rewrite (new_events_app X w w' evs Ht).
    split; [|split].
    + split; [|intros [H|H]; congruence].
      intros Hin. exfalso. rewrite Forall_forall in Hev.
      apply Hev in Hin. destruct Hin; discriminate.
    + intros _ _. split; [|split]; [| |assumption];
        (apply (Forall_existsb_false _ _ evs) with (2 := Hev);
         intros [] [H|H]; try discriminate; reflexivity).
    + intros [H|H]; congruence.
Qed.


(** When the cache directory cannot be listed, [_prepare_dataset] raises
    the error of [os.listdir] at its first line and does nothing else. *)
Lemma prepare_dataset_unlistable (w : world X) (delete : bool)
  (input_dir d : string) (e : exn) :
  fs_listdir (w_fs w) d = inl e ->
  _prepare_dataset C self delete input_dir d w = (Raise e, w).
Proof.
  intros H. unfold _prepare_dataset, bind at 1, os_listdir. now rewrite H.
Qed.

Lemma listdir_absent (root : node) (d : string) :
  fs_exists root d = false ->
  fs_listdir root d = inl (FileNotFoundError d)
  \/ fs_listdir root d = inl (NotADirectoryError d).
Proof.
  unfold fs_exists, stat, fs_listdir.
  destruct (resolve root d) as [[|]|cp]; simpl; auto.
  destruct (get root cp); [discriminate|auto].
Qed.

(** A cache directory that does not exist: [_prepare_dataset] raises at
    its first line, whatever the flag. *)
Lemma prepare_dataset_missing_dir (w : world X) (delete : bool)
  (input_dir d : string) :
  fs_exists (w_fs w) d = false ->
  _prepare_dataset C self delete input_dir d w
  = (Raise (FileNotFoundError d), w)
  \/ _prepare_dataset C self delete input_dir d w
     = (Raise (NotADirectoryError d), w).
Proof.
  intros H. destruct (listdir_absent _ _ H) as [E|E]; [left|right];
    now apply prepare_dataset_unlistable.
Qed.

Lemma listdir_ok_isdir (root : node) (d : string) (names : list string) :
  fs_listdir root d = inr names -> fs_isdir root d = true.
Proof.
  unfold fs_listdir, fs_isdir, stat.
  destruct (resolve root d) as [e|cp]; [discriminate|].
  destruct (get root cp) as [[|]|]; try discriminate. reflexivity.
Qed.

Lemma scan_prepared_pure (d : string) (names : list string) (w : world X) :
  exists b, scan_prepared d names w = (Ok b, w).
Proof.
  induction names as [|n names IH]; simpl; [now exists false|].
  unfold bind, is_shard, bind, os_path_isfile, query, ret.
  destruct (fs_isfile (w_fs w) (join d n)
            && String.eqb (snd (splitext (join d n))) ".pt")%bool;
    [now exists true|exact IH].
Qed.

Lemma rebuild_cache_isdir (w : world X) (input_dir d : string) :
  fs_isdir (w_fs w) d = true ->
  rebuild_cache C self input_dir d w =
  bind (_clear_folder d) (fun _ => run_tool C self input_dir d)
    (log (preparing_line input_dir) w).
Proof.
  intros Hd. unfold rebuild_cache, bind at 1, print.
  unfold bind at 1, os_path_isdir, query. cbn [log w_fs]. now rewrite Hd.
Qed.

(** The [os.mkdir] of the rebuild branch is never reached: the listing
    at the first line has succeeded, so the path is a directory. *)
Lemma mkdir_branch_unreachable (w : world X) (delete : bool)
  (input_dir d : string) (r : outcome (ConcatDataset Obj)) (w' : world X) :
  _prepare_dataset C self delete input_dir d w = (r, w') ->
  ~ In (EvMkdir d) (new_events w w').
Proof.
  intros E.
  destruct (fs_listdir (w_fs w) d) as [e|names] eqn:El.
  { rewrite (prepare_dataset_unlistable w delete input_dir d e El) in E.
    injection E as <- <-. unfold new_events. rewrite skipn_all.
    now intros []. }
  pose proof (listdir_ok_isdir _ _ _ El) as Hd.
  assert (Hrest : emits (fun ev => ev <> EvMkdir d)
            (bind (clear_mem C) (fun _ => compose_shards C self d))).
  { apply (emits_weaken X
             (fun ev => reclaim_event ev = true \/ load_event ev = true));
      [|apply emits_after_stage].
    intros ev [H|H] ->; discriminate. }
  assert (Hreb : emits (fun ev => ev <> EvMkdir d)
            (bind (_clear_folder d) (fun _ => run_tool C self input_dir d))).
  { apply emits_bind.
    - apply (emits_weaken X (fun ev => clear_folder_event ev = true));
        [|apply emits_clear_folder]. intros ev H ->; discriminate.
    - intros _.
      apply (emits_weaken X (fun ev => extraction_event ev = true));
        [|apply emits_run_tool]. intros ev H ->; discriminate. }
  unfold _prepare_dataset, bind at 1, os_listdir in E. rewrite El in E.
  unfold bind at 1 in E.
  destruct (scan_prepared_pure d names w) as [b Es]. rewrite Es in E.
  destruct (delete || negb b)%bool.
  - unfold bind at 1 in E. rewrite (rebuild_cache_isdir w input_dir d Hd) in E.
    destruct (bind (_clear_folder d) (fun _ => run_tool C self input_dir d)
                (log (preparing_line input_dir) w)) as [r1 w1] eqn:E1.
    destruct (Hreb _ _ _ E1) as (e1 & Ht1 & He1).
    cbn [log w_trace] in Ht1. rewrite <- app_assoc in Ht1.
    assert (Hpre : Forall (fun ev => ev <> EvMkdir d)
                     ([preparing_line input_dir] ++ e1)).
    { apply Forall_app. split; [|assumption].
      constructor; [discriminate|constructor]. }
    assert (Hfin : forall evs, w_trace w' = (w_trace w1 ++ evs)%list ->
                     Forall (fun ev => ev <> EvMkdir d) evs ->
                     ~ In (EvMkdir d) (new_events w w')).
    { intros evs Ht Hev. rewrite (new_events_app X w w'
                                    (([preparing_line input_dir] ++ e1) ++ evs)).
      - intros Hin. apply in_app_or in Hin as [Hin|Hin].
        + rewrite Forall_forall in Hpre. now apply (Hpre _ Hin).
        + rewrite Forall_forall in Hev. now apply (Hev _ Hin).
      - rewrite Ht, Ht1. now rewrite <- !app_assoc. }
    destruct r1 as [[]|e|].
    + destruct (Hrest _ _ _ E) as (e2 & Ht2 & He2). now apply (Hfin e2).
    + injection E as <- <-. apply (Hfin []); [now rewrite app_nil_r|constructor].
    + injection E as <- <-. apply (Hfin []); [now rewrite app_nil_r|constructor].
  - unfold bind at 1, ret in E.
    destruct (Hrest _ _ _ E) as (e2 & Ht2 & He2).
    rewrite (new_events_app X w w' e2 Ht2).
    intros Hin. rewrite Forall_forall in He2. now apply (He2 _ Hin).
Qed.

(** C8, as the code has it.  [clear_mem] is requested when the
    preparation stage returns, whether the cache was rebuilt or reused:
    the first event after the stage is [gc.collect].  When the stage
    raises, for one when the extraction tool raises, the error reaches
    the caller at once and no reclamation is requested. *)
Theorem reclaim_follows_completed_stage (w : world X) (delete : bool)
  (input_dir d : string) :
  (forall w1,
      preparation_stage C self delete input_dir d w = (Ok tt, w1) ->
      existsb reclaim_event (new_events w w1) = false
      /\ _prepare_dataset C self delete input_dir d w =
         bind (clear_mem C) (fun _ => compose_shards C self d) w1
      /\ exists evs,
           new_events w (snd (_prepare_dataset C self delete input_dir d w))
           = (new_events w w1 ++ EvGcCollect :: evs)%list)
  /\ (forall e w1,
         preparation_stage C self delete input_dir d w = (Raise e, w1) ->
         _prepare_dataset C self delete input_dir d w = (Raise e, w1)
         /\ existsb reclaim_event (new_events w w1) = false).
Proof.
  assert (Hstage : forall r w1,
             preparation_stage C self delete input_dir d w = (r, w1) ->
             exists evs, w_trace w1 = (w_trace w ++ evs)%list
                         /\ existsb reclaim_event evs = false).
  { intros r w1 E.
    destruct (emits_preparation_stage delete input_dir d w r w1 E)
      as (evs & Ht & Hev).
    exists evs. split; [assumption|].
    apply (Forall_existsb_false _ _ evs) with (2 := Hev).
    intros [] H; try discriminate; reflexivity. }
  split.
  - intros w1 E. destruct (Hstage _ _ E) as (evs & Ht & Hno).
    rewrite (new_events_app X w w1 evs Ht).
    split; [assumption|].
    assert (Heq : _prepare_dataset C self delete input_dir d w =
                  bind (clear_mem C) (fun _ => compose_shards C self d) w1).
    { rewrite prepare_dataset_stages. unfold bind at 1. now rewrite E. }
    rewrite Heq. split; [reflexivity|].
    destruct (bind (clear_mem C) (fun _ => compose_shards C self d) w1)
      as [r w'] eqn:E2. cbn [snd].
    unfold clear_mem in E2. rewrite bind_assoc in E2.
    apply call_first_event in E2.
    + destruct E2 as (e2 & Ht2). exists e2. apply new_events_app.
      now rewrite Ht2, Ht, <- app_assoc.
    + intros _. apply emits_bind.
      * apply emits_bind; [now apply emits_call|].
        intros _. now apply emits_call.
      * intros _. apply (emits_weaken X (fun ev => load_event ev = true));
          [auto|apply emits_compose_shards].
  - intros e w1 E. destruct (Hstage _ _ E) as (evs & Ht & Hno).
    rewrite (new_events_app X w w1 evs Ht). split; [|assumption].
    rewrite prepare_dataset_stages. unfold bind at 1. now rewrite E.
Qed.

End Prepare.

(** The sample cache holds two shards: with the flag off nothing is
    rebuilt, with the flag on the directory is cleared and the tool
    runs. *)
Lemma prepare_dataset_rebuild_iff_witness :
  wf_fs sample_fs = true
  /\ (In (preparing_line "corpus")
        (new_events (start sample_fs)
           (snd (_prepare_dataset quiet toy_self true "corpus"
                   "tmp/input_ds_X" (start sample_fs))))
      <-> true = true \/
          has_shard [("a.pt", File false); ("notes.txt", File false);
                     ("b.pt", File false);
                     ("sub", Dir [("c.pt", File false)])] = false).
Proof.
  split; [reflexivity|].
  refine (proj1 (prepare_dataset_rebuild_iff unit nat quiet toy_self
                   (start sample_fs) true "corpus" "tmp/input_ds_X" _ _ _
                   eq_refl eq_refl _)).
  apply surjective_pairing.
Defined.

(** C1. The cache directory [out/input_ds_X] does not exist in the
    sample tree and the flag is on: [_prepare_dataset] does not clear
    and rebuild.  The [os.listdir] of its first line raises
    [FileNotFoundError]; the line of the rebuild branch is not printed,
    nothing is removed or created and the extraction tool is not
    started: the call leaves no event at all and the directory is still
    missing.  The branch that would create the directory comes after the
    listing and is never reached. *)
Theorem prepare_dataset_forced_rebuild_on_absent_cache :
  fs_exists sample_fs "out" = true
  /\ fs_exists sample_fs "out/input_ds_X" = false
  /\ fst (_prepare_dataset quiet toy_self true "corpus" "out/input_ds_X"
            (start sample_fs))
     = Raise (FileNotFoundError "out/input_ds_X")
  /\ new_events (start sample_fs)
       (snd (_prepare_dataset quiet toy_self true "corpus" "out/input_ds_X"
               (start sample_fs)))
     = []
  /\ fs_exists
       (w_fs (snd (_prepare_dataset quiet toy_self true "corpus"
                     "out/input_ds_X" (start sample_fs))))
       "out/input_ds_X"
     = false.
Proof.
  rewrite (prepare_dataset_unlistable unit nat quiet toy_self
             (start sample_fs) true "corpus" "out/input_ds_X"
             (FileNotFoundError "out/input_ds_X") eq_refl).
  repeat split.
Qed.

(** C4. The cache directory [tmp/input_ds_Y] does not exist in the
    sample tree: [_prepare_dataset] raises [FileNotFoundError] from its
    first [os.listdir], with the flag on or off; nothing is created and
    the tool is not run. *)
Theorem prepare_dataset_absent_cache_raises :
  fs_exists sample_fs "tmp/input_ds_Y" = false
  /\ _prepare_dataset quiet toy_self true "corpus" "tmp/input_ds_Y"
       (start sample_fs)
     = (Raise (FileNotFoundError "tmp/input_ds_Y"), start sample_fs)
  /\ _prepare_dataset quiet toy_self false "corpus" "tmp/input_ds_Y"
       (start sample_fs)
     = (Raise (FileNotFoundError "tmp/input_ds_Y"), start sample_fs).
Proof.
  split; [reflexivity|].
  split; apply prepare_dataset_unlistable; reflexivity.
Qed.

(** C8, the claim as stated fails: the extraction tool raises, the
    error reaches the caller, and the trace holds no call of
    [gc.collect] or [empty_cache]. *)
Lemma reclaim_skipped_when_tool_raises :
  fst (_prepare_dataset failing_tool toy_self true "corpus" "tmp/input_ds_X"
         (start sample_fs))
  = Raise (CollaboratorError 1)
  /\ last (w_trace (snd (_prepare_dataset failing_tool toy_self true "corpus"
                           "tmp/input_ds_X" (start sample_fs))))
          EvTrain
     = EvToolPrepare
  /\ existsb reclaim_event
       (w_trace (snd (_prepare_dataset failing_tool toy_self true "corpus"
                        "tmp/input_ds_X" (start sample_fs))))
     = false.
Proof. repeat split. Qed.

(** On the sample cache the stage returns and [gc.collect] comes next;
    with the failing tool the stage raises and so does the call. *)
Lemma reclaim_follows_completed_stage_witness :
  preparation_stage quiet toy_self false "corpus" "tmp/input_ds_X"
    (start sample_fs) = (Ok tt, start sample_fs)
  /\ (exists evs,
        new_events (start sample_fs)
          (snd (_prepare_dataset quiet toy_self false "corpus"
                  "tmp/input_ds_X" (start sample_fs)))
        = EvGcCollect :: evs)
  /\ fst (_prepare_dataset failing_tool toy_self true "corpus"
            "tmp/input_ds_X" (start sample_fs))
     = Raise (CollaboratorError 1).
Proof.
  destruct (reclaim_follows_completed_stage unit nat quiet toy_self
              (start sample_fs) false "corpus" "tmp/input_ds_X")
    as [Hok _].
  destruct (reclaim_follows_completed_stage unit nat failing_tool toy_self
              (start sample_fs) true "corpus" "tmp/input_ds_X")
    as [_ Hraise].
  split; [reflexivity|]. split.
  - destruct (Hok (start sample_fs) eq_refl) as (_ & _ & evs & Hevs).
    exists evs. exact Hevs.
  - destruct (Hraise (CollaboratorError 1)
                (snd (preparation_stage failing_tool toy_self true "corpus"
                        "tmp/input_ds_X" (start sample_fs)))
                eq_refl) as [E _].
    now rewrite E.
Defined.

(* ================================================================== *)
(** ** The unified dataset: [ConcatDataset] over the shards *)
(* ================================================================== *)

Section ConcatFacts.

Variable Obj : Type.

Local Open Scope Z_scope.

Lemma total_cons (e : list Obj) (ds : list (list Obj)) :
  total (e :: ds) = Z.of_nat (length e) + total ds.
Proof. unfold total. simpl. rewrite length_app. lia. Qed.

Lemma last_cumsum_from (ds : list (list Obj)) :
  forall s, ds <> [] -> last (cumsum_from s ds) 0 = s + total ds.
Proof.
  induction ds as [|e ds IH]; intros s Hne; [congruence|].
  rewrite total_cons. destruct ds as [|e' ds].
  - simpl. unfold total. simpl. lia.
  - change (cumsum_from s (e :: e' :: ds)) with
      ((Z.of_nat (length e) + s) :: cumsum_from (s + Z.of_nat (length e)) (e' :: ds)).
    change (last (?x :: cumsum_from ?t (e' :: ds)) 0) with
      (last (cumsum_from t (e' :: ds)) 0).
    rewrite IH by discriminate. lia.
Qed.

(** Where [bisect_right] lands in the running totals: on the shard whose
    range of global indices holds [idx]. *)
Lemma bisect_cumsum (ds : list (list Obj)) :
  forall s idx,
    s <= idx < s + total ds ->
    exists pre sh post,
      ds = (pre ++ sh :: post)%list
      /\ bisect_right (cumsum_from s ds) idx = length pre
      /\ s + total pre <= idx < s + total pre + Z.of_nat (length sh)
      /\ (forall k, length pre = S k ->
            nth k (cumsum_from s ds) 0 = s + total pre).
Proof.
  induction ds as [|e ds IH]; intros s idx Hidx.
  - unfold total in Hidx. simpl in Hidx. lia.
  - rewrite total_cons in Hidx. simpl.
    destruct (Z.of_nat (length e) + s <=? idx) eqn:Ele.
    + apply Z.leb_le in Ele.
      destruct (IH (s + Z.of_nat (length e)) idx) as
        (pre & sh & post & -> & Hb & Hr & Hn); [lia|].
      exists (e :: pre), sh, post. rewrite total_cons.
      split; [reflexivity|]. split; [simpl; now rewrite Hb|].
      split; [lia|]. intros k Hk. simpl in Hk. injection Hk as Hk.
      destruct k as [|k].
      * destruct pre; [|discriminate]. simpl. unfold total. simpl. lia.
      * simpl. rewrite (Hn k Hk). lia.
    + apply Z.leb_gt in Ele. exists [], e, ds.
      split; [reflexivity|]. split; [reflexivity|].
      split; [unfold total; simpl; lia|]. intros k Hk. discriminate.
Qed.

Lemma nth_error_concat_shard (pre : list (list Obj)) (sh : list Obj)
  (post : list (list Obj)) (o : nat) :
  (o < length sh)%nat ->
  nth_error (concat (pre ++ sh :: post)) (length (concat pre) + o)
  = nth_error sh o.
Proof.
  intros Ho. rewrite concat_app. simpl.
  rewrite nth_error_app2 by lia.
  replace (length (concat pre) + o - length (concat pre))%nat with o by lia.
  now rewrite nth_error_app1.
Qed.

Lemma init_inv (ds : list (list Obj)) (c : ConcatDataset Obj) :
  ConcatDataset_init ds = inr c ->
  ds <> [] /\ datasets c = ds /\ cumulative_sizes c = cumsum ds.
Proof.
  destruct ds; simpl; [discriminate|]. intros [= <-]. now repeat split.
Qed.

(** [len] is the number of records of all shards. *)
Lemma ConcatDataset_len_total (ds : list (list Obj)) (c : ConcatDataset Obj) :
  ConcatDataset_init ds = inr c -> ConcatDataset_len c = total ds.
Proof.
  intros H. apply init_inv in H as (Hne & _ & Hc).
  unfold ConcatDataset_len. rewrite Hc. unfold cumsum.
  now rewrite last_cumsum_from.
Qed.

(** Every global index is the record at that position of the shards laid
    end to end. *)
Lemma ConcatDataset_getitem_flat (ds : list (list Obj))
  (c : ConcatDataset Obj) (i : nat) :
  ConcatDataset_init ds = inr c ->
  (i < length (concat ds))%nat ->
  ConcatDataset_getitem c (Z.of_nat i) = index (concat ds) i.
Proof.
  intros Hinit Hi. pose proof (ConcatDataset_len_total ds c Hinit) as Hlen.
  apply init_inv in Hinit as (Hne & Hd & Hc).
  destruct (bisect_cumsum ds 0 (Z.of_nat i)) as
    (pre & sh & post & E & Hb & Hr & Hn); [unfold total; lia|].
  unfold ConcatDataset_getitem.
  replace (Z.of_nat i <? 0) with false by (symmetry; apply Z.ltb_ge; lia).
  cbn [andb]. rewrite Hc, Hd. unfold cumsum. rewrite Hb.
  assert (Hsh : index ds (length pre) = inr sh).
  { unfold index. rewrite E, nth_error_app2 by lia.
    now rewrite Nat.sub_diag. }
  rewrite Hsh.
  assert (Hoff : exists o, i = (length (concat pre) + o)%nat
                           /\ (o < length sh)%nat).
  { exists (i - length (concat pre))%nat. unfold total in Hr. lia. }
  destruct Hoff as (o & -> & Ho).
  assert (Hsample :
            Z.to_nat match length pre with
                     | O => Z.of_nat (length (concat pre) + o)
                     | S k => Z.of_nat (length (concat pre) + o)
                              - nth k (cumsum_from 0 ds) 0
                     end = o).
  { destruct (length pre) as [|k] eqn:Ek.
    - destruct pre; [simpl; lia|discriminate].
    - rewrite (Hn k eq_refl). unfold total. lia. }
  rewrite Hsample. unfold index. rewrite E.
  now rewrite nth_error_concat_shard.
Qed.

(** A negative index counts from the end, as for Python sequences. *)
Lemma ConcatDataset_getitem_negative (c : ConcatDataset Obj) (k : Z) :
  0 < k <= ConcatDataset_len c ->
  ConcatDataset_getitem c (- k)
  = ConcatDataset_getitem c (ConcatDataset_len c - k).
Proof.
  intros Hk. unfold ConcatDataset_getitem.
  replace (- k <? 0) with true by (symmetry; apply Z.ltb_lt; lia).
  replace (ConcatDataset_len c <? - - k) with false
    by (symmetry; apply Z.ltb_ge; lia).
  replace (ConcatDataset_len c - k <? 0) with false
    by (symmetry; apply Z.ltb_ge; lia).
  cbn [andb]. replace (ConcatDataset_len c + - k) with (ConcatDataset_len c - k)
    by lia.
  reflexivity.
Qed.

End ConcatFacts.


Section Compose.

Variables X Obj : Type.
Variable C : collaborators X Obj.
Variable self : VOXNOT Obj.

Lemma load_shards_spec (d : string) (recs : string -> list Obj)
  (l : list (string * node)) :
  forall (w : world X) (acc : list (list Obj)),
    (forall n v, In (n, v) l ->
       valid_name n = true /\ stat (w_fs w) (join d n) = Some v) ->
    (forall n x, In n (shard_names l) ->
       fst (dataset_init C (join d n) (device self) (w_fs w) x)
       = inr (recs n)) ->
    exists w',
      load_shards C self d (map fst l) acc w
      = (Ok (acc ++ map recs (shard_names l))%list, w')
      /\ w_fs w' = w_fs w
      /\ w_trace w' =
         (w_trace w
          ++ map (fun n => EvDatasetInit (join d n)) (shard_names l))%list.
Proof.
  induction l as [|[n v] l IH]; intros w acc Hl Hload.
  - exists w. simpl. unfold ret. now rewrite !app_nil_r.
  - destruct (Hl n v (or_introl eq_refl)) as [Hn Hs].
    cbn [map fst load_shards]. unfold bind at 1.
    rewrite (is_shard_entry X w d n v Hn Hs).
    unfold shard_names. cbn [filter].
    destruct (shard_entry (n, v)) eqn:Esh.
    + cbn [map fst]. unfold bind at 1, VOXNOTDataset.
      pose proof (Hload n (w_ext w)) as Hrec.
      unfold shard_names in Hrec. cbn [filter] in Hrec. rewrite Esh in Hrec.
      specialize (Hrec (or_introl eq_refl)).
      destruct (dataset_init C (join d n) (device self) (w_fs w) (w_ext w))
        as [r0 x'].
      cbn [fst] in Hrec. subst r0.
      match goal with
      | |- context [load_shards C self d (map fst l) ?a ?w1] =>
          destruct (IH w1 a) as (w' & E & Hfs & Ht)
      end.
      * intros n' v' Hin. cbn [w_fs]. apply Hl. now right.
      * intros n' x Hin. cbn [w_fs]. apply Hload.
        unfold shard_names. cbn [filter]. rewrite Esh. now right.
      * exists w'. rewrite E. cbn [w_fs w_trace] in Hfs, Ht.
        split; [now rewrite <- app_assoc|]. split; [assumption|].
        rewrite Ht. now rewrite <- app_assoc.
    + destruct (IH w acc) as (w' & E & Hfs & Ht).
      * intros n' v' Hin. apply Hl. now right.
      * intros n' x Hin. apply Hload.
        unfold shard_names. cbn [filter]. now rewrite Esh.
      * exists w'. now rewrite E.
Qed.

Lemma load_shards_none (d : string) (l : list (string * node)) :
  forall (w : world X) (acc : list (list Obj)),
    (forall n v, In (n, v) l ->
       valid_name n = true /\ stat (w_fs w) (join d n) = Some v) ->
    has_shard l = false ->
    load_shards C self d (map fst l) acc w = (Ok acc, w).
Proof.
  induction l as [|[n v] l IH]; intros w acc Hl Hn; [reflexivity|].
  destruct (Hl n v (or_introl eq_refl)) as [Hv Hs].
  unfold has_shard in Hn. simpl in Hn. apply orb_false_elim in Hn as [Hn1 Hn2].
  cbn [map fst load_shards]. unfold bind.
  rewrite (is_shard_entry X w d n v Hv Hs), Hn1.
  apply IH; [|assumption]. intros; apply Hl; now right.
Qed.

(** A directory without a shard: [ConcatDataset] refuses the empty list
    and [_prepare_dataset] ends in its [AssertionError]. *)
Lemma compose_shards_no_shard (w : world X) (d : string)
  (es : list (string * node)) :
  wf_fs (w_fs w) = true ->
  stat (w_fs w) d = Some (Dir es) ->
  has_shard es = false ->
  compose_shards C self d w
  = (Raise (AssertionError "datasets should not be an empty iterable"), w).
Proof.
  intros Hwf Hs Hn. unfold compose_shards, bind at 1, os_listdir.
  rewrite (listdir_dir _ _ _ Hs). unfold bind.
  rewrite (load_shards_none d es w []); [reflexivity| |assumption].
  intros n v Hin. exact (stat_entry _ _ _ _ _ Hwf Hs Hin).
Qed.

Lemma has_shard_names (es : list (string * node)) :
  has_shard es = true -> shard_names es <> [].
Proof.
  unfold has_shard, shard_names.
  induction es as [|e es IH]; simpl; [discriminate|].
  destruct (shard_entry e); [discriminate|exact IH].
Qed.

(** C5, as the code has it.  For a prepared directory that holds at
    least one shard, the dataset [_prepare_dataset] returns is the
    concatenation of
    the shards of the prepared directory, in listing order: only the
    regular files with extension [.pt] are loaded; the index space has
    as many entries as the shards have records together; every global
    index is the record at that position, that is, record [o] of shard
    [sh] sits at the number of records before [sh] plus [o]. *)
Theorem unified_dataset_concatenates (w : world X) (d : string)
  (es : list (string * node)) (recs : string -> list Obj) :
  wf_fs (w_fs w) = true ->
  stat (w_fs w) d = Some (Dir es) ->
  has_shard es = true ->
  (forall n x, In n (shard_names es) ->
     fst (dataset_init C (join d n) (device self) (w_fs w) x) = inr (recs n)) ->
  exists c w',
    compose_shards C self d w = (Ok c, w')
    /\ datasets c = map recs (shard_names es)
    /\ new_events w w'
       = map (fun n => EvDatasetInit (join d n)) (shard_names es)
    /\ ConcatDataset_len c
       = Z.of_nat (list_sum (map (@length Obj) (datasets c)))
    /\ (forall i, i < length (concat (datasets c)) ->
          ConcatDataset_getitem c (Z.of_nat i)
          = index (concat (datasets c)) i)
    /\ (forall pre sh post o,
          datasets c = (pre ++ sh :: post)%list -> o < length sh ->
          ConcatDataset_getitem c (total pre + Z.of_nat o)%Z = index sh o)
    /\ (forall w0 delete input_dir,
          bind (preparation_stage C self delete input_dir d)
            (fun _ => clear_mem C) w0 = (Ok tt, w) ->
          _prepare_dataset C self delete input_dir d w0 = (Ok c, w')).
Proof.
  intros Hwf Hs Hsh Hload.
  destruct (load_shards_spec d recs es w []) as (w' & El & Hfs & Ht).
  { intros n v Hin. exact (stat_entry _ _ _ _ _ Hwf Hs Hin). }
  { exact Hload. }
  cbn [app] in El.
  destruct (ConcatDataset_init (map recs (shard_names es))) as [e|c] eqn:Ei.
  { exfalso. apply has_shard_names in Hsh.
    destruct (shard_names es); [congruence|discriminate]. }
  assert (Ec : compose_shards C self d w = (Ok c, w')).
  { unfold compose_shards, bind at 1, os_listdir.
    rewrite (listdir_dir _ _ _ Hs). unfold bind. now rewrite El, Ei. }
  destruct (init_inv _ _ _ Ei) as (_ & Hd & _).
  assert (Hflat : forall i, i < length (concat (datasets c)) ->
            ConcatDataset_getitem c (Z.of_nat i)
            = index (concat (datasets c)) i).
  { intros i Hi. rewrite Hd in *. now apply ConcatDataset_getitem_flat. }
  exists c, w'. split; [assumption|]. split; [assumption|].
  split; [now apply new_events_app|].
  split.
  { rewrite (ConcatDataset_len_total _ _ _ Ei), Hd. unfold total.
    now rewrite length_concat. }
  split; [assumption|]. split.
  - intros pre sh post o E Ho. unfold total.
    rewrite <- Nat2Z.inj_add, Hflat.
    + unfold index. rewrite E. now rewrite nth_error_concat_shard.
    + rewrite E, concat_app, length_app. simpl. rewrite length_app. lia.
  - intros w0 delete input_dir E0. rewrite prepare_dataset_stages.
    rewrite <- bind_assoc. unfold bind at 1. now rewrite E0.
Qed.

End Compose.

Lemma unified_dataset_concatenates_witness :
  wf_fs sample_fs = true
  /\ exists c w',
       compose_shards sample_loader toy_self "tmp/input_ds_X" (start sample_fs)
       = (Ok c, w')
       /\ datasets c = [[10; 11]; [20; 21; 22]]
       /\ ConcatDataset_len c = 5%Z
       /\ ConcatDataset_getitem c 3%Z = inr 21.
Proof.
  split; [reflexivity|].
  destruct (unified_dataset_concatenates unit nat sample_loader toy_self
              (start sample_fs) "tmp/input_ds_X"
              [("a.pt", File false); ("notes.txt", File false);
               ("b.pt", File false); ("sub", Dir [("c.pt", File false)])]
              sample_records eq_refl eq_refl eq_refl)
    as (c & w' & E & Hd & _ & Hlen & Hget & _).
  { intros n x [<-|[<-|[]]]; reflexivity. }
  exists c, w'. split; [exact E|]. split; [exact Hd|].
  split.
  - rewrite Hlen, Hd. reflexivity.
  - change 3%Z with (Z.of_nat 3).
    rewrite (Hget 3) by (rewrite Hd; simpl; lia). now rewrite Hd.
Defined.

(** C5, the claim as stated fails for a directory without a shard: the
    directory [q] of the sample tree holds two regular files, none with
    the extension [.pt].  No dataset of no entry is returned:
    [ConcatDataset] refuses the empty list and the preparation ends in
    its [AssertionError]. *)
Lemma unified_dataset_of_no_shard_raises :
  shard_names [("a", File false); ("a_b", File false)] = []
  /\ compose_shards quiet toy_self "q" (start sample_fs)
     = (Raise (AssertionError "datasets should not be an empty iterable"),
        start sample_fs)
  /\ fst (_prepare_dataset quiet toy_self false "corpus" "q"
            (start sample_fs))
     = Raise (AssertionError "datasets should not be an empty iterable").
Proof. repeat split. Qed.

(* ================================================================== *)
(** ** Training: [train] *)
(* ================================================================== *)

Section Train.

Variables X Obj : Type.
Variable C : collaborators X Obj.
Variable self : VOXNOT Obj.

Lemma emits_prepare_dataset (delete : bool) (input_dir d : string) :
  emits (fun ev => copy_event ev = false)
    (_prepare_dataset C self delete input_dir d).
Proof.
  intros w r w' E. rewrite prepare_dataset_stages in E. revert w r w' E.
  apply emits_bind.
  - apply (emits_weaken X (fun ev => stage_event ev = true));
      [|apply emits_preparation_stage].
    intros [] H; try discriminate; reflexivity.
  - intros _.
    apply (emits_weaken X
             (fun ev => reclaim_event ev = true \/ load_event ev = true));
      [|apply emits_after_stage].
    intros [] [H|H]; try discriminate; reflexivity.
Qed.

Lemma filter_none (P : event -> bool) (evs : list event) :
  Forall (fun ev => P ev = false) evs -> filter P evs = [].
Proof.
  induction 1 as [|ev evs Hev _ IH]; simpl; [reflexivity|].
  now rewrite Hev.
Qed.

Lemma call_ok {A : Type} (ev : event) (f : ext X A) (w : world X) (a : A)
  (w' : world X) :
  call ev f w = (Ok a, w') -> w_trace w' = (w_trace w ++ [ev])%list.
Proof.
  unfold call. destruct (f (w_fs w) (w_ext w)) as [[r fs'] x'].
  now intros [= _ <-].
Qed.

(** C3. In every run of [train] that returns, both corpora were
    prepared, in [temp_dir/input_ds_X] and [temp_dir/input_ds_Y], the
    model was configured and trained, and the path its best-checkpoint
    query reported was then copied to [output_dir/{training_name}.pt]:
    that copy is the last thing done and the only copy of the run. *)
Theorem train_publishes_best_checkpoint (delete : bool)
  (input_query_dir input_reffer_dir temp_dir output_dir : string)
  (training_hyper_params training_env : Obj) (training_name : string)
  (w w' : world X) :
  train C self delete input_query_dir input_reffer_dir temp_dir output_dir
    training_hyper_params training_env training_name w = (Ok tt, w') ->
  exists dataset_X wA dataset_Y wB wC wD model_path wE,
    _prepare_dataset C self delete input_query_dir
      (join temp_dir "input_ds_X") w = (Ok dataset_X, wA)
    /\ _prepare_dataset C self delete input_reffer_dir
         (join temp_dir "input_ds_Y") wA = (Ok dataset_Y, wB)
    /\ call (EvSetTrainParams training_name)
         (model_set_train_params C (model_instance self)
            training_hyper_params training_env dataset_X dataset_Y
            training_name) wB = (Ok tt, wC)
    /\ call EvTrain (model_train C (model_instance self)) wC = (Ok tt, wD)
    /\ call EvBestModelPath
         (model_get_last_best_model_path C (model_instance self)) wD
       = (Ok model_path, wE)
    /\ new_events wE w'
       = [EvPrint ("Copy model " ++ model_path ++ " to "
                   ++ join output_dir (training_name ++ ".pt"));
          EvCopy2 model_path (join output_dir (training_name ++ ".pt"))]
    /\ filter copy_event (new_events w w')
       = [EvCopy2 model_path (join output_dir (training_name ++ ".pt"))].
Proof.
  intros E. unfold train in E. unfold bind at 1 in E.
  destruct (_prepare_dataset C self delete input_query_dir
              (join temp_dir "input_ds_X") w) as [[dataset_X|e|] wA] eqn:EX;
    try discriminate.
  unfold bind at 1 in E.
  destruct (_prepare_dataset C self delete input_reffer_dir
              (join temp_dir "input_ds_Y") wA) as [[dataset_Y|e|] wB] eqn:EY;
    try discriminate.
  unfold bind at 1 in E.
  destruct (call (EvSetTrainParams training_name)
              (model_set_train_params C (model_instance self)
                 training_hyper_params training_env dataset_X dataset_Y
                 training_name) wB) as [[[]|e|] wC] eqn:ES; try discriminate.
  unfold bind at 1 in E.
  destruct (call EvTrain (model_train C (model_instance self)) wC)
    as [[[]|e|] wD] eqn:ET; try discriminate.
  unfold bind at 1 in E.
  destruct (call EvBestModelPath
              (model_get_last_best_model_path C (model_instance self)) wD)
    as [[model_path|e|] wE] eqn:EB; try discriminate.
  unfold bind at 1, print in E.
  apply call_ok in E. cbn [log w_trace] in E. rewrite <- app_assoc in E.
  cbn [app] in E.
  exists dataset_X, wA, dataset_Y, wB, wC, wD, model_path, wE.
  repeat (split; [first [reflexivity|assumption]|]).
  split; [now apply new_events_app|].
  destruct (emits_prepare_dataset _ _ _ _ _ _ EX) as (eX & HtX & HeX).
  destruct (emits_prepare_dataset _ _ _ _ _ _ EY) as (eY & HtY & HeY).
  apply call_ok in ES, ET, EB.
  rewrite (new_events_app X w w'
             (eX ++ eY ++ [EvSetTrainParams training_name; EvTrain;
                           EvBestModelPath]
              ++ [EvPrint ("Copy model " ++ model_path ++ " to "
                           ++ join output_dir (training_name ++ ".pt"));
                  EvCopy2 model_path
                    (join output_dir (training_name ++ ".pt"))])).
  - rewrite !filter_app, (filter_none _ _ HeX), (filter_none _ _ HeY).
    reflexivity.
  - rewrite E, EB, ET, ES, HtY, HtX. now rewrite <- !app_assoc.
Qed.

End Train.

(** A first run of [train] on a temporary directory that holds no cache
    yet stops at the first [os.listdir]. *)
Example train_fresh_temp_dir_raises :
  train quiet toy_self true "src" "tgt" "out" "models" 0 0 "run1"
    (start sample_fs)
  = (Raise (FileNotFoundError "out/input_ds_X"), start sample_fs).
Proof. reflexivity. Qed.

Lemma train_publishes_best_checkpoint_witness :
  fst (train quiet toy_self false "src" "tgt" "tmp" "models" 0 0 "run1"
         (start train_fs)) = Ok tt
  /\ filter copy_event
       (new_events (start train_fs)
          (snd (train quiet toy_self false "src" "tgt" "tmp" "models" 0 0
                  "run1" (start train_fs))))
     = [EvCopy2 "runs/best.pt" "models/run1.pt"].
Proof.
  split; [reflexivity|].
  destruct (train_publishes_best_checkpoint unit nat quiet toy_self false
              "src" "tgt" "tmp" "models" 0 0 "run1" (start train_fs)
              (snd (train quiet toy_self false "src" "tgt" "tmp" "models"
                      0 0 "run1" (start train_fs)))
              eq_refl)
    as (dX & wA & dY & wB & wC & wD & p & wE & _ & _ & _ & _ & Hp & _ & Hc).
  vm_compute in Hp. injection Hp as <- _. exact Hc.
Defined.

(* ================================================================== *)
(** ** Conversion: [make_conversation] *)
(* ================================================================== *)

Lemma string_length_append (a b : string) :
  String.length (a ++ b) = String.length a + String.length b.
Proof. induction a as [|c a IH]; simpl; [reflexivity|now rewrite IH]. Qed.

Lemma string_app_inv_head (a b c : string) : a ++ b = a ++ c -> b = c.
Proof.
  induction a as [|d a IH]; simpl; [easy|]. intros [= H]. now apply IH.
Qed.

Lemma string_app_inv_tail (s a a' : string) : a ++ s = a' ++ s -> a = a'.
Proof.
  revert a'. induction a as [|d a IH]; intros [|d' a'] H; simpl in H.
  - reflexivity.
  - apply (f_equal String.length) in H. simpl in H.
    rewrite string_length_append in H. lia.
  - apply (f_equal String.length) in H. simpl in H.
    rewrite string_length_append in H. lia.
  - injection H as -> H. f_equal. now apply IH.
Qed.

Lemma has_char_app (c : ascii) (a b : string) :
  has_char c (a ++ b) = (has_char c a || has_char c b)%bool.
Proof.
  induction a as [|d a IH]; simpl; [reflexivity|].
  now rewrite IH, orb_assoc.
Qed.

(** Cutting at the first [c]. *)
Lemma cut_first (c : ascii) (a a' b b' : string) :
  has_char c a = false -> has_char c a' = false ->
  a ++ String c b = a' ++ String c b' -> a = a' /\ b = b'.
Proof.
  revert a'. induction a as [|d a IH]; intros [|d' a'] Ha Ha' H;
    simpl in *.
  - injection H as ->. now split.
  - injection H as <- _. now rewrite Ascii.eqb_refl in Ha'.
  - injection H as -> _. now rewrite Ascii.eqb_refl in Ha.
  - injection H as -> H.
    apply orb_false_elim in Ha as [_ Ha], Ha' as [_ Ha'].
    destruct (IH a' Ha Ha' H) as [-> ->]. now split.
Qed.

(** Cutting at the last [c]. *)
Lemma cut_last (c : ascii) (a a' b b' : string) :
  has_char c b = false -> has_char c b' = false ->
  a ++ String c b = a' ++ String c b' -> a = a' /\ b = b'.
Proof.
  intros Hb Hb'. revert a'.
  induction a as [|d a IH]; intros [|d' a'] H; simpl in *.
  - injection H as ->. now split.
  - injection H as <- H. subst b. rewrite has_char_app in Hb. simpl in Hb.
    rewrite Ascii.eqb_refl, orb_true_r in Hb. discriminate.
  - injection H as -> H. subst b'. rewrite has_char_app in Hb'. simpl in Hb'.
    rewrite Ascii.eqb_refl, orb_true_r in Hb'. discriminate.
  - injection H as -> H. destruct (IH a' H) as [-> ->]. now split.
Qed.

Lemma split_sep_pieces (s : string) :
  Forall (fun c => has_char sep c = false) (split_sep s).
Proof.
  induction s as [|c s IH]; simpl.
  - now repeat constructor.
  - destruct (Ascii.eqb c sep) eqn:E.
    + now constructor.
    + destruct (split_sep s) as [|h t]; [now repeat constructor; simpl; rewrite E|].
      inversion IH as [|? ? Hh Ht]; subst. constructor; [|assumption].
      simpl. now rewrite E, Hh.
Qed.

Lemma basename_no_sep (p : string) : has_char sep (basename p) = false.
Proof.
  unfold basename. pose proof (split_sep_pieces p) as H.
  induction H as [|c l Hc Hl IH]; [reflexivity|].
  destruct l as [|c' l]; [exact Hc|exact IH].
Qed.

Lemma pair_name_not_abs (bq bm : string) :
  has_char sep bq = false -> startswith_sep (pair_name bq bm) = false.
Proof.
  unfold pair_name. destruct bq as [|c bq]; simpl; [reflexivity|].
  intros H. now apply orb_false_elim in H.
Qed.

Lemma join_inj (out a b : string) :
  startswith_sep a = false -> startswith_sep b = false ->
  join out a = join out b -> a = b.
Proof.
  intros Ha Hb. unfold join. rewrite Ha, Hb.
  destruct (String.eqb out "" || endswith_sep out)%bool.
  - apply string_app_inv_head.
  - intros H. apply string_app_inv_head in H. now injection H.
Qed.

(** Two pairs get the same file name only if they are the same pair,
    provided the query names, or the model names, hold no underscore. *)
Lemma pair_name_inj (bq bq' bm bm' : string) :
  (has_char underscore bq = false /\ has_char underscore bq' = false)
  \/ (has_char underscore bm = false /\ has_char underscore bm' = false) ->
  pair_name bq bm = pair_name bq' bm' -> bq = bq' /\ bm = bm'.
Proof.
  unfold pair_name. intros [[H H']|[H H']] E.
  - change (bq ++ String underscore (bm ++ ".wav")
            = bq' ++ String underscore (bm' ++ ".wav")) in E.
    destruct (cut_first _ _ _ _ _ H H' E) as [-> E'].
    split; [reflexivity|]. now apply string_app_inv_tail in E'.
  - change (bq ++ String underscore (bm ++ ".wav")
            = bq' ++ String underscore (bm' ++ ".wav")) in E.
    assert (Hw : forall s, has_char underscore s = false ->
                           has_char underscore (s ++ ".wav") = false).
    { intros s Hs. now rewrite has_char_app, Hs. }
    destruct (cut_last _ _ _ _ _ (Hw _ H) (Hw _ H') E) as [-> E'].
    split; [reflexivity|]. now apply string_app_inv_tail in E'.
Qed.

Lemma NoDup_pairs {A B D : Type} (g : A -> B -> D) (la : list A) (lb : list B) :
  NoDup la -> NoDup lb ->
  (forall a a' b b', In a la -> In a' la -> In b lb -> In b' lb ->
     g a b = g a' b' -> a = a' /\ b = b') ->
  NoDup (flat_map (fun b => map (fun a => g a b) la) lb).
Proof.
  intros Ha Hb. induction Hb as [|b lb Hnb Hb IH]; intros Hg; simpl.
  - constructor.
  - apply NoDup_app.
    + clear - Ha Hg. induction Ha as [|a la Hna Ha IH]; simpl; [constructor|].
      constructor.
      * intros Hin. apply in_map_iff in Hin as (a' & E & Hin').
        destruct (Hg a' a b b) as [-> _]; simpl; auto.
      * apply IH. intros a1 a2 b1 b2 H1 H2 H3 H4.
        apply Hg; simpl in *; intuition.
    + apply IH. intros a1 a2 b1 b2 H1 H2 H3 H4.
      apply Hg; simpl; auto.
    + intros d Hd Hd'. apply in_map_iff in Hd as (a & <- & Hin).
      apply in_flat_map in Hd' as (b' & Hb' & Hd').
      apply in_map_iff in Hd' as (a' & E & Hin').
      destruct (Hg a' a b' b) as [_ ->]; simpl; auto.
Qed.

Section Convert.

Variables X Obj : Type.
Variable C : collaborators X Obj.
Variable self : VOXNOT Obj.

Lemma call_keeps {A : Type} (out_path : string) (ev : event) (f : ext X A)
  (w : world X) (r : outcome A) (w' : world X) :
  keeps_isdir out_path f ->
  call ev f w = (r, w') ->
  fs_isdir (w_fs w') out_path = fs_isdir (w_fs w) out_path
  /\ w_trace w' = (w_trace w ++ [ev])%list.
Proof.
  intros Hk E. unfold call in E. specialize (Hk (w_fs w) (w_ext w)).
  destruct (f (w_fs w) (w_ext w)) as [[r0 fs'] x'].
  injection E as _ <-. now split.
Qed.

(** [_get_files] never raises and leaves the world as it is. *)
Lemma get_files_total (p : string) (w : world X) :
  exists l, _get_files self p w = (Ok l, w).
Proof.
  unfold _get_files, bind at 1, os_path_isdir, query.
  destruct (fs_isdir (w_fs w) p) eqn:Ed; [|now exists [p]].
  unfold fs_isdir, stat in Ed. unfold bind, os_listdir, fs_listdir.
  destruct (resolve (w_fs w) p) as [e|cp]; [discriminate|].
  destruct (get (w_fs w) cp) as [[b|es]|]; try discriminate.
  generalize (@nil string). induction (map fst es) as [|n names IH];
    intros acc; simpl.
  - now exists acc.
  - unfold bind, os_path_isfile, query.
    destruct (fs_isfile (w_fs w) (join p n)); apply IH.
Qed.

Variable out_path : string.
Hypothesis Hkeeps : conversion_keeps_isdir C self out_path.

(** The inner loop: every query is converted with the loaded model. *)
Lemma convert_queries_trace (helper : Obj) (model : string)
  (query_file_list : list string) :
  forall (w w' : world X),
    for_each query_file_list (fun query_path =>
      bind (call (EvGetFeatures [query_path])
              (helper_get_features C helper [query_path])) (fun feats =>
      bind (call EvPredict (model_predict C (model_instance self) feats))
        (fun Y =>
      bind (os_path_isdir out_path) (fun isd =>
        call (EvVocode (out_file_path_of isd out_path query_path
                          (basename model)))
          (helper_vocode C helper Y
             (out_file_path_of isd out_path query_path (basename model)))))))
      w = (Ok tt, w') ->
    fs_isdir (w_fs w') out_path = fs_isdir (w_fs w) out_path
    /\ w_trace w' =
       (w_trace w
        ++ pair_events (fs_isdir (w_fs w) out_path) out_path model
             query_file_list)%list.
Proof.
  destruct Hkeeps as (_ & _ & Hgf & Hpr & Hvo).
  induction query_file_list as [|q qs IH]; intros w w' E.
  - injection E as <-. unfold pair_events. simpl. now rewrite app_nil_r.
  - cbn [for_each] in E. unfold bind at 1 in E. unfold bind at 1 in E.
    destruct (call (EvGetFeatures [q]) (helper_get_features C helper [q]) w)
      as [[feats|e|] w1] eqn:E1; try discriminate.
    destruct (call_keeps out_path _ _ _ _ _ (Hgf helper [q]) E1) as [Hd1 Ht1].
    unfold bind at 1 in E.
    destruct (call EvPredict (model_predict C (model_instance self) feats) w1)
      as [[Y|e|] w2] eqn:E2; try discriminate.
    destruct (call_keeps out_path _ _ _ _ _ (Hpr feats) E2) as [Hd2 Ht2].
    unfold bind at 1, os_path_isdir, query in E.
    match type of E with
    | (let (_, _) := call ?ev ?f w2 in _) = _ =>
        destruct (call ev f w2) as [[[]|e|] w3] eqn:E3; try discriminate;
        destruct (call_keeps out_path _ _ _ _ _ (Hvo helper Y _) E3)
          as [Hd3 Ht3]
    end.
    destruct (IH _ _ E) as [Hd Ht].
    split; [congruence|].
    rewrite Ht, Ht3, Ht2, Ht1, Hd3, Hd2, Hd1.
    unfold pair_events. cbn [flat_map]. now rewrite <- !app_assoc.
Qed.

(** The two loops: the models in order, each with every query. *)
Lemma convert_pairs_trace (helper : Obj)
  (query_file_list model_file_list : list string) :
  forall (w w' : world X),
    convert_pairs C self helper query_file_list model_file_list out_path w
    = (Ok tt, w') ->
    w_trace w' =
    (w_trace w
     ++ conversion_events (fs_isdir (w_fs w) out_path) out_path
          query_file_list model_file_list)%list.
Proof.
  pose proof Hkeeps as (_ & Hlw & _).
  unfold convert_pairs.
  induction model_file_list as [|m ms IH]; intros w w' E.
  - injection E as <-. unfold conversion_events. simpl. now rewrite app_nil_r.
  - cbn [for_each] in E. unfold bind at 1 in E. unfold bind at 1 in E.
    destruct (call (EvLoadWeights m)
                (model_load_weights C (model_instance self) m) w)
      as [[[]|e|] w1] eqn:E1; try discriminate.
    destruct (call_keeps out_path _ _ _ _ _ (Hlw m) E1) as [Hd1 Ht1].
    match type of E with
    | (let (_, _) := ?loop w1 in _) = _ =>
        destruct (loop w1) as [[[]|e|] w2] eqn:E2; try discriminate
    end.
    apply convert_queries_trace in E2 as [Hd2 Ht2].
    rewrite (IH _ _ E), Ht2, Ht1, Hd2, Hd1.
    unfold conversion_events. cbn [flat_map]. now rewrite <- !app_assoc.
Qed.

Lemma vocode_paths_app (a b : list event) :
  vocode_paths (a ++ b) = (vocode_paths a ++ vocode_paths b)%list.
Proof.
  induction a as [|ev a IH]; simpl; [reflexivity|].
  destruct ev; simpl; now rewrite IH.
Qed.

Lemma vocode_paths_pair_events (isd : bool) (m : string) (qs : list string) :
  vocode_paths (pair_events isd out_path m qs)
  = map (fun q => out_file_path_of isd out_path q (basename m)) qs.
Proof.
  unfold pair_events. induction qs as [|q qs IH]; simpl;
    [reflexivity|now rewrite IH].
Qed.

Lemma vocode_paths_conversion (isd : bool)
  (query_file_list model_file_list : list string) :
  vocode_paths (conversion_events isd out_path query_file_list model_file_list)
  = pair_paths isd out_path query_file_list model_file_list.
Proof.
  unfold conversion_events, pair_paths.
  induction model_file_list as [|m ms IH]; [reflexivity|].
  cbn [flat_map]. rewrite <- IH.
  change (vocode_paths ((EvLoadWeights m
                         :: pair_events isd out_path m query_file_list)
                        ++ ?l))
    with (vocode_paths (pair_events isd out_path m query_file_list ++ l)).
  now rewrite vocode_paths_app, vocode_paths_pair_events.
Qed.

Lemma pair_paths_length (isd : bool) (qs ms : list string) :
  length (pair_paths isd out_path qs ms) = length ms * length qs.
Proof.
  unfold pair_paths. induction ms as [|m ms IH]; simpl; [reflexivity|].
  now rewrite length_app, length_map, IH.
Qed.

Lemma pair_paths_file (qs ms : list string) :
  Forall (eq out_path) (pair_paths false out_path qs ms).
Proof.
  unfold pair_paths. apply Forall_forall. intros p Hin.
  apply in_flat_map in Hin as (m & _ & Hin).
  apply in_map_iff in Hin as (q & <- & _). reflexivity.
Qed.

Lemma pair_paths_dir (qs ms : list string) :
  pair_paths true out_path qs ms
  = flat_map (fun bm => map (fun bq => join out_path (pair_name bq bm))
                          (map basename qs))
      (map basename ms).
Proof.
  unfold pair_paths. induction ms as [|m ms IH]; simpl; [reflexivity|].
  rewrite IH. f_equal. now rewrite map_map.
Qed.

Lemma pair_paths_distinct (qs ms : list string) :
  NoDup (map basename qs) -> NoDup (map basename ms) ->
  Forall (fun q => has_char underscore (basename q) = false) qs
  \/ Forall (fun m => has_char underscore (basename m) = false) ms ->
  NoDup (pair_paths true out_path qs ms).
Proof.
  intros Hq Hm Hu. rewrite pair_paths_dir.
  apply NoDup_pairs; [assumption|assumption|].
  intros bq bq' bm bm' H1 H2 H3 H4 E.
  apply in_map_iff in H1 as (q & <- & Hq1), H2 as (q' & <- & Hq2).
  apply in_map_iff in H3 as (m & <- & Hm1), H4 as (m' & <- & Hm2).
  apply join_inj in E;
    try (apply pair_name_not_abs; apply basename_no_sep).
  apply pair_name_inj in E; [assumption|].
  rewrite !Forall_forall in Hu. destruct Hu as [Hu|Hu]; [left|right]; auto.
Qed.

(** C2, as the code has it.  In a run of [make_conversation] that
    returns, with collaborators that do not turn [out_path] into or out
    of a directory: the models are loaded in order, each query is
    converted with each model, and the result of pair (model, query) is
    rendered once, to [out_path/{queryBaseName}_{modelBaseName}.wav]
    when [out_path] is a directory and to [out_path] itself when it is
    not.  That makes M times Q rendered paths; they are pairwise
    distinct when [out_path] is a directory, the base names are
    pairwise distinct and the query base names, or the model base
    names, hold no underscore; they are all [out_path] when it is not a
    directory, the last pair being rendered last. *)
Theorem conversion_fan_out (query_path trained_model_path : string)
  (w w' : world X) :
  make_conversation C self query_path trained_model_path out_path w
  = (Ok tt, w') ->
  exists qs ms,
    _get_files self query_path w = (Ok qs, w)
    /\ _get_files self trained_model_path w = (Ok ms, w)
    /\ new_events w w'
       = EvHelperInit
         :: conversion_events (fs_isdir (w_fs w) out_path) out_path qs ms
    /\ vocode_paths (new_events w w')
       = pair_paths (fs_isdir (w_fs w) out_path) out_path qs ms
    /\ length (vocode_paths (new_events w w')) = length ms * length qs
    /\ (fs_isdir (w_fs w) out_path = true ->
        NoDup (map basename qs) -> NoDup (map basename ms) ->
        Forall (fun q => has_char underscore (basename q) = false) qs
        \/ Forall (fun m => has_char underscore (basename m) = false) ms ->
        NoDup (vocode_paths (new_events w w')))
    /\ (fs_isdir (w_fs w) out_path = false ->
        Forall (eq out_path) (vocode_paths (new_events w w'))).
Proof.
  intros E. unfold make_conversation in E.
  destruct (get_files_total query_path w) as [qs Eq].
  destruct (get_files_total trained_model_path w) as [ms Em].
  unfold bind at 1 in E. rewrite Eq in E.
  unfold bind at 1 in E. rewrite Em in E.
  unfold bind at 1 in E.
  destruct (call EvHelperInit (helper_init C (device self)) w)
    as [[helper|e|] w1] eqn:E1; try discriminate.
  destruct Hkeeps as (Hhi & _).
  destruct (call_keeps out_path _ _ _ _ _ Hhi E1) as [Hd1 Ht1].
  apply convert_pairs_trace in E. rewrite Ht1, Hd1, <- app_assoc in E.
  cbn [app] in E. apply new_events_app in E.
  exists qs, ms. split; [assumption|]. split; [assumption|].
  split; [assumption|].
  assert (Hv : vocode_paths (new_events w w')
               = pair_paths (fs_isdir (w_fs w) out_path) out_path qs ms).
  { rewrite E. cbn [vocode_paths]. apply vocode_paths_conversion. }
  rewrite Hv. split; [reflexivity|].
  split; [apply pair_paths_length|]. split.
  - intros -> Hq Hm Hu. now apply pair_paths_distinct.
  - intros ->. apply pair_paths_file.
Qed.

End Convert.

Lemma conversion_fan_out_witness :
  conversion_keeps_isdir quiet toy_self "out"
  /\ fst (make_conversation quiet toy_self "c.wav" "m" "out"
            (start sample_fs)) = Ok tt
  /\ vocode_paths
       (new_events (start sample_fs)
          (snd (make_conversation quiet toy_self "c.wav" "m" "out"
                  (start sample_fs))))
     = ["out/c.wav_b_c.wav"; "out/c.wav_c.wav"].
Proof.
  assert (Hk : conversion_keeps_isdir quiet toy_self "out").
  { unfold conversion_keeps_isdir, keeps_isdir.
    repeat split; intros; reflexivity. }
  split; [exact Hk|]. split; [reflexivity|].
  destruct (conversion_fan_out unit nat quiet toy_self "out" Hk "c.wav" "m"
              (start sample_fs)
              (snd (make_conversation quiet toy_self "c.wav" "m" "out"
                      (start sample_fs)))
              eq_refl)
    as (qs & ms & Eq & Em & _ & Hv & _).
  vm_compute in Eq, Em. injection Eq as <-. injection Em as <-.
  rewrite Hv. reflexivity.
Defined.

(** C2, the claim as stated fails.  The query directory holds [a] and
    [a_b], the model directory [b_c] and [c]: the base names are
    pairwise distinct and [out] is a directory, yet the pairs
    ([b_c], [a]) and ([c], [a_b]) are both rendered to
    [out/a_b_c.wav].  The four pairs leave three files. *)
Lemma conversion_names_collide :
  fst (make_conversation writing toy_self "q" "m" "out" (start sample_fs))
  = Ok tt
  /\ fs_isdir sample_fs "out" = true
  /\ fst (_get_files toy_self "q" (start sample_fs)) = Ok ["q/a"; "q/a_b"]
  /\ fst (_get_files toy_self "m" (start sample_fs)) = Ok ["m/b_c"; "m/c"]
  /\ nodupb (map basename ["q/a"; "q/a_b"]) = true
  /\ nodupb (map basename ["m/b_c"; "m/c"]) = true
  /\ vocode_paths
       (w_trace (snd (make_conversation writing toy_self "q" "m" "out"
                        (start sample_fs))))
     = ["out/a_b_c.wav"; "out/a_b_b_c.wav"; "out/a_c.wav"; "out/a_b_c.wav"]
  /\ nodupb
       (vocode_paths
          (w_trace (snd (make_conversation writing toy_self "q" "m" "out"
                           (start sample_fs)))))
     = false
  /\ stat (w_fs (snd (make_conversation writing toy_self "q" "m" "out"
                        (start sample_fs)))) "out"
     = Some (Dir [("a_b_c.wav", File false); ("a_b_b_c.wav", File false);
                  ("a_c.wav", File false)]).
Proof. repeat split. Qed.

Section MissingPath.

Variables X Obj : Type.
Variable C : collaborators X Obj.
Variable self : VOXNOT Obj.

Lemma missing_not_dir (root : node) (p : string) :
  fs_exists root p = false -> fs_isdir root p = false.
Proof.
  unfold fs_exists, fs_isdir. destruct (stat root p); [discriminate|easy].
Qed.

Lemma bind_ok {A B : Type} (m : M X A) (k : A -> M X B) (w w1 : world X)
  (a : A) :
  m w = (Ok a, w1) -> bind m k w = k a w1.
Proof. intros H. unfold bind. now rewrite H. Qed.

(** C10. For a path that does not exist, as for every path that is not
    a directory, [_get_files] returns the one-element list of that path
    and raises nothing; [make_conversation] then goes on with that path
    as its only query file, or as its only model file. *)
Theorem get_files_accepts_missing_path (w : world X) (p : string) :
  fs_exists (w_fs w) p = false \/ fs_isdir (w_fs w) p = false ->
  _get_files self p w = (Ok [p], w)
  /\ (forall trained_model_path out_path,
        make_conversation C self p trained_model_path out_path w
        = bind (_get_files self trained_model_path) (fun model_file_list =>
          bind (call EvHelperInit (helper_init C (device self)))
            (fun helper =>
               convert_pairs C self helper [p] model_file_list out_path)) w)
  /\ (forall query_path out_path,
        make_conversation C self query_path p out_path w
        = bind (_get_files self query_path) (fun query_file_list =>
          bind (call EvHelperInit (helper_init C (device self)))
            (fun helper =>
               convert_pairs C self helper query_file_list [p] out_path)) w).
Proof.
  intros H.
  assert (Hd : fs_isdir (w_fs w) p = false).
  { destruct H as [H|H]; [now apply missing_not_dir|assumption]. }
  pose proof (get_files_not_dir X Obj self w p Hd) as Hp.
  split; [assumption|]. split.
  - intros mp out. unfold make_conversation.
    now rewrite (bind_ok _ _ _ _ _ Hp).
  - intros qp out. unfold make_conversation.
    destruct (get_files_total X Obj self qp w) as [qs Eq].
    rewrite !(bind_ok _ _ _ _ _ Eq). now rewrite (bind_ok _ _ _ _ _ Hp).
Qed.

End MissingPath.

(** [nope/q.wav] is not in the sample tree: it is taken as the only
    query, and feature extraction is asked for it. *)
Lemma get_files_accepts_missing_path_witness :
  fs_exists sample_fs "nope/q.wav" = false
  /\ _get_files toy_self "nope/q.wav" (start sample_fs)
     = (Ok ["nope/q.wav"], start sample_fs)
  /\ w_trace (snd (make_conversation quiet toy_self "nope/q.wav" "m/c" "out"
                     (start sample_fs)))
     = [EvHelperInit; EvLoadWeights "m/c"; EvGetFeatures ["nope/q.wav"];
        EvPredict; EvVocode "out/q.wav_c.wav"].
Proof.
  destruct (get_files_accepts_missing_path unit nat quiet toy_self
              (start sample_fs) "nope/q.wav" (or_introl eq_refl))
    as (Hg & Hq & _).
  split; [reflexivity|]. split; [exact Hg|].
  rewrite Hq. reflexivity.
Defined.

(* ================================================================== *)
(** ** Construction: [__init__] *)
(* ================================================================== *)

(** Events of building a model. *)
Definition model_init_event (ev : event) : bool :=
  match ev with
  | EvModelInit _ => true
  | _ => false
  end.

(** Two sets of collaborators that differ at most in what the model
    operations do on instances other than [inst]. *)
Definition agree_at {X Obj : Type} (inst : Obj)
  (C C' : collaborators X Obj) : Prop :=
  tool_init C = tool_init C'
  /\ tool_prepare C = tool_prepare C'
  /\ dataset_init C = dataset_init C'
  /\ gc_collect C = gc_collect C'
  /\ cuda_empty_cache C = cuda_empty_cache C'
  /\ helper_init C = helper_init C'
  /\ helper_get_features C = helper_get_features C'
  /\ helper_vocode C = helper_vocode C'
  /\ shutil_copy2 C = shutil_copy2 C'
  /\ model_set_train_params C inst = model_set_train_params C' inst
  /\ model_train C inst = model_train C' inst
  /\ model_get_last_best_model_path C inst
     = model_get_last_best_model_path C' inst
  /\ model_load_weights C inst = model_load_weights C' inst
  /\ model_predict C inst = model_predict C' inst.

Section Lifetime.

Variables X Obj : Type.

(** The methods reach the model operations through [self.model_instance]
    only: what they do on other instances is of no account. *)
Lemma train_agree (C C' : collaborators X Obj) (self : VOXNOT Obj)
  (delete : bool)
  (input_query_dir input_reffer_dir temp_dir output_dir : string)
  (training_hyper_params training_env : Obj) (training_name : string)
  (w : world X) :
  agree_at (model_instance self) C C' ->
  train C' self delete input_query_dir input_reffer_dir temp_dir output_dir
    training_hyper_params training_env training_name w
  = train C self delete input_query_dir input_reffer_dir temp_dir output_dir
      training_hyper_params training_env training_name w.
Proof.
  destruct C as [cn og ti tp di gc ce ms mt mp ml mpr hi hg hv cp].
  destruct C' as [cn' og' ti' tp' di' gc' ce' ms' mt' mp' ml' mpr' hi' hg' hv' cp'].
  unfold agree_at. cbn.
  intros (-> & -> & -> & -> & -> & -> & -> & -> & -> & Hs & Ht & Hp & _ & _).
  unfold train. cbn. rewrite Hs, Ht, Hp. reflexivity.
Qed.

Lemma make_conversation_agree (C C' : collaborators X Obj)
  (self : VOXNOT Obj) (query_path trained_model_path out_path : string)
  (w : world X) :
  agree_at (model_instance self) C C' ->
  make_conversation C' self query_path trained_model_path out_path w
  = make_conversation C self query_path trained_model_path out_path w.
Proof.
  destruct C as [cn og ti tp di gc ce ms mt mp ml mpr hi hg hv cp].
  destruct C' as [cn' og' ti' tp' di' gc' ce' ms' mt' mp' ml' mpr' hi' hg' hv' cp'].
  unfold agree_at. cbn.
  intros (-> & -> & -> & -> & -> & -> & -> & -> & -> & _ & _ & _ & Hl & Hr).
  unfold make_conversation, convert_pairs. cbn. rewrite Hl, Hr. reflexivity.
Qed.

Variable C : collaborators X Obj.

Lemma emits_get_files (P : event -> Prop) (self : VOXNOT Obj) (p : string) :
  emits P (_get_files (X:=X) self p).
Proof.
  intros w r w' E. destruct (get_files_total X Obj self p w) as [l El].
  rewrite El in E. injection E as <- <-. exists []. now rewrite app_nil_r.
Qed.

Lemma prepare_dataset_builds_no_model (self : VOXNOT Obj) (delete : bool)
  (input_dir d : string) :
  emits (fun ev => model_init_event ev = false)
    (_prepare_dataset C self delete input_dir d).
Proof.
  intros w r w' E. rewrite prepare_dataset_stages in E. revert w r w' E.
  apply emits_bind.
  - apply (emits_weaken X (fun ev => stage_event ev = true));
      [|apply emits_preparation_stage].
    intros [] H; try discriminate; reflexivity.
  - intros _.
    apply (emits_weaken X
             (fun ev => reclaim_event ev = true \/ load_event ev = true));
      [|apply emits_after_stage].
    intros [] [H|H]; try discriminate; reflexivity.
Qed.

Lemma train_builds_no_model (self : VOXNOT Obj) (delete : bool)
  (input_query_dir input_reffer_dir temp_dir output_dir : string)
  (training_hyper_params training_env : Obj) (training_name : string) :
  emits (fun ev => model_init_event ev = false)
    (train C self delete input_query_dir input_reffer_dir temp_dir output_dir
       training_hyper_params training_env training_name).
Proof.
  unfold train.
  apply emits_bind; [apply prepare_dataset_builds_no_model|]. intros dX.
  apply emits_bind; [apply prepare_dataset_builds_no_model|]. intros dY.
  apply emits_bind; [now apply emits_call|]. intros _.
  apply emits_bind; [now apply emits_call|]. intros _.
  apply emits_bind; [now apply emits_call|]. intros model_path.
  apply emits_bind; [|intros _; now apply emits_call].
  now apply (emits_log X _ _ (fun _ => Ok tt)).
Qed.

Lemma make_conversation_builds_no_model (self : VOXNOT Obj)
  (query_path trained_model_path out_path : string) :
  emits (fun ev => model_init_event ev = false)
    (make_conversation C self query_path trained_model_path out_path).
Proof.
  unfold make_conversation, convert_pairs.
  apply emits_bind; [apply emits_get_files|]. intros qs.
  apply emits_bind; [apply emits_get_files|]. intros ms.
  apply emits_bind; [now apply emits_call|]. intros helper.
  apply emits_for_each. intros m.
  apply emits_bind; [now apply emits_call|]. intros _.
  apply emits_for_each. intros q.
  apply emits_bind; [now apply emits_call|]. intros feats.
  apply emits_bind; [now apply emits_call|]. intros Y.
  apply emits_bind; [apply emits_query|]. intros isd.
  now apply emits_call.
Qed.

(** C9, as the code has it.  [__init__] looks the class name up in the
    global table of the module, [globals()], not in a table of model
    classes.  A name that is not bound raises [KeyError] with the world
    untouched: no event, no change of the filesystem or of the outer
    state.  A name bound to something that cannot be called raises
    [TypeError], naming the type, again with the world untouched: so do
    the modules the file imports.  A name bound to something that can be
    called is called exactly once, with [(device, hyper_params,
    prod_mode)], and what it returns is the [model_instance] of the new
    object: so are all the classes bound at module level, model class or
    not.
    Afterwards no method builds a model again, and [train] and
    [make_conversation] reach the model operations on that one instance
    only. *)
Theorem init_resolves_model_class (dev : Obj) (model_class_name : string)
  (hyper_params : Obj) (prod_mode : bool) (w : world X) :
  (module_globals C model_class_name = None ->
   __init__ C dev model_class_name hyper_params prod_mode w
   = (Raise (KeyError model_class_name), w))
  /\ (forall type_name,
        module_globals C model_class_name = Some (NotCallable type_name) ->
        __init__ C dev model_class_name hyper_params prod_mode w
        = (Raise (TypeError ("'" ++ type_name ++ "' object is not callable")),
           w))
  /\ (forall new,
        module_globals C model_class_name = Some (Callable new) ->
        new_events w
          (snd (__init__ C dev model_class_name hyper_params prod_mode w))
        = [EvModelInit model_class_name]
        /\ (forall inst fs' x',
              new dev hyper_params prod_mode (w_fs w) (w_ext w)
              = (inr inst, fs', x') ->
              __init__ C dev model_class_name hyper_params prod_mode w
              = (Ok {| device := dev; model_instance := inst |},
                 {| w_fs := fs'; w_ext := x';
                    w_trace := w_trace w ++ [EvModelInit model_class_name] |}))
        /\ (forall e fs' x',
              new dev hyper_params prod_mode (w_fs w) (w_ext w)
              = (inl e, fs', x') ->
              fst (__init__ C dev model_class_name hyper_params prod_mode w)
              = Raise e))
  /\ (In model_class_name imported_modules ->
      __init__ C dev model_class_name hyper_params prod_mode w
      = (Raise (TypeError "'module' object is not callable"), w))
  /\ (In model_class_name module_classes ->
      new_events w
        (snd (__init__ C dev model_class_name hyper_params prod_mode w))
      = [EvModelInit model_class_name]
      /\ (forall inst fs' x',
            class_new C model_class_name dev hyper_params prod_mode (w_fs w)
              (w_ext w) = (inr inst, fs', x') ->
            __init__ C dev model_class_name hyper_params prod_mode w
            = (Ok {| device := dev; model_instance := inst |},
               {| w_fs := fs'; w_ext := x';
                  w_trace := w_trace w ++ [EvModelInit model_class_name] |})))
  /\ (forall (self : VOXNOT Obj) delete input_query_dir input_reffer_dir
        temp_dir output_dir training_hyper_params training_env training_name
        w1,
        existsb model_init_event
          (new_events w1
             (snd (train C self delete input_query_dir input_reffer_dir
                     temp_dir output_dir training_hyper_params training_env
                     training_name w1))) = false)
  /\ (forall (self : VOXNOT Obj) query_path trained_model_path out_path w1,
        existsb model_init_event
          (new_events w1
             (snd (make_conversation C self query_path trained_model_path
                     out_path w1))) = false)
  /\ (forall (self : VOXNOT Obj) (C' : collaborators X Obj),
        agree_at (model_instance self) C C' ->
        (forall delete input_query_dir input_reffer_dir temp_dir output_dir
           training_hyper_params training_env training_name w1,
           train C' self delete input_query_dir input_reffer_dir temp_dir
             output_dir training_hyper_params training_env training_name w1
           = train C self delete input_query_dir input_reffer_dir temp_dir
               output_dir training_hyper_params training_env training_name
               w1)
        /\ (forall query_path trained_model_path out_path w1,
              make_conversation C' self query_path trained_model_path
                out_path w1
              = make_conversation C self query_path trained_model_path
                  out_path w1)).
Proof.
  assert (Hcall : forall new,
            module_globals C model_class_name = Some (Callable new) ->
            new_events w
              (snd (__init__ C dev model_class_name hyper_params prod_mode w))
            = [EvModelInit model_class_name]).
  { intros new Hn. unfold __init__, bind. rewrite Hn. unfold call.
    destruct (new dev hyper_params prod_mode (w_fs w) (w_ext w))
      as [[[e|inst] fs'] x']; cbn [snd]; now apply new_events_app. }
  assert (Hthird : forall new,
            module_globals C model_class_name = Some (Callable new) ->
            forall inst fs' x',
              new dev hyper_params prod_mode (w_fs w) (w_ext w)
              = (inr inst, fs', x') ->
              __init__ C dev model_class_name hyper_params prod_mode w
              = (Ok {| device := dev; model_instance := inst |},
                 {| w_fs := fs'; w_ext := x';
                    w_trace := w_trace w ++ [EvModelInit model_class_name] |})).
  { intros new Hn inst fs' x' En. unfold __init__, bind. rewrite Hn.
    unfold call. now rewrite En. }
  split; [|split; [|split; [|split; [|split; [|split; [|split]]]]]].
  - unfold __init__, bind. now intros ->.
  - unfold __init__, bind. now intros type_name ->.
  - intros new Hn. split; [now apply Hcall with (new := new)|].
    unfold __init__, bind. rewrite Hn. unfold call.
    destruct (new dev hyper_params prod_mode (w_fs w) (w_ext w))
      as [[[e|inst] fs'] x'] eqn:En; cbn [snd fst]; split.
    + intros inst fs2 x2 [=].
    + now intros e2 fs2 x2 [= -> _ _].
    + now intros inst2 fs2 x2 [= -> -> ->].
    + intros e2 fs2 x2 [=].
  - intros Hin.
    assert (Hg : module_globals C model_class_name
                 = Some (NotCallable "module")).
    { simpl in Hin.
      repeat (destruct Hin as [<-|Hin]; [reflexivity|]). contradiction. }
    unfold __init__, bind. now rewrite Hg.
  - intros Hin.
    assert (Hg : module_globals C model_class_name
                 = Some (Callable (class_new C model_class_name))).
    { unfold module_globals.
      now rewrite (proj2 (existsb_eqb_In model_class_name module_classes) Hin). }
    split; [now apply Hcall with (1 := Hg)|].
    now apply Hthird with (1 := Hg).
  - intros self delete iq ir td od hp env name w1.
    destruct (train C self delete iq ir td od hp env name w1) as [r w'] eqn:E.
    destruct (train_builds_no_model _ _ _ _ _ _ _ _ _ _ _ _ E)
      as (evs & Ht & Hev).
    cbn [snd]. rewrite (new_events_app X w1 w' evs Ht).
    now apply (Forall_existsb_false (fun ev => model_init_event ev = false)).
  - intros self q m o w1.
    destruct (make_conversation C self q m o w1) as [r w'] eqn:E.
    destruct (make_conversation_builds_no_model _ _ _ _ _ _ _ E)
      as (evs & Ht & Hev).
    cbn [snd]. rewrite (new_events_app X w1 w' evs Ht).
    now apply (Forall_existsb_false (fun ev => model_init_event ev = false)).
  - intros self C' Ha. split.
    + intros. now apply train_agree.
    + intros. now apply make_conversation_agree.
Qed.

End Lifetime.

(** Collaborators whose model operations fail on every instance but the
    one built from [VOXNOTBaseModel]. *)
Definition strict_models : collaborators unit nat := {|
  class_new := class_new quiet;
  other_globals := other_globals quiet;
  tool_init := tool_init quiet;
  tool_prepare := tool_prepare quiet;
  dataset_init := dataset_init quiet;
  gc_collect := gc_collect quiet;
  cuda_empty_cache := cuda_empty_cache quiet;
  model_set_train_params := fun i =>
    if Nat.eqb i 7 then model_set_train_params quiet 7
    else fun _ _ _ _ _ fs x => (inl (CollaboratorError 9), fs, x);
  model_train := fun i =>
    if Nat.eqb i 7 then model_train quiet 7
    else fun fs x => (inl (CollaboratorError 9), fs, x);
  model_get_last_best_model_path := fun i =>
    if Nat.eqb i 7 then model_get_last_best_model_path quiet 7
    else fun fs x => (inl (CollaboratorError 9), fs, x);
  model_load_weights := fun i =>
    if Nat.eqb i 7 then model_load_weights quiet 7
    else fun _ fs x => (inl (CollaboratorError 9), fs, x);
  model_predict := fun i =>
    if Nat.eqb i 7 then model_predict quiet 7
    else fun _ fs x => (inl (CollaboratorError 9), fs, x);
  helper_init := helper_init quiet;
  helper_get_features := helper_get_features quiet;
  helper_vocode := helper_vocode quiet;
  shutil_copy2 := shutil_copy2 quiet
|}.

(** In the table of the module [NoSuchModel] is not bound, [os] is a
    module and [VOXNOTBaseModel] a class; the object built from the
    class is trained as well with collaborators that fail on every other
    instance. *)
Lemma init_resolves_model_class_witness :
  __init__ quiet 0 "NoSuchModel" 0 true (start sample_fs)
  = (Raise (KeyError "NoSuchModel"), start sample_fs)
  /\ __init__ quiet 0 "os" 0 true (start sample_fs)
     = (Raise (TypeError "'module' object is not callable"), start sample_fs)
  /\ new_events (start sample_fs)
       (snd (__init__ quiet 0 "VOXNOTBaseModel" 0 true (start sample_fs)))
     = [EvModelInit "VOXNOTBaseModel"]
  /\ train strict_models toy_self false "src" "tgt" "tmp" "models" 0 0 "run1"
       (start train_fs)
     = train quiet toy_self false "src" "tgt" "tmp" "models" 0 0 "run1"
         (start train_fs).
Proof.
  pose proof (init_resolves_model_class unit nat quiet 0 "NoSuchModel" 0 true
                (start sample_fs)) as H1.
  pose proof (init_resolves_model_class unit nat quiet 0 "os" 0 true
                (start sample_fs)) as H2.
  pose proof (init_resolves_model_class unit nat quiet 0 "VOXNOTBaseModel" 0
                true (start sample_fs)) as H3.
  split; [exact (proj1 H1 eq_refl)|].
  split.
  { apply (proj1 (proj2 (proj2 (proj2 H2)))). simpl. auto. }
  split.
  { apply (proj1 (proj2 (proj2 (proj2 (proj2 H3))))). simpl. auto 10. }
  apply (proj2 (proj2 (proj2 (proj2 (proj2 (proj2 (proj2 H3)))))) toy_self
           strict_models).
  repeat split.
Defined.

(** C9, the claim as stated fails: [VOXNOTDatasetPreparationTools] is
    no model class, yet the name is bound at module level (line 29), so
    [__init__] does not reject it: the class is called with [(device,
    hyper_params, prod_mode)] and what it returns becomes the
    [model_instance].  The name of a module is refused with [TypeError],
    not with an error about an unknown model. *)
Lemma init_accepts_any_module_class :
  __init__ quiet 0 "VOXNOTDatasetPreparationTools" 0 true (start sample_fs)
  = (Ok {| device := 0; model_instance := 8 |},
     {| w_fs := sample_fs; w_ext := tt;
        w_trace := [EvModelInit "VOXNOTDatasetPreparationTools"] |})
  /\ __init__ quiet 0 "os" 0 true (start sample_fs)
     = (Raise (TypeError "'module' object is not callable"), start sample_fs).
Proof. split; reflexivity. Qed.

(* ================================================================== *)
(** ** Clearing a folder: what is left, and what is printed *)
(* ================================================================== *)

Lemma update_assoc_ext (c : string) (f g : node -> node)
  (es : list (string * node)) :
  (forall v, f v = g v) -> update_assoc c f es = update_assoc c g es.
Proof.
  intros H. induction es as [|[k v] es IH]; simpl; [reflexivity|].
  destruct (String.eqb c k); [now rewrite H|now rewrite IH].
Qed.

Lemma update_assoc_twice (c : string) (f g : node -> node)
  (es : list (string * node)) :
  update_assoc c f (update_assoc c g es)
  = update_assoc c (fun v => f (g v)) es.
Proof.
  induction es as [|[k v] es IH]; simpl; [reflexivity|].
  destruct (String.eqb c k) eqn:E; simpl; rewrite E; [reflexivity|].
  now rewrite IH.
Qed.

Lemma update_assoc_id (c : string) (f : node -> node)
  (es : list (string * node)) (v : node) :
  assoc c es = Some v -> f v = v -> update_assoc c f es = es.
Proof.
  intros Ha Hf. induction es as [|[k x] es IH]; simpl in *; [reflexivity|].
  destruct (String.eqb c k).
  - injection Ha as ->. now rewrite Hf.
  - now rewrite IH.
Qed.

Lemma assoc_update_assoc (c : string) (f : node -> node)
  (es : list (string * node)) :
  assoc c (update_assoc c f es) = option_map f (assoc c es).
Proof.
  induction es as [|[k x] es IH]; simpl; [reflexivity|].
  destruct (String.eqb c k) eqn:E; simpl; rewrite E; [reflexivity|exact IH].
Qed.

Lemma set_at_get (cp : list string) :
  forall root nd, get root cp = Some nd -> set_at root cp nd = root.
Proof.
  induction cp as [|c cp IH]; intros root nd; simpl.
  - now intros [= ->].
  - destruct root as [b|es]; [discriminate|].
    destruct (assoc c es) as [ch|] eqn:E; [|discriminate].
    intros H. f_equal. apply (update_assoc_id c _ es ch E). now apply IH.
Qed.

Lemma get_set_at (cp : list string) :
  forall root old new,
    get root cp = Some old -> get (set_at root cp new) cp = Some new.
Proof.
  induction cp as [|c cp IH]; intros root old new; simpl; [reflexivity|].
  destruct root as [b|es]; [discriminate|].
  rewrite assoc_update_assoc.
  destruct (assoc c es) as [ch|]; [|discriminate]. simpl. apply IH.
Qed.

(** Unlinking an entry of the directory at [cp]. *)
Lemma delete_at_set_at (cp : list string) :
  forall root es n,
    delete_at (set_at root cp (Dir es)) (cp ++ [n])
    = set_at root cp (Dir (remove_assoc n es)).
Proof.
  induction cp as [|c cp IH]; intros root es n; [reflexivity|].
  destruct root as [b|es0]; [reflexivity|].
  cbn [set_at app].
  assert (E : forall l, delete_at (Dir l) (c :: cp ++ [n])
                        = Dir (update_assoc c
                                 (fun ch => delete_at ch (cp ++ [n])) l)).
  { intros l. destruct cp; reflexivity. }
  rewrite E. f_equal. rewrite update_assoc_twice.
  apply update_assoc_ext. intros v. apply IH.
Qed.

(** Replacing an entry of the directory at [cp]. *)
Lemma set_at_entry (cp : list string) :
  forall root es n new,
    set_at (set_at root cp (Dir es)) (cp ++ [n]) new
    = set_at root cp (Dir (update_assoc n (fun _ => new) es)).
Proof.
  induction cp as [|c cp IH]; intros root es n new; [reflexivity|].
  destruct root as [b|es0]; [reflexivity|].
  cbn [set_at app]. f_equal. rewrite update_assoc_twice.
  apply update_assoc_ext. intros v. apply IH.
Qed.

(** Replacing the directory at [cp] by a directory leaves every prefix
    of [cp] a directory. *)
Lemma get_set_at_prefix (q : list string) :
  forall root r old es,
    get root (q ++ r) = Some old ->
    exists es', get (set_at root (q ++ r) (Dir es)) q = Some (Dir es').
Proof.
  induction q as [|c q IH]; intros root r old es H.
  - simpl. destruct r as [|c r]; simpl; [now eexists|].
    destruct root as [b|es0]; [discriminate|]. now eexists.
  - cbn [app] in *. simpl in H. destruct root as [b|es0]; [discriminate|].
    destruct (assoc c es0) as [ch|] eqn:E; [|discriminate].
    cbn [set_at get]. rewrite assoc_update_assoc, E. simpl.
    now apply (IH ch r old).
Qed.

Lemma step_plain (acc : list string) (c : string) :
  String.eqb c ".." = false -> exists r, step acc c = (acc ++ r)%list.
Proof.
  intros H. unfold step. rewrite H.
  destruct (String.eqb c "" || String.eqb c ".")%bool.
  - exists []. now rewrite app_nil_r.
  - now exists [c].
Qed.

Lemma fold_step_plain (cs : list string) :
  forall acc,
    forallb (fun c => negb (String.eqb c "..")) cs = true ->
    exists r, fold_left step cs acc = (acc ++ r)%list.
Proof.
  induction cs as [|c cs IH]; intros acc H; simpl in *.
  - exists []. now rewrite app_nil_r.
  - apply andb_prop in H as [Hc H]. apply negb_true_iff in Hc.
    destruct (step_plain acc c Hc) as [r1 ->].
    destruct (IH (acc ++ r1)%list H) as [r2 ->].
    exists (r1 ++ r2)%list. now rewrite app_assoc.
Qed.

(** A path without [..] that led to the directory at [cp] still leads
    there when that directory is replaced by another. *)
Lemma walk_set_at (root : node) (cp : list string) (old : node)
  (es : list (string * node)) (cs : list string) :
  get root cp = Some old ->
  forall acc,
    forallb (fun c => negb (String.eqb c "..")) cs = true ->
    walk root acc cs = inr cp ->
    walk (set_at root cp (Dir es)) acc cs = inr cp.
Proof.
  intros Hg. induction cs as [|c cs IH]; intros acc Hp Hw; simpl in *.
  - assumption.
  - apply andb_prop in Hp as [Hc Hp]. apply negb_true_iff in Hc.
    destruct (get root acc) as [[b|es0]|] eqn:Ea; try discriminate.
    pose proof (walk_lexical root cs _ _ Hw) as Hcp.
    destruct (step_plain acc c Hc) as [r1 Hr1].
    destruct (fold_step_plain cs (step acc c) Hp) as [r2 Hr2].
    assert (Hpre : cp = (acc ++ (r1 ++ r2))%list).
    { rewrite Hcp, Hr2, Hr1. now rewrite app_assoc. }
    assert (Hd : exists es', get (set_at root cp (Dir es)) acc
                             = Some (Dir es')).
    { rewrite Hpre. apply (get_set_at_prefix acc root (r1 ++ r2) old).
      now rewrite <- Hpre. }
    destruct Hd as [es' ->]. now apply IH.
Qed.

Lemma resolve_set_at (root : node) (dir : string) (cp : list string)
  (old : node) (es : list (string * node)) :
  plain_path dir = true ->
  resolve root dir = inr cp ->
  get root cp = Some old ->
  resolve (set_at root cp (Dir es)) dir = inr cp.
Proof.
  unfold resolve, plain_path. intros Hp Hr Hg.
  destruct (String.eqb dir ""); [discriminate|].
  now apply (walk_set_at root cp old).
Qed.

Lemma plain_path_join (d n : string) :
  valid_name n = true -> plain_path d = true -> plain_path (join d n) = true.
Proof.
  intros Hn Hd. unfold plain_path in *.
  destruct (split_sep_join d n Hn) as (pre & -> & H).
  rewrite forallb_app. simpl.
  pose proof (valid_name_inv n Hn) as (_ & _ & _ & Hdd).
  apply String.eqb_neq in Hdd. rewrite Hdd. simpl. rewrite andb_true_r.
  destruct H as [E|[E|[_ ->]]]; [| |reflexivity].
  - now rewrite <- E.
  - rewrite E, forallb_app in Hd. now apply andb_prop in Hd as [? _].
Qed.

Lemma residue_node_dir (es : list (string * node)) :
  residue_node (Dir es)
  = match residue es with [] => None | l => Some (Dir l) end.
Proof.
  simpl.
  assert (E : (fix go (l : list (string * node)) : list (string * node) :=
                 match l with
                 | [] => []
                 | (n, c) :: t =>
                     match residue_node c with
                     | Some c' => (n, c') :: go t
                     | None => go t
                     end
                 end) es = residue es).
  { induction es as [|[n c] es IH]; simpl; [reflexivity|]. now rewrite IH. }
  now rewrite E.
Qed.

Lemma entry_trace_dir (p : string) (es : list (string * node)) :
  entry_trace p (Dir es)
  = (clear_trace p es
     ++ [EvRmdir p;
         match residue es with
         | [] => cleared_line p
         | _ :: _ => EvPrintExn (OSError "ENOTEMPTY" p)
         end])%list.
Proof.
  pose proof (residue_node_dir es) as Hr.
  cbn [entry_trace].
  assert (E : (fix go (l : list (string * node)) : list event :=
                 match l with
                 | [] => []
                 | (n, c) :: t => (entry_trace (join p n) c ++ go t)%list
                 end) es = clear_trace p es).
  { induction es as [|[n c] es' IH]; simpl; [reflexivity|]. now rewrite IH. }
  rewrite E. f_equal. f_equal. rewrite Hr. now destruct (residue es).
Qed.

Lemma residue_app (a b : list (string * node)) :
  residue (a ++ b) = (residue a ++ residue b)%list.
Proof.
  induction a as [|[n c] a IH]; simpl; [reflexivity|].
  destruct (residue_node c); simpl; now rewrite IH.
Qed.

Lemma residue_names (es : list (string * node)) (n : string) :
  In n (map fst (residue es)) -> In n (map fst es).
Proof.
  induction es as [|[k c] es IH]; simpl; [easy|].
  destruct (residue_node c); simpl; intuition.
Qed.

Lemma assoc_app_notin (n : string) (a b : list (string * node)) :
  ~ In n (map fst a) -> assoc n (a ++ b) = assoc n b.
Proof.
  induction a as [|[k c] a IH]; simpl; [reflexivity|]. intros H.
  destruct (String.eqb n k) eqn:E.
  - apply String.eqb_eq in E. subst. exfalso. apply H. now left.
  - apply IH. intros Hin. apply H. now right.
Qed.

Lemma remove_assoc_app_notin (n : string) (a b : list (string * node)) :
  ~ In n (map fst a) -> remove_assoc n (a ++ b) = (a ++ remove_assoc n b)%list.
Proof.
  induction a as [|[k c] a IH]; simpl; [reflexivity|]. intros H.
  destruct (String.eqb n k) eqn:E.
  - apply String.eqb_eq in E. subst. exfalso. apply H. now left.
  - rewrite IH; [reflexivity|]. intros Hin. apply H. now right.
Qed.

Lemma update_assoc_app_notin (n : string) (f : node -> node)
  (a b : list (string * node)) :
  ~ In n (map fst a) ->
  update_assoc n f (a ++ b) = (a ++ update_assoc n f b)%list.
Proof.
  induction a as [|[k c] a IH]; simpl; [reflexivity|]. intros H.
  destruct (String.eqb n k) eqn:E.
  - apply String.eqb_eq in E. subst. exfalso. apply H. now left.
  - rewrite IH; [reflexivity|]. intros Hin. apply H. now right.
Qed.

Lemma nodupb_app_head (a : list (string * node)) (n : string) (v : node)
  (b : list (string * node)) :
  nodupb (map fst (a ++ (n, v) :: b)) = true -> ~ In n (map fst a).
Proof.
  induction a as [|[k c] a IH]; simpl; [easy|].
  intros H. apply andb_prop in H as [Hk H]. intros [->|Hin].
  - apply negb_true_iff in Hk.
    assert (Hx : existsb (String.eqb n) (map fst (a ++ (n, v) :: b)) = true).
    { apply existsb_eqb_In. rewrite map_app. apply in_or_app. right. now left. }
    congruence.
  - now apply IH.
Qed.

Section ClearSpec.

Variable X : Type.

(** The state of one directory during a pass: the tree is [root] with
    the directory at [cp] replaced; [dir] is a path without [..] that
    led there at the start. *)
Variable root : node.
Variable dir : string.
Variable cp : list string.
Variable old : node.
Hypothesis Hplain : plain_path dir = true.
Hypothesis Hres : resolve root dir = inr cp.
Hypothesis Hget : get root cp = Some old.

Lemma entry_located (l : list (string * node)) (n : string) :
  valid_name n = true ->
  resolve (set_at root cp (Dir l)) (join dir n) = inr (cp ++ [n])%list
  /\ get (set_at root cp (Dir l)) (cp ++ [n]) = assoc n l.
Proof.
  intros Hn.
  pose proof (resolve_set_at root dir cp old l Hplain Hres Hget) as Hr.
  pose proof (get_set_at cp root old (Dir l) Hget) as Hg.
  split.
  - exact (resolve_join _ dir n cp l Hn Hr Hg).
  - rewrite get_app, Hg. simpl. now destruct (assoc n l).
Qed.

Lemma snoc_cons (n : string) :
  exists c t, (cp ++ [n])%list = c :: t.
Proof. destruct cp; simpl; eauto. Qed.

(** One entry of the listing, as the loop of [_clear_folder] treats
    it. *)
Lemma clear_entry_spec (recur : string -> M X unit)
  (pre post : list (string * node)) (n : string) (v : node)
  (x : X) (tr : list event) :
  valid_name n = true ->
  ~ In n (map fst pre) ->
  (forall sub (w1 : world X),
     v = Dir sub ->
     resolve (w_fs w1) (join dir n) = inr (cp ++ [n])%list ->
     get (w_fs w1) (cp ++ [n]) = Some (Dir sub) ->
     recur (join dir n) w1
     = (Ok tt, {| w_fs := set_at (w_fs w1) (cp ++ [n]) (Dir (residue sub));
                  w_ext := w_ext w1;
                  w_trace := w_trace w1 ++ clear_trace (join dir n) sub |})) ->
  clear_entry recur dir n
    {| w_fs := set_at root cp (Dir (pre ++ (n, v) :: post));
       w_ext := x; w_trace := tr |}
  = (Ok tt,
     {| w_fs := set_at root cp (Dir (pre ++ residue [(n, v)] ++ post));
        w_ext := x;
        w_trace := tr ++ entry_trace (join dir n) v |}).
Proof.
  intros Hn Hpre Hrec.
  destruct (entry_located (pre ++ (n, v) :: post) n Hn) as [Hrp Hgp].
  rewrite (assoc_app_notin n pre _ Hpre) in Hgp. simpl in Hgp.
  rewrite String.eqb_refl in Hgp.
  unfold clear_entry. cbv zeta.
  unfold try_except, bind at 1, os_path_isfile, query, fs_isfile, stat.
  cbn [w_fs]. rewrite Hrp, Hgp.
  destruct v as [busy|sub].
  - (* a regular file *)
    unfold bind, os_remove, update, fs_remove. cbn [w_fs w_ext w_trace].
    rewrite Hrp, Hgp. destruct busy.
    + unfold print_exn, log. cbn [w_fs w_ext w_trace].
      rewrite <- app_assoc. reflexivity.
    + unfold print, log. cbn [w_fs w_ext w_trace].
      rewrite delete_at_set_at, (remove_assoc_app_notin n pre _ Hpre).
      simpl. rewrite String.eqb_refl, <- app_assoc. reflexivity.
  - (* a directory *)
    unfold bind at 1. unfold bind at 1.
    rewrite (Hrec sub
               {| w_fs := set_at root cp (Dir (pre ++ (n, Dir sub) :: post));
                  w_ext := x; w_trace := tr |} eq_refl Hrp Hgp).
    cbn [w_fs w_ext w_trace].
    rewrite set_at_entry, (update_assoc_app_notin n _ pre _ Hpre).
    cbn [update_assoc]. rewrite String.eqb_refl.
    destruct (entry_located (pre ++ (n, Dir (residue sub)) :: post) n Hn)
      as [Hrp2 Hgp2].
    rewrite (assoc_app_notin n pre _ Hpre) in Hgp2. simpl in Hgp2.
    rewrite String.eqb_refl in Hgp2.
    unfold os_rmdir, update, fs_rmdir. cbn [w_fs w_ext w_trace].
    rewrite Hrp2, Hgp2, (basename_join dir n Hn).
    pose proof (valid_name_inv n Hn) as (_ & _ & Hdot & Hdd).
    apply String.eqb_neq in Hdot, Hdd. rewrite Hdot, Hdd. cbn [orb].
    rewrite entry_trace_dir. cbn [residue]. rewrite residue_node_dir.
    destruct (residue sub) as [|e0 rs] eqn:Ers.
    + destruct (snoc_cons n) as (c & t & Ecp). rewrite Ecp. rewrite <- Ecp.
      unfold print, log. cbn [w_fs w_ext w_trace].
      rewrite delete_at_set_at, (remove_assoc_app_notin n pre _ Hpre).
      simpl. rewrite String.eqb_refl, <- !app_assoc. reflexivity.
    + unfold print_exn, log. cbn [w_fs w_ext w_trace].
      rewrite <- !app_assoc. reflexivity.
Qed.

(** The loop over the listing: the entries before have left their
    residue, the entries after are as they were. *)
Lemma clear_loop_spec (recur : string -> M X unit)
  (rest : list (string * node)) :
  forall (done_ : list (string * node)) (x : X) (tr : list event),
    names_ok (Dir (done_ ++ rest)) = true ->
    nodupb (map fst (done_ ++ rest)) = true ->
    (forall n sub (w1 : world X),
       In (n, Dir sub) rest ->
       resolve (w_fs w1) (join dir n) = inr (cp ++ [n])%list ->
       get (w_fs w1) (cp ++ [n]) = Some (Dir sub) ->
       recur (join dir n) w1
       = (Ok tt, {| w_fs := set_at (w_fs w1) (cp ++ [n]) (Dir (residue sub));
                    w_ext := w_ext w1;
                    w_trace := w_trace w1 ++ clear_trace (join dir n) sub |})) ->
    for_each (map fst rest) (clear_entry recur dir)
      {| w_fs := set_at root cp (Dir (residue done_ ++ rest));
         w_ext := x; w_trace := tr |}
    = (Ok tt,
       {| w_fs := set_at root cp (Dir (residue done_ ++ residue rest));
          w_ext := x;
          w_trace := tr ++ clear_trace dir rest |}).
Proof.
  induction rest as [|[n v] rest IH]; intros done_ x tr Hok Hun Hrec.
  - simpl. unfold ret. now rewrite !app_nil_r.
  - cbn [map fst for_each]. unfold bind.
    assert (Hn : valid_name n = true).
    { apply (names_ok_entry (done_ ++ (n, v) :: rest) n v Hok).
      apply in_or_app. right. now left. }
    assert (Hpre : ~ In n (map fst (residue done_))).
    { intros Hin. apply residue_names in Hin.
      now apply (nodupb_app_head done_ n v rest Hun). }
    rewrite (clear_entry_spec recur (residue done_) rest n v x tr Hn Hpre).
    + assert (Hd : (done_ ++ (n, v) :: rest = (done_ ++ [(n, v)]) ++ rest)%list)
        by now rewrite <- app_assoc.
      rewrite Hd in Hok, Hun.
      specialize (IH (done_ ++ [(n, v)])%list x
                    (tr ++ entry_trace (join dir n) v)%list Hok Hun).
      rewrite residue_app, <- !app_assoc in IH. rewrite IH.
      * cbn [residue clear_trace].
        destruct (residue_node v); reflexivity.
      * intros n' sub w1 Hin. apply Hrec. now right.
    + intros sub w1 ->. apply Hrec. now left.
Qed.

End ClearSpec.

Section ClearPass.

Variable X : Type.

(** A pass with enough fuel over the directory a path without [..]
    leads to: the directory is left with its residue, the trace grows
    by the trace of its entries. *)
Lemma clear_folder_fuel_spec (fuel : nat) :
  forall (dir : string) (root : node) (cp : list string)
         (es : list (string * node)) (x : X) (tr : list event),
    plain_path dir = true ->
    resolve root dir = inr cp ->
    get root cp = Some (Dir es) ->
    names_ok (Dir es) = true ->
    names_unique (Dir es) = true ->
    hgt (Dir es) <= fuel ->
    clear_folder_fuel fuel dir {| w_fs := root; w_ext := x; w_trace := tr |}
    = (Ok tt, {| w_fs := set_at root cp (Dir (residue es));
                 w_ext := x;
                 w_trace := tr ++ clear_trace dir es |}).
Proof.
  induction fuel as [|fuel IH];
    intros dir root cp es x tr Hplain Hres Hget Hok Hun Hh.
  - simpl in Hh. lia.
  - rewrite clear_folder_fuel_unfold.
    unfold bind at 1, os_path_exists, query, fs_exists, stat. cbn [w_fs].
    rewrite Hres, Hget.
    unfold bind at 1, os_listdir, fs_listdir. cbn [w_fs]. rewrite Hres, Hget.
    pose proof (clear_loop_spec X root dir cp (Dir es) Hplain Hres Hget
                  (clear_folder_fuel fuel) es [] x tr Hok) as Hloop.
    cbn [app residue] in Hloop.
    rewrite (set_at_get cp root (Dir es) Hget) in Hloop.
    apply Hloop.
    + simpl in Hun. now apply andb_prop in Hun as [? _].
    + intros n sub [fs1 x1 tr1] Hin Hr1 Hg1. cbn [w_fs w_ext w_trace] in *.
      destruct (names_ok_entry es n (Dir sub) Hok Hin) as [Hn Hoksub].
      apply IH; try assumption.
      * now apply plain_path_join.
      * exact (names_unique_entry es n (Dir sub) Hun Hin).
      * assert (hgt (Dir sub) <= list_max (map (fun e => hgt (snd e)) es)).
        { apply list_max_In.
          now apply (in_map (fun e => hgt (snd e))) in Hin. }
        simpl in Hh. lia.
Qed.



End ClearPass.


(* ================================================================== *)
(** * Further properties of the class *)
(* ================================================================== *)

(** ** [_clear_folder]: edges, locality, repetition, counts *)

(** Two lists of names that part ways at some name. *)
Fixpoint diverges (cp q : list string) : bool :=
  match cp, q with
  | a :: cp', b :: q' => if String.eqb a b then diverges cp' q' else true
  | _, _ => false
  end.








Section ClearMore.

Variable X : Type.

(** The whole pass over the directory a path without [..] leads to. *)
Lemma clear_folder_final (w : world X) (dir : string) (cp : list string)
  (es : list (string * node)) :
  names_ok (Dir es) = true ->
  names_unique (Dir es) = true ->
  plain_path dir = true ->
  resolve (w_fs w) dir = inr cp ->
  get (w_fs w) cp = Some (Dir es) ->
  _clear_folder dir w
  = (Ok tt, {| w_fs := set_at (w_fs w) cp (Dir (residue es));
               w_ext := w_ext w;
               w_trace := w_trace w ++ clear_trace dir es |}).
Proof.
  intros Hok Hun Hplain Hres Hget. unfold _clear_folder.
  assert (Ew : w = {| w_fs := w_fs w; w_ext := w_ext w; w_trace := w_trace w |})
    by now destruct w.
  rewrite Ew at 2.
  apply clear_folder_fuel_spec; try assumption.
  pose proof (get_hgt cp _ _ Hget). lia.
Qed.

(** X1. At its top level [_clear_folder] has two edges.  On a path that
    does not exist it returns at once and does nothing.  On a regular
    file [os.path.exists] holds and [os.listdir], which is outside the
    [try], raises [NotADirectoryError] to the caller; nothing is
    removed. *)
Theorem clear_folder_on_missing_or_file (w : world X) (dir : string) :
  (fs_exists (w_fs w) dir = false -> _clear_folder dir w = (Ok tt, w))
  /\ (forall busy,
        stat (w_fs w) dir = Some (File busy) ->
        _clear_folder dir w = (Raise (NotADirectoryError dir), w)).
Proof.
  unfold _clear_folder. rewrite clear_folder_fuel_unfold. split.
  - intros H. unfold bind, os_path_exists, query. now rewrite H.
  - intros busy Hs. destruct (stat_resolve _ _ _ Hs) as (cp & Hr & Hg).
    unfold bind, os_path_exists, query, fs_exists, os_listdir, fs_listdir.
    now rewrite Hs, Hr, Hg.
Qed.

Lemma assoc_update_assoc_other (a b : string) (f : node -> node)
  (es : list (string * node)) :
  String.eqb a b = false -> assoc b (update_assoc a f es) = assoc b es.
Proof.
  intros Hab. induction es as [|[k v] es IH]; simpl; [reflexivity|].
  destruct (String.eqb a k) eqn:Eak; simpl.
  - apply String.eqb_eq in Eak. subst k.
    rewrite String.eqb_sym in Hab. now rewrite Hab.
  - destruct (String.eqb b k); [reflexivity|exact IH].
Qed.

(** Replacing the node at [cp] is not seen along a list of names that
    parts ways with [cp]. *)
Lemma get_set_at_diverges (cp : list string) :
  forall root new q,
    diverges cp q = true -> get (set_at root cp new) q = get root q.
Proof.
  induction cp as [|a cp IH]; intros root new q Hd; [discriminate|].
  destruct q as [|b q]; [discriminate|]. simpl in Hd.
  destruct root as [busy|es]; [reflexivity|]. cbn [set_at get].
  destruct (String.eqb a b) eqn:Eab.
  - apply String.eqb_eq in Eab. subst b. rewrite assoc_update_assoc.
    destruct (assoc a es) as [ch|]; [|reflexivity]. simpl. now apply IH.
  - now rewrite (assoc_update_assoc_other a b _ es Eab).
Qed.

(** X2. In a tree made of regular files and directories only (the
    trees of [node]: no symbolic link leads out of a directory), and
    for a directory path without [..], a pass of [_clear_folder]
    changes nothing outside the directory it is given: every node
    reached by a list of names that parts ways with the directory's is
    as it was, and so is the state outside the filesystem. *)
Theorem clear_folder_stays_inside (w : world X) (dir : string)
  (cp : list string) (es : list (string * node)) :
  wf_fs (w_fs w) = true ->
  plain_path dir = true ->
  resolve (w_fs w) dir = inr cp ->
  get (w_fs w) cp = Some (Dir es) ->
  w_ext (snd (_clear_folder dir w)) = w_ext w
  /\ forall q, diverges cp q = true ->
       get (w_fs (snd (_clear_folder dir w))) q = get (w_fs w) q.
Proof.
  intros Hwf Hplain Hres Hget. destruct (wf_fs_inv _ Hwf) as [Hok Hun].
  rewrite (clear_folder_final w dir cp es
             (names_ok_get cp _ _ Hok Hget)
             (names_unique_get cp _ _ Hun Hget) Hplain Hres Hget).
  cbn [snd w_fs w_ext]. split; [reflexivity|].
  intros q Hd. now apply get_set_at_diverges.
Qed.

End ClearMore.

Lemma clear_folder_on_missing_or_file_witness :
  _clear_folder "tmp/input_ds_Y" (start sample_fs) = (Ok tt, start sample_fs)
  /\ _clear_folder "c.wav" (start sample_fs)
     = (Raise (NotADirectoryError "c.wav"), start sample_fs).
Proof.
  destruct (clear_folder_on_missing_or_file unit (start sample_fs)
              "tmp/input_ds_Y") as [Hm _].
  destruct (clear_folder_on_missing_or_file unit (start sample_fs) "c.wav")
    as [_ Hf].
  split; [exact (Hm eq_refl)|exact (Hf false eq_refl)].
Defined.

(** Clearing the cache of the sample tree leaves the query directory as
    it was. *)
Lemma clear_folder_stays_inside_witness :
  wf_fs sample_fs = true
  /\ get (w_fs (snd (_clear_folder "tmp/input_ds_X" (start sample_fs)))) ["q"]
     = Some (Dir [("a", File false); ("a_b", File false)])
  /\ get (w_fs (snd (_clear_folder "tmp/input_ds_X" (start sample_fs))))
       ["tmp"; "input_ds_X"]
     = Some (Dir []).
Proof.
  split; [reflexivity|].
  destruct (clear_folder_stays_inside unit (start sample_fs) "tmp/input_ds_X"
              ["tmp"; "input_ds_X"] _ eq_refl eq_refl eq_refl eq_refl)
    as [_ H].
  split; [exact (H ["q"] eq_refl)|reflexivity].
Defined.







Section ClearAgain.

Variable X : Type.



End ClearAgain.



(** ** [_prepare_dataset]: the cache directory, shards, reuse *)

Definition mkdir_event (ev : event) : bool :=
  match ev with EvMkdir _ => true | _ => false end.

Lemma rcut_none (c : ascii) (s : string) :
  rcut c s = None -> has_char c s = false.
Proof.
  induction s as [|d s IH]; simpl; [reflexivity|].
  destruct (rcut c s) as [[pre suf]|]; [discriminate|].
  destruct (Ascii.eqb d c); [discriminate|]. intros _. now apply IH.
Qed.

(** [rcut] cuts at the last [c]: what follows it holds no [c]. *)
Lemma rcut_some (c : ascii) (s pre suf : string) :
  rcut c s = Some (pre, suf) ->
  s = pre ++ suf /\ exists t, suf = String c t /\ has_char c t = false.
Proof.
  revert pre suf. induction s as [|d s IH]; intros pre suf; simpl;
    [discriminate|].
  destruct (rcut c s) as [[pre' suf']|] eqn:E.
  - intros [= <- <-]. destruct (IH pre' suf' eq_refl) as (-> & t & -> & Ht).
    split; [reflexivity|]. now exists t.
  - destruct (Ascii.eqb d c) eqn:Ed; [|discriminate].
    intros [= <- <-]. apply Ascii.eqb_eq in Ed. subst d.
    split; [reflexivity|]. exists s. split; [reflexivity|].
    now apply rcut_none.
Qed.

Lemma rcut_app (c : ascii) (a t : string) :
  has_char c t = false -> rcut c (a ++ String c t) = Some (a, String c t).
Proof.
  intros Ht. induction a as [|d a IH]; simpl.
  - destruct (rcut c t) as [[pre suf]|] eqn:E.
    + apply rcut_some in E as (-> & t' & -> & _).
      rewrite has_char_app in Ht. simpl in Ht.
      rewrite Ascii.eqb_refl, orb_true_r in Ht. discriminate.
    + now rewrite Ascii.eqb_refl.
  - now rewrite IH.
Qed.

(** The names [os.path.splitext] gives the extension [.pt]: a stem that
    is not made of dots only, followed by [.pt]. *)
Lemma ext_of_pt (n : string) :
  has_char sep n = false ->
  (ext_of n = ".pt" <->
   exists stem, n = stem ++ ".pt" /\ all_char extsep stem = false).
Proof.
  intros Hn. unfold ext_of, basename. rewrite (split_sep_plain n Hn).
  cbn [last]. split.
  - destruct (rcut extsep n) as [[pre suf]|] eqn:E; [|discriminate].
    destruct (all_char extsep pre) eqn:Ea; [discriminate|].
    intros ->. apply rcut_some in E as (-> & _). now exists pre.
  - intros (stem & -> & Ha).
    change (stem ++ ".pt") with (stem ++ String extsep "pt").
    rewrite rcut_app by reflexivity. now rewrite Ha.
Qed.

Section PrepareMore.

Variables X Obj : Type.
Variable C : collaborators X Obj.
Variable self : VOXNOT Obj.

(** X5. [_prepare_dataset] never creates the cache directory.  When the
    path is not an existing directory, the [os.listdir] of its first
    line raises, with the flag on or off, and the world is left as it
    was; when it is one, the [os.mkdir] of the rebuild branch is not
    reached.  No run calls [os.mkdir]. *)
Theorem prepare_dataset_never_creates_cache (w : world X) (delete : bool)
  (input_dir d : string) :
  (fs_isdir (w_fs w) d = false ->
   _prepare_dataset C self delete input_dir d w
   = (Raise (FileNotFoundError d), w)
   \/ _prepare_dataset C self delete input_dir d w
      = (Raise (NotADirectoryError d), w))
  /\ existsb mkdir_event
       (new_events w (snd (_prepare_dataset C self delete input_dir d w)))
     = false.
Proof.
  split.
  - intros Hd.
    destruct (fs_listdir (w_fs w) d) as [e|names] eqn:El.
    + rewrite (prepare_dataset_unlistable X Obj C self w delete input_dir d e El).
      unfold fs_listdir in El.
      destruct (resolve (w_fs w) d) as [[|]|cp] eqn:Er; simpl in El.
      * injection El as <-. now left.
      * injection El as <-. now right.
      * destruct (get (w_fs w) cp) as [[b|es]|]; try discriminate;
          injection El as <-; [now right|now left].
    + apply listdir_ok_isdir in El. congruence.
  - destruct (_prepare_dataset C self delete input_dir d w) as [r w'] eqn:E.
    cbn [snd].
    pose proof (mkdir_branch_unreachable X Obj C self w delete input_dir d r w' E)
      as Hno.
    assert (Hev : emits (fun ev => mkdir_event ev = true -> ev = EvMkdir d)
              (_prepare_dataset C self delete input_dir d)).
    { intros w0 r0 w0' E0. rewrite prepare_dataset_stages in E0.
      revert w0 r0 w0' E0. apply emits_bind.
      - unfold preparation_stage. apply emits_bind; [apply emits_listdir|].
        intros names. apply emits_bind.
        + induction names as [|n names IH]; simpl; [apply emits_ret|].
          apply emits_bind; [apply emits_is_shard|].
          intros [|]; [apply emits_ret|apply IH].
        + intros b. destruct (delete || negb b)%bool; [|apply emits_ret].
          unfold rebuild_cache.
          apply emits_bind;
            [apply (emits_log X _ _ (fun _ => Ok tt)); discriminate|].
          intros _. apply emits_bind; [apply emits_query|]. intros isd.
          apply emits_bind.
          * destruct isd; [|now apply emits_update].
            apply (emits_weaken X (fun ev => clear_folder_event ev = true));
              [|apply emits_clear_folder].
            intros [] H; discriminate.
          * intros _. apply emits_bind;
              [apply emits_call; discriminate|].
            intros tool. apply emits_call; discriminate.
      - intros _.
        apply (emits_weaken X
                 (fun ev => reclaim_event ev = true \/ load_event ev = true));
          [|apply emits_after_stage].
        intros [] [H|H]; discriminate. }
    destruct (Hev _ _ _ E) as (evs & Ht & Hf).
    rewrite (new_events_app X w w' evs Ht) in *.
    destruct (existsb mkdir_event evs) eqn:Ex; [|reflexivity].
    exfalso. apply existsb_exists in Ex as (ev & Hin & Hm).
    rewrite Forall_forall in Hf. rewrite (Hf ev Hin Hm) in Hin.
    now apply Hno.
Qed.

(** X6. What the scans of [_prepare_dataset] take for a shard: an entry
    of the cache directory that is a regular file and whose name is a
    stem, not empty and not made of dots only, followed by [.pt].  A
    directory named [x.pt] and the files [.pt] and [..pt] are not
    shards. *)
Theorem shard_is_regular_file_named_pt (w : world X) (d : string)
  (es : list (string * node)) (n : string) (v : node) :
  wf_fs (w_fs w) = true ->
  stat (w_fs w) d = Some (Dir es) ->
  In (n, v) es ->
  exists b,
    is_shard d n w = (Ok b, w)
    /\ (b = true <->
        is_file v = true
        /\ exists stem, n = stem ++ ".pt" /\ all_char extsep stem = false).
Proof.
  intros Hwf Hs Hin.
  destruct (stat_entry _ _ _ _ _ Hwf Hs Hin) as [Hn Hst].
  exists (shard_entry (n, v)). split; [now apply is_shard_entry|].
  unfold shard_entry. cbn [fst snd].
  pose proof (valid_name_inv n Hn) as (_ & Hp & _).
  rewrite andb_true_iff, String.eqb_eq. now rewrite (ext_of_pt n Hp).
Qed.

End PrepareMore.

Lemma prepare_dataset_never_creates_cache_witness :
  fs_isdir sample_fs "c.wav" = false
  /\ _prepare_dataset quiet toy_self true "corpus" "c.wav" (start sample_fs)
     = (Raise (NotADirectoryError "c.wav"), start sample_fs)
  /\ existsb mkdir_event
       (new_events (start sample_fs)
          (snd (_prepare_dataset quiet toy_self true "corpus" "tmp/input_ds_X"
                  (start sample_fs))))
     = false.
Proof.
  destruct (prepare_dataset_never_creates_cache unit nat quiet toy_self
              (start sample_fs) true "corpus" "c.wav") as [H1 _].
  destruct (prepare_dataset_never_creates_cache unit nat quiet toy_self
              (start sample_fs) true "corpus" "tmp/input_ds_X") as [_ H2].
  split; [reflexivity|]. split; [|exact H2].
  destruct (H1 eq_refl) as [H|H]; [discriminate H|exact H].
Defined.

(** In a cache with [a.pt], the hidden file [.pt] and the directory
    [old.pt], only [a.pt] is a shard. *)
Definition odd_cache : node :=
  Dir [("ds", Dir [("a.pt", File false); (".pt", File false);
                   ("old.pt", Dir []); ("b.PT", File false)])].

Lemma shard_is_regular_file_named_pt_witness :
  wf_fs odd_cache = true
  /\ fst (is_shard "ds" "a.pt" (start odd_cache)) = Ok true
  /\ fst (is_shard "ds" ".pt" (start odd_cache)) = Ok false
  /\ fst (is_shard "ds" "old.pt" (start odd_cache)) = Ok false.
Proof.
  split; [reflexivity|].
  destruct (shard_is_regular_file_named_pt unit (start odd_cache) "ds" _
              "a.pt" (File false) eq_refl eq_refl (or_introl eq_refl))
    as (b & E & Hb).
  rewrite E. cbn [fst]. split; [|split; reflexivity].
  f_equal. apply Hb. split; [reflexivity|]. now exists "a".
Defined.

Section ShardsMore.

Variables X Obj : Type.
Variable C : collaborators X Obj.
Variable self : VOXNOT Obj.

Lemma bind_ok_inv {A B : Type} (m : M X A) (k : A -> M X B) (w w' : world X)
  (b : B) :
  bind m k w = (Ok b, w') ->
  exists a w1, m w = (Ok a, w1) /\ k a w1 = (Ok b, w').
Proof.
  unfold bind. destruct (m w) as [[a|e|] w1]; try discriminate.
  intros H. now exists a, w1.
Qed.

Lemma load_shards_app (d : string) (a b : list string) :
  forall (acc : list (list Obj)) (w : world X),
    load_shards C self d (a ++ b) acc w
    = bind (load_shards C self d a acc)
        (fun acc' => load_shards C self d b acc') w.
Proof.
  induction a as [|n a IH]; intros acc w; [reflexivity|].
  cbn [app load_shards]. unfold bind.
  destruct (is_shard d n w) as [[[|]|e|] w1]; try reflexivity.
  - destruct (VOXNOTDataset C (join d n) (device self) w1) as [[ds|e|] w2];
      try reflexivity.
    exact (IH _ _).
  - exact (IH _ _).
Qed.

(** Loading shards reads the filesystem and does not change it. *)
Lemma load_shards_fs (d : string) (names : list string) :
  forall (acc : list (list Obj)) (w : world X) r w',
    load_shards C self d names acc w = (r, w') -> w_fs w' = w_fs w.
Proof.
  induction names as [|n names IH]; intros acc w r w' E.
  - now injection E as _ <-.
  - cbn [load_shards] in E. unfold bind at 1, is_shard, bind, os_path_isfile,
      query, ret in E.
    destruct (fs_isfile (w_fs w) (join d n)
              && String.eqb (snd (splitext (join d n))) ".pt")%bool.
    + unfold VOXNOTDataset in E.
      destruct (dataset_init C (join d n) (device self) (w_fs w) (w_ext w))
        as [[e|ds] x'].
      * now injection E as _ <-.
      * apply IH in E. exact E.
    + now apply IH in E.
Qed.

Lemma compose_shards_fs (d : string) (w : world X) r w' :
  compose_shards C self d w = (r, w') -> w_fs w' = w_fs w.
Proof.
  unfold compose_shards, bind at 1, os_listdir.
  destruct (fs_listdir (w_fs w) d) as [e|names]; [now intros [= _ <-]|].
  unfold bind.
  destruct (load_shards C self d names [] w) as [[ds|e|] w1] eqn:El;
    apply load_shards_fs in El.
  - destruct (ConcatDataset_init ds); intros [= _ <-]; exact El.
  - intros [= _ <-]. exact El.
  - intros [= _ <-]. exact El.
Qed.

Lemma listdir_ok_stat (root : node) (d : string) (names : list string) :
  fs_listdir root d = inr names ->
  exists es, stat root d = Some (Dir es) /\ names = map fst es.
Proof.
  unfold fs_listdir, stat. destruct (resolve root d) as [e|cp]; [discriminate|].
  destruct (get root cp) as [[b|es]|]; try discriminate.
  intros [= <-]. now exists es.
Qed.

(** X7. A shard that cannot be loaded aborts the preparation: the error
    of [VOXNOTDataset] reaches the caller of [_prepare_dataset], the
    shards listed before it have been loaded, those after it are not
    touched, and no dataset is returned. *)
Theorem failing_shard_aborts_preparation (w : world X) (d : string)
  (pre post : list (string * node)) (n : string) (busy : bool)
  (recs : string -> list Obj) (e : exn) :
  wf_fs (w_fs w) = true ->
  stat (w_fs w) d = Some (Dir (pre ++ (n, File busy) :: post)) ->
  shard_entry (n, File busy) = true ->
  (forall m x, In m (shard_names pre) ->
     fst (dataset_init C (join d m) (device self) (w_fs w) x) = inr (recs m)) ->
  (forall x,
     fst (dataset_init C (join d n) (device self) (w_fs w) x) = inl e) ->
  fst (compose_shards C self d w) = Raise e
  /\ new_events w (snd (compose_shards C self d w))
     = map (fun m => EvDatasetInit (join d m)) (shard_names pre ++ [n])
  /\ (forall w0 delete input_dir,
        bind (preparation_stage C self delete input_dir d)
          (fun _ => clear_mem C) w0 = (Ok tt, w) ->
        fst (_prepare_dataset C self delete input_dir d w0) = Raise e).
Proof.
  intros Hwf Hs Hsh Hgood Hbad.
  assert (Hent : forall m v, In (m, v) (pre ++ (n, File busy) :: post) ->
                   valid_name m = true
                   /\ stat (w_fs w) (join d m) = Some v).
  { intros m v Hin. exact (stat_entry _ _ _ _ _ Hwf Hs Hin). }
  destruct (load_shards_spec X Obj C self d recs pre w []) as (w1 & E1 & Hfs1 & Ht1).
  { intros m v Hin. apply Hent. apply in_or_app. now left. }
  { exact Hgood. }
  destruct (Hent n (File busy)) as [Hn Hst];
    [apply in_or_app; right; now left|].
  assert (Ec : compose_shards C self d w
               = (Raise e,
                  {| w_fs := w_fs w1;
                     w_ext := snd (dataset_init C (join d n) (device self)
                                     (w_fs w1) (w_ext w1));
                     w_trace := w_trace w1 ++ [EvDatasetInit (join d n)] |})).
  { unfold compose_shards, bind at 1, os_listdir.
    rewrite (listdir_dir _ _ _ Hs), map_app. cbn [map fst].
    unfold bind at 1. rewrite load_shards_app. unfold bind at 1.
    rewrite E1. cbn [load_shards]. unfold bind at 1.
    rewrite <- Hfs1 in Hst. rewrite (is_shard_entry X w1 d n _ Hn Hst), Hsh.
    unfold bind at 1, VOXNOTDataset.
    pose proof (Hbad (w_ext w1)) as Hb. rewrite <- Hfs1 in Hb.
    destruct (dataset_init C (join d n) (device self) (w_fs w1) (w_ext w1))
      as [r0 x']. cbn [fst snd] in *. now subst r0. }
  split; [now rewrite Ec|]. split.
  - rewrite Ec. cbn [snd]. apply new_events_app. cbn [w_trace].
    rewrite Ht1, map_app, <- app_assoc. reflexivity.
  - intros w0 delete input_dir E0. rewrite prepare_dataset_stages.
    rewrite <- bind_assoc. unfold bind at 1. now rewrite E0, Ec.
Qed.

(** X8. [_prepare_dataset] never returns an empty dataset: what it
    returns holds at least one shard, with one running total per shard.
    A cache directory without a shard, for one after a rebuild that
    produced none, ends the call in the [AssertionError] of
    [ConcatDataset]. *)
Theorem prepared_dataset_has_a_shard (w : world X) (delete : bool)
  (input_dir d : string) :
  (forall c w',
     _prepare_dataset C self delete input_dir d w = (Ok c, w') ->
     datasets c <> []
     /\ length (cumulative_sizes c) = length (datasets c)
     /\ ConcatDataset_len c = total (datasets c))
  /\ (forall es,
        wf_fs (w_fs w) = true ->
        stat (w_fs w) d = Some (Dir es) ->
        has_shard es = false ->
        compose_shards C self d w
        = (Raise (AssertionError "datasets should not be an empty iterable"),
           w)).
Proof.
  split.
  - intros c w' E. rewrite prepare_dataset_stages in E.
    apply bind_ok_inv in E as (_ & w1 & _ & E).
    apply bind_ok_inv in E as (_ & w2 & _ & E).
    unfold compose_shards in E.
    apply bind_ok_inv in E as (names & w3 & _ & E).
    apply bind_ok_inv in E as (ds & w4 & _ & E).
    destruct (ConcatDataset_init ds) as [e|c0] eqn:Ei; [discriminate|].
    injection E as -> _.
    pose proof (ConcatDataset_len_total Obj ds c Ei) as Hlen.
    destruct (init_inv Obj ds c Ei) as (Hne & Hd & Hc).
    rewrite Hd, Hc. split; [assumption|]. split; [|assumption].
    unfold cumsum. generalize 0%Z. clear.
    induction ds as [|x ds IH]; intros s; simpl; [reflexivity|].
    now rewrite IH.
  - intros es Hwf Hs Hn. now apply compose_shards_no_shard with (es := es).
Qed.

(** X9. A preparation that returned is reused by the next call with the
    flag off: as long as the tree it left is well formed, that call
    clears nothing and runs no extraction; it only reclaims memory and
    loads the shards again. *)
Theorem prepare_dataset_reuses_its_result (w w' : world X) (delete : bool)
  (input_dir input_dir' d : string) (c : ConcatDataset Obj) :
  _prepare_dataset C self delete input_dir d w = (Ok c, w') ->
  wf_fs (w_fs w') = true ->
  _prepare_dataset C self false input_dir' d w'
  = bind (clear_mem C) (fun _ => compose_shards C self d) w'
  /\ existsb clearing_event
       (new_events w' (snd (_prepare_dataset C self false input_dir' d w')))
     = false
  /\ existsb extraction_event
       (new_events w' (snd (_prepare_dataset C self false input_dir' d w')))
     = false.
Proof.
  intros E Hwf. rewrite prepare_dataset_stages in E.
  apply bind_ok_inv in E as (_ & w1 & _ & E).
  apply bind_ok_inv in E as (_ & w2 & _ & E).
  pose proof (compose_shards_fs d w2 _ _ E) as Hfs.
  assert (Hes : exists es, stat (w_fs w') d = Some (Dir es)
                           /\ has_shard es = true).
  { destruct (fs_listdir (w_fs w2) d) as [e|names] eqn:El.
    - unfold compose_shards, bind, os_listdir in E. rewrite El in E.
      discriminate.
    - apply listdir_ok_stat in El as (es & Hs & _). exists es.
      rewrite Hfs. split; [assumption|].
      destruct (has_shard es) eqn:Eh; [reflexivity|].
      rewrite Hfs in Hwf.
      rewrite (compose_shards_no_shard X Obj C self w2 d es Hwf Hs Eh) in E.
      discriminate. }
  destruct Hes as (es & Hs & Hsh).
  assert (Heq : _prepare_dataset C self false input_dir' d w'
                = bind (clear_mem C) (fun _ => compose_shards C self d) w').
  { rewrite prepare_dataset_stages. unfold bind at 1.
    rewrite (stage_of_dir X Obj C self w' false input_dir' d es Hwf Hs), Hsh.
    reflexivity. }
  split; [assumption|]. rewrite Heq.
  destruct (bind (clear_mem C) (fun _ => compose_shards C self d) w')
    as [r2 w2'] eqn:E2. cbn [snd].
  destruct (emits_after_stage X Obj C self d w' r2 w2' E2) as (evs & Ht & Hev).
  rewrite (new_events_app X w' w2' evs Ht).
  split; apply (Forall_existsb_false _ _ evs) with (2 := Hev);
    intros [] [H|H]; try discriminate; reflexivity.
Qed.

End ShardsMore.

(** The second shard of the sample cache is corrupt. *)
Definition corrupt_second : collaborators unit nat :=
  toy (fun fs => inr fs)
    (fun p => if String.eqb p "tmp/input_ds_X/b.pt"
              then inl (CollaboratorError 7) else inr [10; 11])
    (fun _ fs => fs).

Lemma failing_shard_aborts_preparation_witness :
  wf_fs sample_fs = true
  /\ _prepare_dataset corrupt_second toy_self false "corpus" "tmp/input_ds_X"
       (start sample_fs)
     = (Raise (CollaboratorError 7),
        {| w_fs := sample_fs; w_ext := tt;
           w_trace := [EvGcCollect; EvEmptyCache; EvEmptyCache;
                       EvDatasetInit "tmp/input_ds_X/a.pt";
                       EvDatasetInit "tmp/input_ds_X/b.pt"] |}).
Proof.
  split; [reflexivity|].
  destruct (failing_shard_aborts_preparation unit nat corrupt_second toy_self
              {| w_fs := sample_fs; w_ext := tt;
                 w_trace := [EvGcCollect; EvEmptyCache; EvEmptyCache] |}
              "tmp/input_ds_X"
              [("a.pt", File false); ("notes.txt", File false)]
              [("sub", Dir [("c.pt", File false)])]
              "b.pt" false (fun _ => [10; 11]) (CollaboratorError 7)
              eq_refl eq_refl eq_refl)
    as (_ & _ & H).
  - intros m x [<-|[]]. reflexivity.
  - intros x. reflexivity.
  - specialize (H (start sample_fs) false "corpus" eq_refl).
    destruct (_prepare_dataset corrupt_second toy_self false "corpus"
                "tmp/input_ds_X" (start sample_fs)) as [r w1] eqn:E.
    cbn [fst] in H. subst r. vm_compute in E. now injection E as <-.
Defined.

(** An empty cache that the tool leaves empty. *)
Definition empty_cache_fs : node := Dir [("ds", Dir [("readme", File false)])].

Lemma prepared_dataset_has_a_shard_witness :
  wf_fs empty_cache_fs = true
  /\ compose_shards quiet toy_self "ds" (start empty_cache_fs)
     = (Raise (AssertionError "datasets should not be an empty iterable"),
        start empty_cache_fs)
  /\ fst (_prepare_dataset quiet toy_self true "corpus" "ds"
            (start empty_cache_fs))
     = Raise (AssertionError "datasets should not be an empty iterable").
Proof.
  destruct (prepared_dataset_has_a_shard unit nat quiet toy_self
              (start empty_cache_fs) true "corpus" "ds") as [_ H].
  split; [reflexivity|]. split; [|reflexivity].
  exact (H _ eq_refl eq_refl eq_refl).
Defined.

Lemma prepare_dataset_reuses_its_result_witness :
  wf_fs sample_fs = true
  /\ existsb clearing_event
       (new_events
          (snd (_prepare_dataset quiet toy_self false "corpus"
                  "tmp/input_ds_X" (start sample_fs)))
          (snd (_prepare_dataset quiet toy_self false "again"
                  "tmp/input_ds_X"
                  (snd (_prepare_dataset quiet toy_self false "corpus"
                          "tmp/input_ds_X" (start sample_fs))))))
     = false.
Proof.
  split; [reflexivity|].
  destruct (_prepare_dataset quiet toy_self false "corpus" "tmp/input_ds_X"
              (start sample_fs)) as [r w1] eqn:E.
  assert (Hr : exists c, r = Ok c).
  { vm_compute in E. injection E as <- _. eexists. reflexivity. }
  destruct Hr as [c ->]. cbn [snd].
  assert (Hwf : wf_fs (w_fs w1) = true).
  { vm_compute in E. injection E as _ <-. reflexivity. }
  exact (proj1 (proj2 (prepare_dataset_reuses_its_result unit nat quiet toy_self
                         (start sample_fs) w1 false "corpus" "again"
                         "tmp/input_ds_X" c E Hwf))).
Defined.

Section TrainMore.

Variables X Obj : Type.
Variable C : collaborators X Obj.
Variable self : VOXNOT Obj.

Local Open Scope py_scope.

(** Everything [train] does before it announces the copy. *)
Definition train_until_copy (delete_last_prepared_data : bool)
  (input_query_dir input_reffer_dir temp_dir : string)
  (training_hyper_params training_env : Obj) (training_name : string)
  : M X string :=
  dataset_X <- _prepare_dataset C self delete_last_prepared_data
                 input_query_dir (join temp_dir "input_ds_X") ;;
  dataset_Y <- _prepare_dataset C self delete_last_prepared_data
                 input_reffer_dir (join temp_dir "input_ds_Y") ;;
  call (EvSetTrainParams training_name)
    (model_set_train_params C (model_instance self) training_hyper_params
       training_env dataset_X dataset_Y training_name) ;;;
  call EvTrain (model_train C (model_instance self)) ;;;
  call EvBestModelPath
    (model_get_last_best_model_path C (model_instance self)).

Lemma train_split (delete : bool)
  (input_query_dir input_reffer_dir temp_dir output_dir : string)
  (training_hyper_params training_env : Obj) (training_name : string)
  (w : world X) :
  train C self delete input_query_dir input_reffer_dir temp_dir output_dir
    training_hyper_params training_env training_name w
  = bind (train_until_copy delete input_query_dir input_reffer_dir temp_dir
            training_hyper_params training_env training_name)
      (fun model_path =>
         let model_dest_path := join output_dir (training_name ++ ".pt") in
         print ("Copy model " ++ model_path ++ " to " ++ model_dest_path) ;;;
         call (EvCopy2 model_path model_dest_path)
           (shutil_copy2 C model_path model_dest_path)) w.
Proof.
  unfold train, train_until_copy.
  unfold bind.
  destruct (_prepare_dataset C self delete input_query_dir
              (join temp_dir "input_ds_X") w) as [[dX|e|] wA];
    try reflexivity.
  destruct (_prepare_dataset C self delete input_reffer_dir
              (join temp_dir "input_ds_Y") wA) as [[dY|e|] wB];
    try reflexivity.
  destruct (call (EvSetTrainParams training_name)
              (model_set_train_params C (model_instance self)
                 training_hyper_params training_env dX dY training_name) wB)
    as [[[]|e|] wC]; try reflexivity.
  destruct (call EvTrain (model_train C (model_instance self)) wC)
    as [[[]|e|] wD]; reflexivity.
Qed.

Lemma emits_train_until_copy (delete : bool)
  (input_query_dir input_reffer_dir temp_dir : string)
  (training_hyper_params training_env : Obj) (training_name : string) :
  emits (fun ev => copy_event ev = false)
    (train_until_copy delete input_query_dir input_reffer_dir temp_dir
       training_hyper_params training_env training_name).
Proof.
  unfold train_until_copy.
  apply emits_bind; [apply emits_prepare_dataset|]. intros dX.
  apply emits_bind; [apply emits_prepare_dataset|]. intros dY.
  apply emits_bind; [now apply emits_call|]. intros _.
  apply emits_bind; [now apply emits_call|]. intros _.
  now apply emits_call.
Qed.

(** X10. [train] hands nothing to [shutil.copy2] unless both corpora
    were prepared, the model was configured, training returned and the
    best checkpoint was reported: when any of these raises, the error
    reaches the caller and no copy is attempted.  When a copy is
    attempted it is the only one, and its source is the reported
    path. *)
Theorem train_copies_only_after_training (delete : bool)
  (input_query_dir input_reffer_dir temp_dir output_dir : string)
  (training_hyper_params training_env : Obj) (training_name : string)
  (w : world X) :
  (forall e w',
     train_until_copy delete input_query_dir input_reffer_dir temp_dir
       training_hyper_params training_env training_name w = (Raise e, w') ->
     train C self delete input_query_dir input_reffer_dir temp_dir output_dir
       training_hyper_params training_env training_name w = (Raise e, w')
     /\ existsb copy_event (new_events w w') = false)
  /\ (existsb copy_event
        (new_events w
           (snd (train C self delete input_query_dir input_reffer_dir
                   temp_dir output_dir training_hyper_params training_env
                   training_name w))) = true ->
      exists dataset_X wA dataset_Y wB wC wD model_path wE,
        _prepare_dataset C self delete input_query_dir
          (join temp_dir "input_ds_X") w = (Ok dataset_X, wA)
        /\ _prepare_dataset C self delete input_reffer_dir
             (join temp_dir "input_ds_Y") wA = (Ok dataset_Y, wB)
        /\ call (EvSetTrainParams training_name)
             (model_set_train_params C (model_instance self)
                training_hyper_params training_env dataset_X dataset_Y
                training_name) wB = (Ok tt, wC)
        /\ call EvTrain (model_train C (model_instance self)) wC
           = (Ok tt, wD)
        /\ call EvBestModelPath
             (model_get_last_best_model_path C (model_instance self)) wD
           = (Ok model_path, wE)
        /\ filter copy_event
             (new_events w
                (snd (train C self delete input_query_dir input_reffer_dir
                        temp_dir output_dir training_hyper_params
                        training_env training_name w)))
           = [EvCopy2 model_path (join output_dir (training_name ++ ".pt"))]).
Proof.
  split.
  - intros e w' E. rewrite train_split. unfold bind at 1. rewrite E.
    split; [reflexivity|].
    destruct (emits_train_until_copy _ _ _ _ _ _ _ _ _ _ E) as (evs & Ht & Hev).
    rewrite (new_events_app X w w' evs Ht).
    now apply (Forall_existsb_false (fun ev => copy_event ev = false)).
  - pose proof (train_split delete input_query_dir input_reffer_dir temp_dir
                  output_dir training_hyper_params training_env training_name
                  w) as Hs.
    unfold bind at 1 in Hs.
    destruct (train_until_copy delete input_query_dir input_reffer_dir
                temp_dir training_hyper_params training_env training_name w)
      as [[model_path|e|] wE] eqn:E;
      destruct (emits_train_until_copy _ _ _ _ _ _ _ _ _ _ E)
        as (evs & Ht & Hev); rewrite Hs; clear Hs.
    + intros _. unfold train_until_copy in E.
      apply bind_ok_inv in E as (dataset_X & wA & EX & E).
      apply bind_ok_inv in E as (dataset_Y & wB & EY & E).
      apply bind_ok_inv in E as ([] & wC & ES & E).
      apply bind_ok_inv in E as ([] & wD & ET & E).
      exists dataset_X, wA, dataset_Y, wB, wC, wD, model_path, wE.
      repeat (split; [assumption|]).
      unfold bind, print, call, log. cbn [w_fs w_ext w_trace].
      destruct (shutil_copy2 C model_path
                  (join output_dir (training_name ++ ".pt")) (w_fs wE)
                  (w_ext wE)) as [[r0 fs'] x']. cbn [snd].
      match goal with
      | |- context [new_events w ?w1] =>
          rewrite (new_events_app X w w1
                     (evs ++ [EvPrint ("Copy model " ++ model_path ++ " to "
                                       ++ join output_dir
                                            (training_name ++ ".pt"));
                              EvCopy2 model_path
                                (join output_dir (training_name ++ ".pt"))]))
      end.
      * rewrite filter_app, (filter_none copy_event evs Hev). reflexivity.
      * cbn [w_trace]. rewrite Ht, <- !app_assoc. reflexivity.
    + cbn [snd]. rewrite (new_events_app X w wE evs Ht).
      rewrite (Forall_existsb_false (fun ev => copy_event ev = false)
                 copy_event evs); [discriminate|auto|assumption].
    + cbn [snd]. rewrite (new_events_app X w wE evs Ht).
      rewrite (Forall_existsb_false (fun ev => copy_event ev = false)
                 copy_event evs); [discriminate|auto|assumption].
Qed.

End TrainMore.

Arguments train_until_copy {X Obj} C self _ _ _ _ _ _ _.

(** The query cache of the sample tree is prepared, the target cache is
    missing: [train] stops at the second preparation and copies
    nothing. *)
Lemma train_copies_only_after_training_witness :
  train quiet toy_self false "src" "tgt" "tmp" "models" 0 0 "run1"
    (start sample_fs)
  = (Raise (FileNotFoundError "tmp/input_ds_Y"),
     snd (train_until_copy quiet toy_self false "src" "tgt" "tmp" 0 0 "run1"
            (start sample_fs)))
  /\ existsb copy_event
       (new_events (start sample_fs)
          (snd (train_until_copy quiet toy_self false "src" "tgt" "tmp" 0 0
                  "run1" (start sample_fs))))
     = false.
Proof.
  exact (proj1 (train_copies_only_after_training unit nat quiet toy_self false
                  "src" "tgt" "tmp" "models" 0 0 "run1" (start sample_fs))
           (FileNotFoundError "tmp/input_ds_Y")
           (snd (train_until_copy quiet toy_self false "src" "tgt" "tmp" 0 0
                   "run1" (start sample_fs)))
           eq_refl).
Defined.

(** The weight files loaded, in order. *)
Fixpoint loaded_models (evs : list event) : list string :=
  match evs with
  | [] => []
  | EvLoadWeights m :: rest => m :: loaded_models rest
  | _ :: rest => loaded_models rest
  end.

(** The files handed to the feature extractor, in order. *)
Fixpoint feature_inputs (evs : list event) : list string :=
  match evs with
  | [] => []
  | EvGetFeatures ps :: rest => (ps ++ feature_inputs rest)%list
  | _ :: rest => feature_inputs rest
  end.

Lemma loaded_models_app (a b : list event) :
  loaded_models (a ++ b) = (loaded_models a ++ loaded_models b)%list.
Proof.
  induction a as [|[] a IH]; simpl; try assumption; [reflexivity|].
  now rewrite IH.
Qed.

Lemma feature_inputs_app (a b : list event) :
  feature_inputs (a ++ b) = (feature_inputs a ++ feature_inputs b)%list.
Proof.
  induction a as [|[] a IH]; simpl; try assumption; [reflexivity|].
  now rewrite IH, app_assoc.
Qed.

Section ConvertMore.

Variables X Obj : Type.
Variable C : collaborators X Obj.
Variable self : VOXNOT Obj.

Lemma call_trace {A : Type} (ev : event) (f : ext X A) (w : world X)
  (r : outcome A) (w' : world X) :
  call ev f w = (r, w') -> w_trace w' = (w_trace w ++ [ev])%list.
Proof.
  unfold call. destruct (f (w_fs w) (w_ext w)) as [[r0 fs'] x'].
  now intros [= _ <-].
Qed.

Lemma bind_inv {A B : Type} (m : M X A) (k : A -> M X B) (w : world X)
  (r : outcome B) (w' : world X) :
  bind m k w = (r, w') ->
  exists r1 w1,
    m w = (r1, w1)
    /\ match r1 with
       | Ok a => k a w1 = (r, w')
       | Raise e => r = Raise e /\ w' = w1
       | OutOfFuel => r = OutOfFuel /\ w' = w1
       end.
Proof.
  unfold bind. destruct (m w) as [[a|e|] w1]; intros E; eexists _, _;
    (split; [reflexivity|]); try assumption; now injection E as <- <-.
Qed.

(** How far a loop over the queries got, with one model. *)
Definition queries_progress (qs : list string) (r : outcome unit)
  (evs : list event) : Prop :=
  loaded_models evs = []
  /\ (exists rest, qs = (feature_inputs evs ++ rest)%list)
  /\ length (vocode_paths evs) <= length (feature_inputs evs)
  /\ length (feature_inputs evs) <= S (length (vocode_paths evs))
  /\ (r = Ok tt ->
      feature_inputs evs = qs /\ length (vocode_paths evs) = length qs).

Lemma convert_query_progress (helper : Obj) (out_path model_name q : string)
  (w : world X) (r : outcome unit) (w' : world X) :
  bind (call (EvGetFeatures [q]) (helper_get_features C helper [q]))
    (fun feats =>
       bind (call EvPredict (model_predict C (model_instance self) feats))
         (fun Y =>
            bind (os_path_isdir out_path)
              (fun isd =>
                 call (EvVocode (out_file_path_of isd out_path q model_name))
                   (helper_vocode C helper Y
                      (out_file_path_of isd out_path q model_name))))) w
  = (r, w') ->
  exists evs,
    w_trace w' = (w_trace w ++ evs)%list
    /\ loaded_models evs = []
    /\ feature_inputs evs = [q]
    /\ length (vocode_paths evs) <= 1
    /\ (r = Ok tt -> length (vocode_paths evs) = 1).
Proof.
  unfold bind at 1.
  destruct (call (EvGetFeatures [q]) (helper_get_features C helper [q]) w)
    as [[feats|e|] w1] eqn:E1; pose proof (call_trace _ _ _ _ _ E1) as T1.
  2,3: intros [= <- <-]; exists [EvGetFeatures [q]];
       repeat split; simpl; try assumption; try lia; discriminate.
  unfold bind at 1.
  destruct (call EvPredict (model_predict C (model_instance self) feats) w1)
    as [[Y|e|] w2] eqn:E2; pose proof (call_trace _ _ _ _ _ E2) as T2.
  2,3: intros [= <- <-]; exists [EvGetFeatures [q]; EvPredict];
       (split; [rewrite T2, T1, <- app_assoc; reflexivity|]);
       repeat split; simpl; try lia; discriminate.
  unfold bind, os_path_isdir, query. intros E3.
  pose proof (call_trace _ _ _ _ _ E3) as T3.
  exists [EvGetFeatures [q]; EvPredict;
          EvVocode (out_file_path_of (fs_isdir (w_fs w2) out_path) out_path q
                      model_name)].
  split; [rewrite T3, T2, T1, <- !app_assoc; reflexivity|].
  repeat split; simpl; lia.
Qed.

Lemma convert_queries_progress (helper : Obj) (out_path model_name : string)
  (qs : list string) :
  forall (w : world X) (r : outcome unit) (w' : world X),
    for_each qs (fun query_path =>
      bind (call (EvGetFeatures [query_path])
              (helper_get_features C helper [query_path]))
        (fun feats =>
           bind (call EvPredict (model_predict C (model_instance self) feats))
             (fun Y =>
                bind (os_path_isdir out_path)
                  (fun isd =>
                     call (EvVocode (out_file_path_of isd out_path query_path
                                       model_name))
                       (helper_vocode C helper Y
                          (out_file_path_of isd out_path query_path
                             model_name)))))) w
    = (r, w') ->
    exists evs,
      w_trace w' = (w_trace w ++ evs)%list /\ queries_progress qs r evs.
Proof.
  induction qs as [|q qs IH]; intros w r w'.
  - intros [= <- <-]. exists []. rewrite app_nil_r. split; [reflexivity|].
    unfold queries_progress. simpl. repeat split; try lia. now exists [].
  - cbn [for_each]. intros E.
    apply bind_inv in E as (r1 & w1 & E1 & E). revert E.
    destruct (convert_query_progress _ _ _ _ _ _ _ E1)
      as (evs1 & T1 & L1 & F1 & V1 & K1).
    destruct r1 as [[]|e|].
    + intros E2. destruct (IH _ _ _ E2) as (evs2 & T2 & L2 & [rest R2] & A2 & B2 & K2).
      specialize (K1 eq_refl).
      exists (evs1 ++ evs2)%list.
      split; [rewrite T2, T1, app_assoc; reflexivity|].
      unfold queries_progress.
      rewrite loaded_models_app, feature_inputs_app, vocode_paths_app, L1, L2,
        F1, !length_app, K1. cbn [app length].
      split; [reflexivity|]. split; [exists rest; now rewrite R2 at 1|].
      split; [lia|]. split; [lia|].
      intros Hr. destruct (K2 Hr) as [-> ->]. split; [reflexivity|lia].
    + intros [-> ->]. exists evs1. split; [assumption|].
      unfold queries_progress. rewrite L1, F1. cbn [app length].
      split; [reflexivity|]. split; [now exists qs|].
      split; [lia|]. split; [lia|]. discriminate.
    + intros [-> ->]. exists evs1. split; [assumption|].
      unfold queries_progress. rewrite L1, F1. cbn [app length].
      split; [reflexivity|]. split; [now exists qs|].
      split; [lia|]. split; [lia|]. discriminate.
Qed.

(** How far the conversion got: the models loaded are the first ones of
    the list, every model but the last one loaded was taken through
    all the queries, and at most one query was left unfinished. *)
Definition conversion_progress (qs ms : list string) (r : outcome unit)
  (evs : list event) : Prop :=
  (exists rest, ms = (loaded_models evs ++ rest)%list)
  /\ (exists rest,
        flat_map (fun _ => qs) (loaded_models evs)
        = (feature_inputs evs ++ rest)%list)
  /\ (length (loaded_models evs) - 1) * length qs
     <= length (feature_inputs evs)
  /\ length (vocode_paths evs) <= length (feature_inputs evs)
  /\ length (feature_inputs evs) <= S (length (vocode_paths evs))
  /\ (r = Ok tt ->
      loaded_models evs = ms
      /\ feature_inputs evs = flat_map (fun _ => qs) ms
      /\ length (vocode_paths evs) = length ms * length qs).

Lemma convert_pairs_progress (helper : Obj) (out_path : string)
  (qs ms : list string) :
  forall (w : world X) (r : outcome unit) (w' : world X),
    convert_pairs C self helper qs ms out_path w = (r, w') ->
    exists evs,
      w_trace w' = (w_trace w ++ evs)%list /\ conversion_progress qs ms r evs.
Proof.
  unfold convert_pairs.
  induction ms as [|m ms IH]; intros w r w'.
  - intros [= <- <-]. exists []. rewrite app_nil_r. split; [reflexivity|].
    unfold conversion_progress. simpl.
    repeat split; try lia; now exists [].
  - cbn [for_each]. rewrite bind_assoc. unfold bind at 1.
    destruct (call (EvLoadWeights m)
                (model_load_weights C (model_instance self) m) w)
      as [[[]|e|] w1] eqn:E1; pose proof (call_trace _ _ _ _ _ E1) as T1.
    2,3: intros [= <- <-]; exists [EvLoadWeights m];
         (split; [assumption|]); unfold conversion_progress; simpl;
         rewrite app_nil_r;
         (split; [now exists ms|]); (split; [now exists qs|]);
         repeat split; try lia; discriminate.
    intros E. apply bind_inv in E as (r2 & w2 & E2 & E). revert E.
    destruct (convert_queries_progress _ _ _ _ _ _ _ E2)
      as (evs2 & T2 & L2 & [rest2 R2] & A2 & B2 & K2).
    destruct r2 as [[]|e|].
    + intros E3.
      destruct (IH _ _ _ E3)
        as (evs3 & T3 & [restm Rm] & [restq Rq] & N3 & A3 & B3 & K3).
      destruct (K2 eq_refl) as [F2 V2].
      exists (EvLoadWeights m :: evs2 ++ evs3)%list.
      split.
      { rewrite T3, T2, T1, <- !app_assoc. reflexivity. }
      unfold conversion_progress. cbn [loaded_models feature_inputs vocode_paths].
      rewrite loaded_models_app, feature_inputs_app, vocode_paths_app, L2, F2,
        !length_app, V2.
      cbn [app length flat_map].
      split; [exists restm; now rewrite Rm at 1|].
      split; [exists restq; now rewrite Rq, app_assoc|].
      split; [destruct (loaded_models evs3); simpl in *; nia|].
      split; [lia|]. split; [lia|].
      intros Hr. destruct (K3 Hr) as (-> & -> & ->).
      repeat split; lia.
    + intros [-> ->]. exists (EvLoadWeights m :: evs2).
      split; [rewrite T2, T1, <- app_assoc; reflexivity|].
      unfold conversion_progress. cbn [loaded_models feature_inputs vocode_paths].
      rewrite L2. cbn [app length flat_map]. rewrite app_nil_r.
      split; [now exists ms|]. split; [now exists rest2|].
      repeat split; try lia; discriminate.
    + intros [-> ->]. exists (EvLoadWeights m :: evs2).
      split; [rewrite T2, T1, <- app_assoc; reflexivity|].
      unfold conversion_progress. cbn [loaded_models feature_inputs vocode_paths].
      rewrite L2. cbn [app length flat_map]. rewrite app_nil_r.
      split; [now exists ms|]. split; [now exists rest2|].
      repeat split; try lia; discriminate.
Qed.

Lemma make_conversation_progress (query_path trained_model_path out_path : string)
  (w : world X) :
  exists qs ms,
    _get_files self query_path w = (Ok qs, w)
    /\ _get_files self trained_model_path w = (Ok ms, w)
    /\ exists evs,
         new_events w
           (snd (make_conversation C self query_path trained_model_path
                   out_path w)) = EvHelperInit :: evs
         /\ conversion_progress qs ms
              (fst (make_conversation C self query_path trained_model_path
                      out_path w)) evs.
Proof.
  destruct (get_files_total X Obj self query_path w) as [qs Eq].
  destruct (get_files_total X Obj self trained_model_path w) as [ms Em].
  exists qs, ms. split; [assumption|]. split; [assumption|].
  unfold make_conversation.
  rewrite (bind_ok X _ _ _ _ _ Eq), (bind_ok X _ _ _ _ _ Em).
  unfold bind.
  destruct (call EvHelperInit (helper_init C (device self)) w)
    as [[helper|e|] w1] eqn:E1; pose proof (call_trace _ _ _ _ _ E1) as T1.
  2,3: exists []; cbn [fst snd];
       (split; [now apply new_events_app|]);
       unfold conversion_progress; simpl;
       (split; [now exists ms|]); (split; [now exists []|]);
       repeat split; try lia; discriminate.
  destruct (convert_pairs C self helper qs ms out_path w1) as [r w'] eqn:E2.
  destruct (convert_pairs_progress _ _ _ _ _ _ _ E2) as (evs & T2 & H).
  exists evs. cbn [fst snd]. split; [|assumption].
  apply new_events_app. now rewrite T2, T1, <- app_assoc.
Qed.

(** X11. [make_conversation] lists its queries and its models once,
    before any collaborator runs, and stops at the first call that
    raises, whatever the collaborators do to the filesystem: the models
    loaded are the first ones of that list, in order; the files given
    to the feature extractor are the queries of that list, in order,
    once per loaded model; every model before the last one loaded was
    taken through all the queries; and at most one query was left
    without a rendered result.  A run that returns has gone through
    every model and every pair. *)
Theorem conversion_stops_at_first_failure
  (query_path trained_model_path out_path : string) (w : world X) :
  exists qs ms evs,
    _get_files self query_path w = (Ok qs, w)
    /\ _get_files self trained_model_path w = (Ok ms, w)
    /\ new_events w
         (snd (make_conversation C self query_path trained_model_path
                 out_path w)) = EvHelperInit :: evs
    /\ (exists rest, ms = (loaded_models evs ++ rest)%list)
    /\ (exists rest,
          flat_map (fun _ => qs) (loaded_models evs)
          = (feature_inputs evs ++ rest)%list)
    /\ (length (loaded_models evs) - 1) * length qs
       <= length (feature_inputs evs)
    /\ length (vocode_paths evs) <= length (feature_inputs evs)
    /\ length (feature_inputs evs) <= S (length (vocode_paths evs))
    /\ (fst (make_conversation C self query_path trained_model_path
               out_path w) = Ok tt ->
        loaded_models evs = ms
        /\ feature_inputs evs = flat_map (fun _ => qs) ms
        /\ length (vocode_paths evs) = length ms * length qs).
Proof.
  destruct (make_conversation_progress query_path trained_model_path out_path w)
    as (qs & ms & Eq & Em & evs & Hev & H).
  exists qs, ms, evs. repeat (split; [assumption|]). exact H.
Qed.

Lemma get_files_of_dir (w : world X) (p : string)
  (es : list (string * node)) :
  wf_fs (w_fs w) = true ->
  stat (w_fs w) p = Some (Dir es) ->
  _get_files self p w = (Ok (map (join p) (regular_names es)), w).
Proof.
  intros Hwf Hs. unfold _get_files, bind, os_path_isdir, query, fs_isdir.
  rewrite Hs. unfold os_listdir. rewrite (listdir_dir _ _ _ Hs).
  rewrite collect_files_spec; [reflexivity|].
  intros n v Hin. now destruct (stat_entry _ _ _ _ _ Hwf Hs Hin).
Qed.

(** X12. Empty inputs are not an error.  With a model directory that
    holds no regular file, [make_conversation] only builds the feature
    helper: it loads no weights, reads no query and renders nothing,
    and returns normally when the helper was built.  With a query
    directory that holds no regular file it extracts and renders
    nothing, whatever else happens. *)
Theorem conversion_of_nothing (query_path trained_model_path out_path : string)
  (w : world X) (es : list (string * node)) :
  wf_fs (w_fs w) = true ->
  regular_names es = [] ->
  (stat (w_fs w) trained_model_path = Some (Dir es) ->
   new_events w
     (snd (make_conversation C self query_path trained_model_path out_path w))
   = [EvHelperInit]
   /\ (forall h fs' x',
         helper_init C (device self) (w_fs w) (w_ext w) = (inr h, fs', x') ->
         make_conversation C self query_path trained_model_path out_path w
         = (Ok tt, {| w_fs := fs'; w_ext := x';
                      w_trace := w_trace w ++ [EvHelperInit] |})))
  /\ (stat (w_fs w) query_path = Some (Dir es) ->
      feature_inputs
        (new_events w
           (snd (make_conversation C self query_path trained_model_path
                   out_path w))) = []
      /\ vocode_paths
           (new_events w
              (snd (make_conversation C self query_path trained_model_path
                      out_path w))) = []).
Proof.
  intros Hwf Hreg. split; intros Hs;
    pose proof (get_files_of_dir w _ es Hwf Hs) as Eg;
    rewrite Hreg in Eg; cbn [map] in Eg.
  - split.
    + unfold make_conversation.
      destruct (get_files_total X Obj self query_path w) as [qs Eq].
      rewrite (bind_ok X _ _ _ _ _ Eq), (bind_ok X _ _ _ _ _ Eg).
      unfold bind, call.
      destruct (helper_init C (device self) (w_fs w) (w_ext w))
        as [[[e|h] fs'] x']; now apply new_events_app.
    + intros h fs' x' Eh. unfold make_conversation.
      destruct (get_files_total X Obj self query_path w) as [qs Eq].
      rewrite (bind_ok X _ _ _ _ _ Eq), (bind_ok X _ _ _ _ _ Eg).
      unfold bind, call. rewrite Eh. reflexivity.
  - destruct (make_conversation_progress query_path trained_model_path
                out_path w)
      as (qs & ms & Eq & Em & evs & Hev & _ & [rest R] & _ & Hv & _).
    rewrite Eg in Eq. injection Eq as <-. rewrite Hev.
    cbn [feature_inputs vocode_paths].
    assert (Hf : feature_inputs evs = []).
    { clear - R. induction (loaded_models evs) as [|m l IH]; simpl in R.
      - symmetry in R. now apply app_eq_nil in R.
      - now apply IH. }
    rewrite Hf in *. split; [reflexivity|].
    destruct (vocode_paths evs); [reflexivity|simpl in Hv; lia].
Qed.

End ConvertMore.

(** The output directory of the sample tree, taken as a model directory,
    holds no weight file. *)
Lemma conversion_of_nothing_witness :
  wf_fs sample_fs = true
  /\ make_conversation quiet toy_self "q" "out" "out" (start sample_fs)
     = (Ok tt, {| w_fs := sample_fs; w_ext := tt;
                  w_trace := [EvHelperInit] |}).
Proof.
  split; [reflexivity|].
  exact (proj2 (proj1 (conversion_of_nothing unit nat quiet toy_self "q" "out"
                         "out" (start sample_fs) [] eq_refl eq_refl) eq_refl)
           2 sample_fs tt eq_refl).
Defined.

Lemma nodupb_NoDup (l : list string) : nodupb l = true -> NoDup l.
Proof.
  induction l as [|x l IH]; simpl; intros H; constructor;
    apply andb_prop in H as [Hx Hl].
  - intros Hin. apply existsb_eqb_In in Hin.
    rewrite Hin in Hx. discriminate.
  - now apply IH.
Qed.

Lemma NoDup_regular_names (es : list (string * node)) :
  NoDup (map fst es) -> NoDup (regular_names es).
Proof.
  unfold regular_names. induction es as [|[n v] es IH]; simpl; intros H;
    [constructor|].
  inversion H as [|? ? Hn Hes]; subst.
  destruct (is_file v); simpl; [|now apply IH].
  constructor; [|now apply IH].
  intros Hin. apply Hn. apply in_map_iff in Hin as ([n' v'] & <- & Hin).
  apply filter_In in Hin as [Hin _]. apply in_map_iff. now exists (n', v').
Qed.

Section GetFilesMore.

Variables X Obj : Type.
Variable self : VOXNOT Obj.

(** X13. What [_get_files] returns for a directory of a well-formed
    tree can be used as it is: every path names an existing regular
    file, no path and no base name comes twice, and the base names are
    the names of the directory's regular files, in listing order. *)
Theorem get_files_lists_distinct_files (w : world X) (p : string)
  (es : list (string * node)) :
  wf_fs (w_fs w) = true ->
  stat (w_fs w) p = Some (Dir es) ->
  exists l,
    _get_files self p w = (Ok l, w)
    /\ Forall (fun f => fs_isfile (w_fs w) f = true) l
    /\ NoDup l
    /\ map basename l = regular_names es
    /\ NoDup (map basename l).
Proof.
  intros Hwf Hs.
  exists (map (join p) (regular_names es)).
  split; [now apply get_files_of_dir|].
  assert (Hin : forall n, In n (regular_names es) ->
                  exists b, In (n, File b) es).
  { intros n H. unfold regular_names in H.
    apply in_map_iff in H as ([n' v] & <- & H).
    apply filter_In in H as [H Hf]. destruct v as [b|]; [|discriminate].
    now exists b. }
  assert (Hval : forall n, In n (regular_names es) -> valid_name n = true).
  { intros n H. destruct (Hin n H) as [b Hb].
    now destruct (stat_entry _ _ _ _ _ Hwf Hs Hb). }
  assert (Hnd : NoDup (regular_names es)).
  { apply NoDup_regular_names, nodupb_NoDup.
    pose proof (wf_fs_inv _ Hwf) as [_ Hun].
    unfold stat in Hs.
    destruct (resolve (w_fs w) p) as [e|cp]; [discriminate|].
    pose proof (names_unique_get cp _ _ Hun Hs) as H. simpl in H.
    now apply andb_prop in H as [H _]. }
  assert (Hbase : map basename (map (join p) (regular_names es))
                  = regular_names es).
  { rewrite map_map. rewrite <- (map_id (regular_names es)) at 2.
    apply map_ext_in. intros n H. apply basename_join. now apply Hval. }
  split; [|split; [|split]].
  - apply Forall_forall. intros f Hf.
    apply in_map_iff in Hf as (n & <- & Hn).
    destruct (Hin n Hn) as [b Hb].
    destruct (stat_entry _ _ _ _ _ Hwf Hs Hb) as [_ Hst].
    unfold fs_isfile. now rewrite Hst.
  - clear - Hnd Hval. induction Hnd as [|n l Hn Hl IH]; simpl; constructor.
    + intros H. apply in_map_iff in H as (n' & E & Hn').
      apply join_inj in E.
      * subst n'. now apply Hn.
      * apply valid_name_not_abs, Hval. now right.
      * apply valid_name_not_abs, Hval. now left.
    + apply IH. intros n' H. apply Hval. now right.
  - exact Hbase.
  - now rewrite Hbase.
Qed.

End GetFilesMore.

Lemma get_files_lists_distinct_files_witness :
  wf_fs sample_fs = true
  /\ exists l,
       _get_files toy_self "tmp/input_ds_X" (start sample_fs)
       = (Ok l, start sample_fs)
       /\ map basename l = ["a.pt"; "notes.txt"; "b.pt"].
Proof.
  split; [reflexivity|].
  destruct (get_files_lists_distinct_files unit nat toy_self (start sample_fs)
              "tmp/input_ds_X" _ eq_refl eq_refl)
    as (l & E & _ & _ & Hb & _).
  exists l. split; assumption.
Defined.

Section RebuildMore.

Variables X Obj : Type.
Variable C : collaborators X Obj.
Variable self : VOXNOT Obj.



End RebuildMore.

